(** * Request materialization engine of [internal/morph]

    A shallow embedding of the Go package [morph] (with its helper packages
    [convert] and [gcloudcmd]) and the properties its specification states
    about it.

    Conventions.
    - A Go [string] is a [string]; a Go [map] is a [gmap] (a [nil] map and an
      empty map are both [∅], as every read of the source treats them alike);
      a slice is a [list].
    - A pointer to an [api.Message] is an address in a message store; [nil]
      is [None].
    - Functions of packages that are not part of the sources ([strings.ToLower],
      [json.Compact], gjson's path language, the mustache renderer, ...) are
      section variables: every theorem holds whatever they compute. *)

From Stdlib Require Import ZArith Lia Ascii Floats.SpecFloat DecimalString.
From stdpp Require Import gmap strings list fin_maps sorting.

Local Open Scope string_scope.
#[local] Set Warnings "-register-all,-clear-no-such-hyp".

(** ** The schema model: package [api] of sidekick, as far as the sources use it *)

Module api.

(** The wire type tag of a field. *)
Inductive Typez :=
  | UNDEFINED_TYPE | DOUBLE_TYPE | FLOAT_TYPE | INT64_TYPE | UINT64_TYPE
  | INT32_TYPE | FIXED64_TYPE | FIXED32_TYPE | BOOL_TYPE | STRING_TYPE
  | GROUP_TYPE | MESSAGE_TYPE | BYTES_TYPE | UINT32_TYPE | ENUM_TYPE
  | SFIXED32_TYPE | SFIXED64_TYPE | SINT32_TYPE | SINT64_TYPE.

Inductive FieldBehavior :=
  | FIELD_BEHAVIOR_UNSPECIFIED | FIELD_BEHAVIOR_OPTIONAL
  | FIELD_BEHAVIOR_REQUIRED | FIELD_BEHAVIOR_OUTPUT_ONLY
  | FIELD_BEHAVIOR_INPUT_ONLY | FIELD_BEHAVIOR_IMMUTABLE.

#[global] Instance Typez_eq_dec : EqDecision Typez.
Proof. solve_decision. Defined.
#[global] Instance FieldBehavior_eq_dec : EqDecision FieldBehavior.
Proof. solve_decision. Defined.

(** [*api.Message]: an address in the message store. *)
Definition ptr := nat.

Module EnumValue.
Record t := mk { Name : string }.
End EnumValue.

Module Enum.
Record t := mk { Values : list EnumValue.t }.
End Enum.

Module OneOf.
Record t := mk { Name : string }.
End OneOf.

Module Field.
Record t := mk {
  Name : string;
  JSONName : string;
  Documentation : string;
  Typez : api.Typez;
  Repeated : bool;
  Map : bool;
  IsOneOf : bool;
  Group : option OneOf.t;
  MessageType : option ptr;
  EnumType : option Enum.t;
  Behavior : list FieldBehavior
}.

(** [DocumentAsRequired]: the field is explicitly marked required. *)
Definition DocumentAsRequired (f : t) : bool :=
  bool_decide (FIELD_BEHAVIOR_REQUIRED ∈ Behavior f).

(** [NameEqualJSONName]. *)
Definition NameEqualJSONName (f : t) : bool :=
  bool_decide (JSONName f = Name f).
End Field.

(** The chain of enclosing messages of a nested message, nearest first
    ([msg.Parent], [msg.Parent.Parent], ...). *)
Inductive Ancestor :=
  mkAncestor (Name : string) (ServicePlaceholder : bool) (Parent : option Ancestor).

Module Message.
Record t := mk {
  Name : string;
  ID : string;
  Documentation : string;
  Fields : list Field.t;
  Messages : list ptr;
  Parent : option Ancestor
}.
End Message.

(** A variable of a path template: the request field it reads and the
    pattern of literal and wildcard tokens its value decomposes against. *)
Module PathVariable.
Record t := mk { FieldPath : list string; Segments : list string }.
End PathVariable.

Module PathSegment.
Record t := mk { Literal : option string; Variable_ : option PathVariable.t }.
End PathSegment.

Module PathTemplate.
Record t := mk { Segments : list PathSegment.t }.
End PathTemplate.

Module PathBinding.
Record t := mk { Verb : string; PathTemplate : PathTemplate.t }.
End PathBinding.

Module PathInfo.
Record t := mk { Bindings : list PathBinding.t }.
End PathInfo.

Module Service.
Record t := mk { Name : string; DefaultHost : string }.
End Service.

Module Method.
Record t := mk {
  Name : string;
  InputType : option ptr;
  PathInfo : option PathInfo.t;
  Service : Service.t
}.
End Method.

(** The message store: the messages of the API model, by address. *)
Definition store := list Message.t.

Definition deref (h : store) (p : option ptr) : option Message.t :=
  match p with
  | Some a => h !! a
  | None => None
  end.

End api.

(** ** Package [convert]: the JSON-Schema exporter *)

Module jsonschema.

#[local] Unset Elimination Schemes.
Inductive Schema := mkSchema {
  Type_ : string;
  Ref : string;
  Description : string;
  ContentEncoding : string;
  Properties : gmap string Schema;
  Required : list string;
  Items : option Schema;
  AdditionalProperties : option Schema;
  Enum : list string;
  Definitions : gmap string Schema
}.
#[local] Set Elimination Schemes.

(** [&jsonschema.Schema{}] *)
Definition empty : Schema := mkSchema "" "" "" "" ∅ [] None None [] ∅.

Definition withType (s : Schema) (ty : string) : Schema :=
  mkSchema ty (Ref s) (Description s) (ContentEncoding s) (Properties s)
           (Required s) (Items s) (AdditionalProperties s) (Enum s) (Definitions s).
Definition withRef (s : Schema) (r : string) : Schema :=
  mkSchema (Type_ s) r (Description s) (ContentEncoding s) (Properties s)
           (Required s) (Items s) (AdditionalProperties s) (Enum s) (Definitions s).
Definition withDescription (s : Schema) (d : string) : Schema :=
  mkSchema (Type_ s) (Ref s) d (ContentEncoding s) (Properties s)
           (Required s) (Items s) (AdditionalProperties s) (Enum s) (Definitions s).
Definition withContentEncoding (s : Schema) (c : string) : Schema :=
  mkSchema (Type_ s) (Ref s) (Description s) c (Properties s)
           (Required s) (Items s) (AdditionalProperties s) (Enum s) (Definitions s).
Definition withProperties (s : Schema) (p : gmap string Schema) : Schema :=
  mkSchema (Type_ s) (Ref s) (Description s) (ContentEncoding s) p
           (Required s) (Items s) (AdditionalProperties s) (Enum s) (Definitions s).
Definition withRequired (s : Schema) (r : list string) : Schema :=
  mkSchema (Type_ s) (Ref s) (Description s) (ContentEncoding s) (Properties s)
           r (Items s) (AdditionalProperties s) (Enum s) (Definitions s).
Definition withItems (s : Schema) (i : option Schema) : Schema :=
  mkSchema (Type_ s) (Ref s) (Description s) (ContentEncoding s) (Properties s)
           (Required s) i (AdditionalProperties s) (Enum s) (Definitions s).
Definition withAdditionalProperties (s : Schema) (a : option Schema) : Schema :=
  mkSchema (Type_ s) (Ref s) (Description s) (ContentEncoding s) (Properties s)
           (Required s) (Items s) a (Enum s) (Definitions s).
Definition withEnum (s : Schema) (e : list string) : Schema :=
  mkSchema (Type_ s) (Ref s) (Description s) (ContentEncoding s) (Properties s)
           (Required s) (Items s) (AdditionalProperties s) e (Definitions s).
Definition withDefinitions (s : Schema) (d : gmap string Schema) : Schema :=
  mkSchema (Type_ s) (Ref s) (Description s) (ContentEncoding s) (Properties s)
           (Required s) (Items s) (AdditionalProperties s) (Enum s) d.

End jsonschema.

Module convert.
Import api jsonschema.

(** [schemaWalker]: the definitions table and the reference of every
    message met so far, both keyed by message ID. *)
Record schemaWalker := mkWalker {
  defs : gmap string Schema;
  refMap : gmap string string
}.

Section walk.
(** The message store the pointers of the schema live in. *)
Variable h : store.

(** [getRef] as seen from the functions it calls and that call it back. *)
Variable rec : schemaWalker → option ptr → option (Schema * schemaWalker).

Definition buildFieldType (w : schemaWalker) (f : Field.t)
  : option (Schema * schemaWalker) :=
  match Field.Typez f with
  | DOUBLE_TYPE | FLOAT_TYPE => Some (withType empty "number", w)
  | INT64_TYPE | UINT64_TYPE | INT32_TYPE | FIXED64_TYPE | FIXED32_TYPE
  | UINT32_TYPE | SFIXED32_TYPE | SFIXED64_TYPE | SINT32_TYPE | SINT64_TYPE =>
      Some (withType empty "integer", w)
  | BOOL_TYPE => Some (withType empty "boolean", w)
  | STRING_TYPE => Some (withType empty "string", w)
  | BYTES_TYPE => Some (withContentEncoding (withType empty "string") "base64", w)
  | MESSAGE_TYPE | GROUP_TYPE => rec w (Field.MessageType f)
  | ENUM_TYPE =>
      match Field.EnumType f with
      | None => Some (withType empty "string", w)
      | Some e => Some (withEnum empty (EnumValue.Name <$> Enum.Values e), w)
      end
  | UNDEFINED_TYPE => Some (withType empty "string", w)
  end.

(** The first field named "value" of a map-entry message. *)
Definition valueFieldOf (fs : list Field.t) : option Field.t :=
  List.find (λ subF, bool_decide (Field.Name subF = "value")) fs.

Definition buildField (w : schemaWalker) (f : Field.t)
  : option (Schema * schemaWalker) :=
  if Field.Map f then
    '(valueSchema, w') ←
      match deref h (Field.MessageType f) with
      | None => Some (empty, w)
      | Some mt =>
          match valueFieldOf (Message.Fields mt) with
          | None => Some (empty, w)
          | Some subF =>
              '(vs, w') ← buildFieldType w subF;
              Some (if bool_decide (Field.Documentation subF ≠ "")
                    then withDescription vs (Field.Documentation subF)
                    else vs, w')
          end
      end;
    Some (withDescription
            (withAdditionalProperties (withType empty "object") (Some valueSchema))
            (Field.Documentation f), w')
  else
    '(s0, w') ← buildFieldType w f;
    let s := if bool_decide (Field.Documentation f ≠ "")
             then withDescription s0 (Field.Documentation f) else s0 in
    if Field.Repeated f then
      Some (withDescription (withItems (withType empty "array") (Some s))
                            (Field.Documentation f), w')
    else Some (s, w').

(** The loop of [buildObject] over the fields still to visit, [s] being
    the object schema built so far. *)
Fixpoint buildObject_fields (fs : list Field.t) (s : Schema) (w : schemaWalker)
  : option (Schema * schemaWalker) :=
  match fs with
  | [] => Some (s, w)
  | f :: fs' =>
      if bool_decide (FIELD_BEHAVIOR_OUTPUT_ONLY ∈ Field.Behavior f) then
        buildObject_fields fs' s w
      else
        '(schema, w') ← buildField w f;
        let s1 := withProperties s (<[Field.JSONName f := schema]> (Properties s)) in
        let s2 := if Field.DocumentAsRequired f
                  then withRequired s1 (Required s1 ++ [Field.JSONName f])
                  else s1 in
        buildObject_fields fs' s2 w'
  end.

Definition buildObject (w : schemaWalker) (msg : Message.t)
  : option (Schema * schemaWalker) :=
  let s := withType empty "object" in
  let s := if bool_decide (Message.Documentation msg ≠ "")
           then withDescription s (Message.Documentation msg) else s in
  buildObject_fields (Message.Fields msg) s w.

End walk.

(** [getRef].  The recursion of the source is through [buildObject], on a
    message graph that may be cyclic; [fuel] bounds the number of nested
    first encounters, and [None] stands for a walk that has not returned
    within that bound. *)
Fixpoint getRef (fuel : nat) (h : store) (w : schemaWalker) (m : option ptr)
  : option (Schema * schemaWalker) :=
  match deref h m with
  | None => Some (empty, w)
  | Some msg =>
      match refMap w !! Message.ID msg with
      | Some ref => Some (withRef empty ref, w)
      | None =>
          match fuel with
          | O => None
          | S n =>
              let ref := "#/definitions/" +:+ Message.ID msg in
              let w1 := mkWalker (defs w) (<[Message.ID msg := ref]> (refMap w)) in
              '(s, w2) ← buildObject h (getRef n h) w1 msg;
              Some (withRef empty ref,
                    mkWalker (<[Message.ID msg := s]> (defs w2)) (refMap w2))
          end
      end
  end.

(** [ToJSONSchema], together with the walker it ends with. *)
Definition walkRoot (fuel : nat) (h : store) (m : option ptr)
  : option (Schema * schemaWalker) :=
  match deref h m with
  | None => Some (empty, mkWalker ∅ ∅)
  | Some msg =>
      let w := mkWalker ∅ (<[Message.ID msg := "#"]> ∅) in
      '(root, w') ← buildObject h (getRef fuel h) w msg;
      Some (withDefinitions root (defs w'), w')
  end.

Definition ToJSONSchema (fuel : nat) (h : store) (m : option ptr) : option Schema :=
  fst <$> walkRoot fuel h m.

(** The message stores of [TestToJSONSchema]. *)
Definition plainField (name jsonName : string) (ty : Typez) (mt : option ptr) : Field.t :=
  Field.mk name jsonName "" ty false false false None mt None [].

(** "RecursiveMessage": a message with a field of its own type. *)
Definition RecursiveMsg : Message.t :=
  Message.mk "" "RecursiveMsg" "" [plainField "self" "self" MESSAGE_TYPE (Some 0)] [] None.
Definition recursiveStore : store := [RecursiveMsg].

(** "NestedMessage": a parent at address 0, its child at address 1. *)
Definition ChildMsg : Message.t :=
  Message.mk "" "ChildMsg" "" [plainField "child_val" "childVal" STRING_TYPE None] [] None.
Definition ParentMsg : Message.t :=
  Message.mk "" "ParentMsg" "" [plainField "child" "child" MESSAGE_TYPE (Some 1)] [] None.
Definition nestedStore : store := [ParentMsg; ChildMsg].

(** Two messages that reference each other, the second twice. *)
Definition PingMsg : Message.t :=
  Message.mk "" "Ping" "" [plainField "pong" "pong" MESSAGE_TYPE (Some 1)] [] None.
Definition PongMsg : Message.t :=
  Message.mk "" "Pong" ""
    [plainField "ping" "ping" MESSAGE_TYPE (Some 0);
     plainField "again" "again" MESSAGE_TYPE (Some 1)] [] None.
Definition pingPongStore : store := [PingMsg; PongMsg].

End convert.

(** *** Cycle safety of the exporter *)

Module convert_facts.
Import api jsonschema convert.
Local Open Scope nat_scope.

(** The reference under which a message ID is known when [rootID] is the
    ID of the root message. *)
Definition ref_for (rootID id : string) : string :=
  if decide (id = rootID) then "#" else "#/definitions/" +:+ id.

(** The IDs of the store that have no reference yet: what is left to visit. *)
Definition unvisited (h : store) (w : schemaWalker) : nat :=
  size ((list_to_set (Message.ID <$> h) : gset string) ∖ dom (refMap w)).

(** The invariant of the walker during [ToJSONSchema] of a root with ID
    [rootID]. *)
Record walker_ok (rootID : string) (w : schemaWalker) : Prop := mkOk {
  ok_root : refMap w !! rootID = Some "#";
  ok_refs : ∀ id r, refMap w !! id = Some r → r = ref_for rootID id;
  ok_defs : dom (defs w) ⊆ dom (refMap w);
  ok_root_nodef : rootID ∉ dom (defs w)
}.

(** What a completed call leaves of the walker it started from: nothing
    recorded is changed, and the messages referenced but not yet defined
    are the same. *)
Record extends (w w' : schemaWalker) : Prop := mkExt {
  ext_refs : refMap w ⊆ refMap w';
  ext_defs : defs w ⊆ defs w';
  ext_pending : dom (refMap w') ∖ dom (defs w') = dom (refMap w) ∖ dom (defs w)
}.

Lemma extends_refl w : extends w w.
Proof. by split. Qed.

Lemma extends_trans w1 w2 w3 : extends w1 w2 → extends w2 w3 → extends w1 w3.
Proof.
  intros [] []; split; [by etrans..|congruence].
Qed.

Lemma unvisited_mono h w w' : refMap w ⊆ refMap w' → unvisited h w' ≤ unvisited h w.
Proof.
  intros Hsub. apply subseteq_size.
  apply subseteq_dom in Hsub. set_solver.
Qed.

Lemma unvisited_fresh h w msg r :
  msg ∈ h → refMap w !! Message.ID msg = None →
  unvisited h (mkWalker (defs w) (<[Message.ID msg := r]> (refMap w))) < unvisited h w.
Proof.
  intros Hin Hnone. apply subset_size. unfold unvisited; simpl.
  rewrite dom_insert_L.
  assert (Message.ID msg ∈ (list_to_set (Message.ID <$> h) : gset string)) as Hid.
  { apply elem_of_list_to_set, list_elem_of_fmap. eauto. }
  apply not_elem_of_dom in Hnone.
  set_solver.
Qed.

Section with_root.
Variable h : store.
Variable rootID : string.

(** The specification of [getRef] that the functions around it rely on,
    for walkers with at most [n] IDs left to visit. *)
Definition rec_ok (rec : schemaWalker → option ptr → option (Schema * schemaWalker))
  (n : nat) : Prop :=
  ∀ w m, walker_ok rootID w → unvisited h w ≤ n →
    ∃ s w', rec w m = Some (s, w') ∧ walker_ok rootID w' ∧ extends w w' ∧
      match deref h m with
      | None => s = empty ∧ w' = w
      | Some msg =>
          s = withRef empty (ref_for rootID (Message.ID msg)) ∧
          (Message.ID msg ∈ dom (refMap w) → w' = w) ∧
          (Message.ID msg ∉ dom (refMap w) →
             (Message.ID msg ∉ dom (defs w)) ∧ Message.ID msg ∈ dom (defs w'))
      end.

(** What [buildFieldType], [buildField] and [buildObject] guarantee. *)
Definition step_ok (r : option (Schema * schemaWalker)) (w : schemaWalker) : Prop :=
  ∃ s w', r = Some (s, w') ∧ walker_ok rootID w' ∧ extends w w'.

Lemma step_ok_here s w : walker_ok rootID w → step_ok (Some (s, w)) w.
Proof. intros Hok. exists s, w. split_and!; [done..|apply extends_refl]. Qed.

Lemma buildFieldType_ok rec n w f :
  rec_ok rec n → walker_ok rootID w → unvisited h w ≤ n →
  step_ok (buildFieldType rec w f) w.
Proof.
  intros Hrec Hok Hn. unfold buildFieldType.
  destruct (Field.Typez f); try (by apply step_ok_here).
  - destruct (Hrec w (Field.MessageType f) Hok Hn) as (s & w' & -> & ? & ? & _).
    by exists s, w'.
  - destruct (Hrec w (Field.MessageType f) Hok Hn) as (s & w' & -> & ? & ? & _).
    by exists s, w'.
  - destruct (Field.EnumType f); by apply step_ok_here.
Qed.

Lemma buildField_ok rec n w f :
  rec_ok rec n → walker_ok rootID w → unvisited h w ≤ n →
  step_ok (buildField h rec w f) w.
Proof.
  intros Hrec Hok Hn. unfold buildField.
  destruct (Field.Map f).
  - destruct (deref h (Field.MessageType f)) as [mt|]; simpl;
      [destruct (valueFieldOf (Message.Fields mt)) as [subF|]; simpl|].
    + destruct (buildFieldType_ok rec n w subF Hrec Hok Hn) as (s & w' & -> & ? & ?).
      simpl. eexists _, w'. by split_and!.
    + eexists _, w. split_and!; [done..|apply extends_refl].
    + eexists _, w. split_and!; [done..|apply extends_refl].
  - destruct (buildFieldType_ok rec n w f Hrec Hok Hn) as (s & w' & -> & ? & ?).
    simpl. destruct (Field.Repeated f); eexists _, w'; by split_and!.
Qed.

Lemma buildObject_fields_ok rec n fs : ∀ s w,
  rec_ok rec n → walker_ok rootID w → unvisited h w ≤ n →
  step_ok (buildObject_fields h rec fs s w) w.
Proof.
  induction fs as [|f fs IH]; intros s w Hrec Hok Hn; simpl.
  - by apply step_ok_here.
  - case_bool_decide; [by apply IH|].
    destruct (buildField_ok rec n w f Hrec Hok Hn) as (sf & w1 & -> & Hok1 & Hext1).
    simpl.
    match goal with |- step_ok (buildObject_fields _ _ _ ?s2 _) _ =>
      destruct (IH s2 w1 Hrec Hok1) as (s' & w2 & -> & Hok2 & Hext2) end.
    { pose proof (unvisited_mono h w w1 (ext_refs _ _ Hext1)). lia. }
    exists s', w2. split_and!; [done..|by eapply extends_trans].
Qed.

Lemma buildObject_ok rec n w msg :
  rec_ok rec n → walker_ok rootID w → unvisited h w ≤ n →
  step_ok (buildObject h rec w msg) w.
Proof. intros. by eapply buildObject_fields_ok. Qed.

(** [getRef] meets its specification as soon as the fuel covers the IDs
    left to visit. *)
Lemma getRef_ok n : rec_ok (getRef n h) n.
Proof.
  induction n as [|n IH]; intros w m Hok Hn.
  - destruct m as [p|]; simpl; [|by exists empty, w; split_and!; try apply extends_refl].
    destruct (h !! p) as [msg|] eqn:Hp;
      [|by exists empty, w; split_and!; try apply extends_refl].
    destruct (refMap w !! Message.ID msg) as [r|] eqn:Hr.
    + exists (withRef empty r), w. split_and!; try done; try apply extends_refl.
      * by rewrite (ok_refs _ _ Hok _ _ Hr).
      * intros Hnot. by apply not_elem_of_dom in Hnot; simplify_eq.
    + pose proof (unvisited_fresh h w msg "" (list_elem_of_lookup_2 _ _ _ Hp) Hr). lia.
  - destruct m as [p|]; simpl; [|by exists empty, w; split_and!; try apply extends_refl].
    destruct (h !! p) as [msg|] eqn:Hp;
      [|by exists empty, w; split_and!; try apply extends_refl].
    destruct (refMap w !! Message.ID msg) as [r|] eqn:Hr.
    + exists (withRef empty r), w. split_and!; try done; try apply extends_refl.
      * by rewrite (ok_refs _ _ Hok _ _ Hr).
      * intros Hnot. by apply not_elem_of_dom in Hnot; simplify_eq.
    + set (ref := "#/definitions/" +:+ Message.ID msg).
      set (w1 := mkWalker (defs w) (<[Message.ID msg := ref]> (refMap w))).
      assert (Message.ID msg ≠ rootID) as Hne.
      { intros Heq. rewrite Heq in Hr. rewrite (ok_root _ _ Hok) in Hr. done. }
      assert (walker_ok rootID w1) as Hok1.
      { split; simpl.
        - rewrite lookup_insert_ne; [apply Hok|done].
        - intros id r. rewrite lookup_insert. case_decide as Hid.
          + intros [= <-]. subst id. unfold ref_for. by rewrite decide_False.
          + apply Hok.
        - rewrite dom_insert_L. pose proof (ok_defs _ _ Hok). set_solver.
        - apply Hok. }
      assert (unvisited h w1 ≤ n) as Hn1.
      { pose proof (unvisited_fresh h w msg ref (list_elem_of_lookup_2 _ _ _ Hp) Hr).
        fold w1 in H. lia. }
      destruct (buildObject_ok (getRef n h) n w1 msg IH Hok1 Hn1)
        as (s & w2 & -> & Hok2 & Hext2).
      simpl.
      assert (Message.ID msg ∈ dom (refMap w2)) as Hin2.
      { apply elem_of_dom. exists ref.
        eapply lookup_weaken; [|apply Hext2]. simpl. apply lookup_insert_eq. }
      assert (Message.ID msg ∉ dom (defs w)) as Hnd.
      { intros Hd. apply (ok_defs _ _ Hok) in Hd.
        by apply not_elem_of_dom in Hr. }
      assert (Message.ID msg ∉ dom (defs w2)) as Hnd2.
      { pose proof (ext_pending _ _ Hext2) as Hp2. simpl in Hp2.
        rewrite dom_insert_L in Hp2. set_solver. }
      eexists _, _. split_and!; [done| | | | |].
      * split; simpl.
        -- apply Hok2.
        -- apply Hok2.
        -- rewrite dom_insert_L. pose proof (ok_defs _ _ Hok2). set_solver.
        -- rewrite dom_insert_L. pose proof (ok_root_nodef _ _ Hok2). set_solver.
      * split; simpl.
        -- etrans; [|apply Hext2]. simpl. by apply insert_subseteq.
        -- etrans; [apply (ext_defs _ _ Hext2)|].
           apply insert_subseteq. by apply not_elem_of_dom.
        -- pose proof (ext_pending _ _ Hext2) as Hp2. simpl in Hp2.
           rewrite dom_insert_L in Hp2. rewrite dom_insert_L.
           apply not_elem_of_dom in Hr. set_solver.
      * unfold ref_for. by rewrite decide_False.
      * intros Hin. apply elem_of_dom in Hin as [? ?]. congruence.
      * intros _. split; [done|]. simpl. rewrite dom_insert_L. set_solver.
Qed.

End with_root.

(** More fuel never changes the result of a walk that returned. *)
Section fuel.
Variable h : store.
Variables rec1 rec2 : schemaWalker → option ptr → option (Schema * schemaWalker).
Hypothesis Hrec : ∀ w m r, rec1 w m = Some r → rec2 w m = Some r.

Lemma buildFieldType_mono w f r :
  buildFieldType rec1 w f = Some r → buildFieldType rec2 w f = Some r.
Proof. unfold buildFieldType. destruct (Field.Typez f); auto. Qed.

Lemma buildField_mono w f r :
  buildField h rec1 w f = Some r → buildField h rec2 w f = Some r.
Proof.
  unfold buildField. destruct (Field.Map f).
  - destruct (deref h (Field.MessageType f)) as [mt|]; [|done].
    destruct (valueFieldOf (Message.Fields mt)) as [subF|]; [|done].
    destruct (buildFieldType rec1 w subF) as [[vs w']|] eqn:E; [|done].
    by rewrite (buildFieldType_mono _ _ _ E).
  - destruct (buildFieldType rec1 w f) as [[vs w']|] eqn:E; [|done].
    by rewrite (buildFieldType_mono _ _ _ E).
Qed.

Lemma buildObject_fields_mono fs : ∀ s w r,
  buildObject_fields h rec1 fs s w = Some r →
  buildObject_fields h rec2 fs s w = Some r.
Proof.
  induction fs as [|f fs IH]; intros s w r; simpl; [done|].
  case_bool_decide; [apply IH|].
  destruct (buildField h rec1 w f) as [[sf w']|] eqn:E; [|done].
  rewrite (buildField_mono _ _ _ E). simpl. apply IH.
Qed.
End fuel.

Lemma getRef_S n h w m :
  getRef (S n) h w m =
  match deref h m with
  | None => Some (empty, w)
  | Some msg =>
      match refMap w !! Message.ID msg with
      | Some ref => Some (withRef empty ref, w)
      | None =>
          let ref := "#/definitions/" +:+ Message.ID msg in
          let w1 := mkWalker (defs w) (<[Message.ID msg := ref]> (refMap w)) in
          '(s, w2) ← buildObject h (getRef n h) w1 msg;
          Some (withRef empty ref,
                mkWalker (<[Message.ID msg := s]> (defs w2)) (refMap w2))
      end
  end.
Proof. reflexivity. Qed.

Lemma getRef_fuel_S h n : ∀ w m r,
  getRef n h w m = Some r → getRef (S n) h w m = Some r.
Proof.
  induction n as [|n IH]; intros w m r.
  - rewrite getRef_S. simpl. destruct (deref h m) as [msg|]; [|done].
    by destruct (refMap w !! Message.ID msg).
  - rewrite !getRef_S.
    destruct (deref h m) as [msg|]; [|done].
    destruct (refMap w !! Message.ID msg); [done|]. cbv zeta.
    destruct (buildObject h (getRef n h) _ msg) as [[s w2]|] eqn:E; [|done].
    apply (buildObject_fields_mono h (getRef n h) (getRef (S n) h) IH) in E.
    unfold buildObject at 1. by rewrite E.
Qed.

Lemma getRef_fuel_le h n n' w m r :
  n ≤ n' → getRef n h w m = Some r → getRef n' h w m = Some r.
Proof. induction 1; [done|]. intros. by apply getRef_fuel_S, IHle. Qed.

Lemma size_list_to_set_le (l : list string) :
  size (list_to_set l : gset string) ≤ length l.
Proof.
  induction l as [|x l IH]; simpl; [done|].
  rewrite size_union_alt, size_singleton.
  assert (size ((list_to_set l : gset string) ∖ {[x]}) ≤ size (list_to_set l : gset string))
    by (apply subseteq_size; set_solver).
  lia.
Qed.

Lemma unvisited_le_length h w : unvisited h w ≤ length h.
Proof.
  unfold unvisited.
  etrans; [apply subseteq_size; apply subseteq_difference_l; reflexivity|].
  etrans; [apply size_list_to_set_le|]. by rewrite length_fmap.
Qed.

(** The walker [ToJSONSchema] starts with. *)
Lemma walker_ok_init rootID :
  walker_ok rootID (mkWalker ∅ (<[rootID := "#"]> ∅)).
Proof.
  split; simpl.
  - apply lookup_insert_eq.
  - intros id r. rewrite lookup_insert. case_decide; [|by rewrite lookup_empty].
    intros [= <-]. subst. unfold ref_for. by rewrite decide_True.
  - set_solver.
  - set_solver.
Qed.

(** *** The references of the schema that is returned *)

(** The fields [buildObject] gives a property to: those that are not
    output-only. *)
Definition walked (fs : list Field.t) : list Field.t :=
  List.filter (λ f, negb (bool_decide (FIELD_BEHAVIOR_OUTPUT_ONLY ∈ Field.Behavior f))) fs.

Lemma walked_cons f fs :
  walked (f :: fs)
  = if bool_decide (FIELD_BEHAVIOR_OUTPUT_ONLY ∈ Field.Behavior f)
    then walked fs else f :: walked fs.
Proof. unfold walked. simpl. by destruct (bool_decide _). Qed.

(** The field whose type [buildField] renders: the first field named
    "value" of the entry message for a map field, the field itself
    otherwise. *)
Definition typedField (h : store) (f : Field.t) : option Field.t :=
  if Field.Map f then
    match deref h (Field.MessageType f) with
    | Some mt => valueFieldOf (Message.Fields mt)
    | None => None
    end
  else Some f.

(** The message [buildFieldType] passes to [getRef], when there is one. *)
Definition referenced (h : store) (g : Field.t) : option Message.t :=
  match Field.Typez g with
  | MESSAGE_TYPE | GROUP_TYPE => deref h (Field.MessageType g)
  | _ => None
  end.

(** Where the schema of the type sits in the schema of a field: under
    [AdditionalProperties] for a map, under [Items] for a repeated field,
    and the schema itself otherwise. *)
Definition carried (f : Field.t) (s : Schema) : option Schema :=
  if Field.Map f then AdditionalProperties s
  else if Field.Repeated f then Items s
  else Some s.

(** A schema with the documentation of a field as its description, when
    the field has one. *)
Definition described (g : Field.t) (s : Schema) : Schema :=
  if bool_decide (Field.Documentation g ≠ "")
  then withDescription s (Field.Documentation g) else s.

Section links.
Variable h : store.
Variable rootID : string.

(** The schema [s] of the field [f] links the message of its type: it
    carries a schema that is just the reference of that message (with the
    documentation of the field), and the ID of the message is one of
    [known]. *)
Definition fieldLinked (known : gset string) (f : Field.t) (s : Schema) : Prop :=
  ∀ g m', typedField h f = Some g → referenced h g = Some m' →
    carried f s = Some (described g (withRef empty (ref_for rootID (Message.ID m')))) ∧
    Message.ID m' ∈ known.

(** The object schema [obj] links the messages of [m]: it is of type
    "object" and every field that is not output-only has, under its JSON
    name, a property that links the message of its type.  When several
    fields share a JSON name the property is that of the last one. *)
Definition linked (known : gset string) (m : Message.t) (obj : Schema) : Prop :=
  Type_ obj = "object" ∧
  ∀ fs1 f fs2, walked (Message.Fields m) = (fs1 ++ f :: fs2)%list →
    (∀ g, g ∈ fs2 → Field.JSONName g ≠ Field.JSONName f) →
    ∃ s, Properties obj !! Field.JSONName f = Some s ∧ fieldLinked known f s.

(** Every definition of the walker is stored under the ID of a message of
    the store and links the messages of that message, to IDs the walker
    has a reference for. *)
Definition defs_linked (w : schemaWalker) : Prop :=
  ∀ id s, defs w !! id = Some s →
    ∃ q m, h !! q = Some m ∧ Message.ID m = id ∧ linked (dom (refMap w)) m s.

(** A call of [getRef] that returns keeps the definitions linked. *)
Definition rec_links (rec : schemaWalker → option ptr → option (Schema * schemaWalker))
  (n : nat) : Prop :=
  ∀ w m s w', walker_ok rootID w → unvisited h w ≤ n → defs_linked w →
    rec w m = Some (s, w') → defs_linked w'.

Lemma fieldLinked_known known known' f s :
  known ⊆ known' → fieldLinked known f s → fieldLinked known' f s.
Proof.
  intros Hsub Hf g m' Hg Hm'. destruct (Hf g m' Hg Hm') as [Hc Hin].
  split; [done|]. by apply Hsub.
Qed.

Lemma linked_known known known' m obj :
  known ⊆ known' → linked known m obj → linked known' m obj.
Proof.
  intros Hsub [Hty Hfs]. split; [done|].
  intros fs1 f fs2 Heq Hlast. destruct (Hfs fs1 f fs2 Heq Hlast) as (s & Hs & Hf).
  exists s. split; [done|]. by eapply fieldLinked_known.
Qed.

Lemma defs_linked_known w w' :
  defs w' = defs w → dom (refMap w) ⊆ dom (refMap w') →
  defs_linked w → defs_linked w'.
Proof.
  intros Hdefs Hsub Hw id s. rewrite Hdefs. intros Hs.
  destruct (Hw id s Hs) as (q & m & Hq & Hid & Hl).
  exists q, m. split_and!; [done..|]. by eapply linked_known.
Qed.

(** The walker of a first encounter, once the reference is recorded. *)
Lemma first_encounter_ok w msg :
  walker_ok rootID w → msg ∈ h → refMap w !! Message.ID msg = None →
  walker_ok rootID
    (mkWalker (defs w) (<[Message.ID msg := "#/definitions/" +:+ Message.ID msg]> (refMap w)))
  ∧ unvisited h
      (mkWalker (defs w) (<[Message.ID msg := "#/definitions/" +:+ Message.ID msg]> (refMap w)))
    < unvisited h w.
Proof.
  intros Hok Hin Hr. split; [|by apply unvisited_fresh].
  assert (Message.ID msg ≠ rootID) as Hne.
  { intros Heq. rewrite Heq in Hr. rewrite (ok_root _ _ Hok) in Hr. done. }
  split; simpl.
  - rewrite lookup_insert_ne; [apply Hok|done].
  - intros id r. rewrite lookup_insert. case_decide as Hid.
    + intros [= <-]. subst id. unfold ref_for. by rewrite decide_False.
    + apply Hok.
  - rewrite dom_insert_L. pose proof (ok_defs _ _ Hok). set_solver.
  - apply Hok.
Qed.

Lemma buildFieldType_links rec n w f s w' :
  rec_ok h rootID rec n → rec_links rec n →
  walker_ok rootID w → unvisited h w ≤ n → defs_linked w →
  buildFieldType rec w f = Some (s, w') →
  defs_linked w' ∧
  ∀ m', referenced h f = Some m' →
    s = withRef empty (ref_for rootID (Message.ID m')) ∧
    Message.ID m' ∈ dom (refMap w').
Proof.
  intros Hrec Hkeep Hok Hn Hdl. unfold buildFieldType, referenced.
  assert (rec w (Field.MessageType f) = Some (s, w') →
          defs_linked w' ∧
          ∀ m', deref h (Field.MessageType f) = Some m' →
            s = withRef empty (ref_for rootID (Message.ID m')) ∧
            Message.ID m' ∈ dom (refMap w')) as Hmsg.
  { intros Hrun.
    destruct (Hrec w (Field.MessageType f) Hok Hn) as (s0 & w0 & Hrun0 & Hok0 & Hext0 & Hres).
    rewrite Hrun in Hrun0. injection Hrun0 as <- <-.
    split; [exact (Hkeep w _ s w' Hok Hn Hdl Hrun)|].
    intros m' Hm'. rewrite Hm' in Hres. destruct Hres as (-> & Hsame & Hfresh).
    split; [done|].
    destruct (decide (Message.ID m' ∈ dom (refMap w))) as [Hin|Hnin].
    - by rewrite (Hsame Hin).
    - apply (ok_defs _ _ Hok0). by apply Hfresh. }
  destruct (Field.Typez f); try exact Hmsg;
    try destruct (Field.EnumType f); by intros [= <- <-].
Qed.

Lemma buildField_links rec n w f s w' :
  rec_ok h rootID rec n → rec_links rec n →
  walker_ok rootID w → unvisited h w ≤ n → defs_linked w →
  buildField h rec w f = Some (s, w') →
  defs_linked w' ∧ fieldLinked (dom (refMap w')) f s.
Proof.
  intros Hrec Hkeep Hok Hn Hdl. unfold buildField, fieldLinked, typedField, carried.
  destruct (Field.Map f).
  - destruct (deref h (Field.MessageType f)) as [mt|]; simpl.
    + destruct (valueFieldOf (Message.Fields mt)) as [subF|]; simpl.
      * destruct (buildFieldType rec w subF) as [[vs w1]|] eqn:E; simpl; [|done].
        intros [= <- <-].
        destruct (buildFieldType_links _ _ _ _ _ _ Hrec Hkeep Hok Hn Hdl E) as [Hdl1 Hres].
        split; [done|]. intros g m' [= <-] Hm'. destruct (Hres _ Hm') as [-> Hin].
        by split.
      * intros [= <- <-]. split; [done|]. by intros g m' [=].
    + intros [= <- <-]. split; [done|]. by intros g m' [=].
  - destruct (buildFieldType rec w f) as [[s0 w1]|] eqn:E; simpl; [|done].
    destruct (buildFieldType_links _ _ _ _ _ _ Hrec Hkeep Hok Hn Hdl E) as [Hdl1 Hres].
    destruct (Field.Repeated f); intros [= <- <-]; (split; [done|]);
      intros g m' [= <-] Hm'; destruct (Hres _ Hm') as [-> Hin]; by split.
Qed.

Lemma buildObject_fields_links rec n fs : ∀ s w obj w',
  rec_ok h rootID rec n → rec_links rec n →
  walker_ok rootID w → unvisited h w ≤ n → defs_linked w →
  buildObject_fields h rec fs s w = Some (obj, w') →
  defs_linked w' ∧ Type_ obj = Type_ s ∧
  (∀ k, (∀ g, g ∈ walked fs → Field.JSONName g ≠ k) →
        Properties obj !! k = Properties s !! k) ∧
  (∀ fs1 f fs2, walked fs = (fs1 ++ f :: fs2)%list →
     (∀ g, g ∈ fs2 → Field.JSONName g ≠ Field.JSONName f) →
     ∃ sf, Properties obj !! Field.JSONName f = Some sf ∧
           fieldLinked (dom (refMap w')) f sf).
Proof.
  induction fs as [|f fs IH]; intros s w obj w' Hrec Hkeep Hok Hn Hdl.
  - simpl. intros [= <- <-]. split_and!; [done..|].
    intros fs1 f fs2 Heq. by destruct fs1.
  - rewrite walked_cons. simpl. case_bool_decide as Hout.
    + by apply IH.
    + destruct (buildField h rec w f) as [[sf w1]|] eqn:Ef; simpl; [|done].
      intros Hrun.
      destruct (buildField_ok h rootID rec n w f Hrec Hok Hn)
        as (sf' & w1' & Ef' & Hok1 & Hext1).
      rewrite Ef in Ef'. injection Ef' as <- <-.
      destruct (buildField_links _ _ _ _ _ _ Hrec Hkeep Hok Hn Hdl Ef) as [Hdl1 Hf].
      assert (unvisited h w1 ≤ n) as Hn1.
      { pose proof (unvisited_mono h w w1 (ext_refs _ _ Hext1)). lia. }
      match type of Hrun with
      | buildObject_fields _ _ _ ?s2 _ = _ =>
          destruct (buildObject_fields_ok h rootID rec n fs s2 w1 Hrec Hok1 Hn1)
            as (o' & w2 & Hrun' & Hok2 & Hext2)
      end.
      rewrite Hrun in Hrun'. injection Hrun' as <- <-.
      destruct (IH _ _ _ _ Hrec Hkeep Hok1 Hn1 Hdl1 Hrun) as (Hdl2 & Hty & Hkeys & Hfields).
      split_and!.
      * done.
      * rewrite Hty. by destruct (Field.DocumentAsRequired f).
      * intros k Hk. rewrite Hkeys.
        2: { intros g Hg. apply Hk. by apply list_elem_of_further. }
        assert (Field.JSONName f ≠ k) as Hne by (apply Hk; apply list_elem_of_here).
        destruct (Field.DocumentAsRequired f); simpl; by rewrite lookup_insert_ne.
      * intros fs1 f0 fs2 Heq Hlast. destruct fs1 as [|f1 fs1]; simpl in Heq.
        -- injection Heq as <- <-. exists sf. split.
           ++ rewrite Hkeys by exact Hlast.
              destruct (Field.DocumentAsRequired f); simpl; apply lookup_insert_eq.
           ++ eapply fieldLinked_known; [|exact Hf].
              apply subseteq_dom, Hext2.
        -- injection Heq as <- Heq. exact (Hfields fs1 f0 fs2 Heq Hlast).
Qed.

Lemma buildObject_links rec n w msg obj w' :
  rec_ok h rootID rec n → rec_links rec n →
  walker_ok rootID w → unvisited h w ≤ n → defs_linked w →
  buildObject h rec w msg = Some (obj, w') →
  defs_linked w' ∧ linked (dom (refMap w')) msg obj.
Proof.
  intros Hrec Hkeep Hok Hn Hdl Hrun. unfold buildObject in Hrun.
  destruct (buildObject_fields_links _ _ _ _ _ _ _ Hrec Hkeep Hok Hn Hdl Hrun)
    as (Hdl' & Hty & _ & Hfields).
  split; [done|]. split; [|done].
  rewrite Hty. by case_bool_decide.
Qed.

Lemma getRef_links n : rec_links (getRef n h) n.
Proof.
  induction n as [|n IH]; intros w m s w' Hok Hn Hdl.
  - simpl. destruct (deref h m) as [msg|]; [|by intros [= <- <-]].
    destruct (refMap w !! Message.ID msg); [by intros [= <- <-]|done].
  - rewrite getRef_S. destruct m as [q|]; simpl; [|by intros [= <- <-]].
    destruct (h !! q) as [msg|] eqn:Hq; [|by intros [= <- <-]].
    destruct (refMap w !! Message.ID msg) eqn:Hr; [by intros [= <- <-]|].
    destruct (first_encounter_ok w msg Hok (list_elem_of_lookup_2 _ _ _ Hq) Hr)
      as [Hok1 Hn1].
    destruct (buildObject h (getRef n h) _ msg) as [[o w2]|] eqn:Hobj; [|done].
    simpl. intros [= <- <-].
    destruct (buildObject_links (getRef n h) n _ msg o w2 (getRef_ok h rootID n) IH Hok1)
      as [Hdl2 Hl]; [lia| |exact Hobj|].
    { eapply defs_linked_known; [| |exact Hdl]; [done|].
      simpl. rewrite dom_insert_L. set_solver. }
    intros id s'. simpl. rewrite lookup_insert. case_decide as Hid.
    + intros [= <-]. exists q, msg. by split_and!.
    + apply Hdl2.
Qed.

End links.

(** C1.  [ToJSONSchema] returns on every message store, cyclic or not: a
    fuel of the size of the store is enough, and more fuel gives the same
    schema.  The root message is referenced as "#" and has no entry in the
    definitions table; every other message met has its reference
    "#/definitions/<ID>" and exactly its entry in the table.  Inside the
    walk, [getRef] on a message returns the reference of its ID; on a first
    encounter the ID had no definition and has one afterwards, every
    definition recorded before is kept as it was, and on a later encounter
    (a self-reference, a reference to an ancestor) the walker is left
    untouched, so that a field typed with the root message gets "#".

    The schema that is returned holds these references.  It is an object
    in which every field of the root message that is not output-only has a
    property under its JSON name; when the type of the field (of the
    "value" field of its entry message, for a map) is a message of the
    store, that property carries (itself, as [Items] or as
    [AdditionalProperties]) exactly the reference of the message, with the
    documentation of the field if any: "#" when the message has the ID of
    the root, "#/definitions/<ID>" otherwise, and in that case the
    definitions table has an entry under this ID.  Every entry of the table
    is stored under the ID of a message of the store other than the root's,
    and is an object that holds the references of that message in the same
    way.  In particular a singular field of the root typed with the root
    message has the property [{Ref: "#"}]. *)
Theorem ToJSONSchema_cycle_safe (h : store) (p : ptr) (msg : Message.t) :
  h !! p = Some msg →
  ∃ root w,
    (∀ fuel, length h ≤ fuel → walkRoot fuel h (Some p) = Some (root, w)) ∧
    (∀ fuel, length h ≤ fuel →
       ToJSONSchema fuel h (Some p) = Some root) ∧
    Definitions root = defs w ∧
    refMap w !! Message.ID msg = Some "#" ∧
    (Message.ID msg ∉ dom (Definitions root)) ∧
    dom (refMap w) = {[Message.ID msg]} ∪ dom (Definitions root) ∧
    (∀ id, id ∈ dom (Definitions root) →
       refMap w !! id = Some ("#/definitions/" +:+ id)) ∧
    (∀ n w0 q m',
       walker_ok (Message.ID msg) w0 → unvisited h w0 ≤ n → h !! q = Some m' →
       ∃ w1,
         getRef n h w0 (Some q)
           = Some (withRef empty (ref_for (Message.ID msg) (Message.ID m')), w1) ∧
         walker_ok (Message.ID msg) w1 ∧
         refMap w0 ⊆ refMap w1 ∧ defs w0 ⊆ defs w1 ∧
         (Message.ID m' ∈ dom (refMap w0) → w1 = w0) ∧
         (Message.ID m' ∉ dom (refMap w0) →
            (Message.ID m' ∉ dom (defs w0)) ∧ Message.ID m' ∈ dom (defs w1))) ∧
    (∀ n w0 f q m',
       walker_ok (Message.ID msg) w0 →
       Field.Typez f = MESSAGE_TYPE ∨ Field.Typez f = GROUP_TYPE →
       Field.MessageType f = Some q →
       h !! q = Some m' → Message.ID m' = Message.ID msg →
       buildFieldType (getRef n h) w0 f = Some (withRef empty "#", w0)) ∧
    linked h (Message.ID msg) ({[Message.ID msg]} ∪ dom (Definitions root)) msg root ∧
    (∀ id s, Definitions root !! id = Some s →
       id ≠ Message.ID msg ∧
       ∃ q m, h !! q = Some m ∧ Message.ID m = id ∧
         linked h (Message.ID msg) ({[Message.ID msg]} ∪ dom (Definitions root)) m s) ∧
    (∀ fs1 f fs2 q m',
       walked (Message.Fields msg) = (fs1 ++ f :: fs2)%list →
       (∀ g, g ∈ fs2 → Field.JSONName g ≠ Field.JSONName f) →
       Field.Map f = false → Field.Repeated f = false →
       Field.Typez f = MESSAGE_TYPE ∨ Field.Typez f = GROUP_TYPE →
       Field.MessageType f = Some q → h !! q = Some m' →
       Properties root !! Field.JSONName f
       = Some (described f (withRef empty
                 (if decide (Message.ID m' = Message.ID msg) then "#"
                  else "#/definitions/" +:+ Message.ID m'))) ∧
       (Message.ID m' ≠ Message.ID msg → Message.ID m' ∈ dom (Definitions root))).
Proof.
  intros Hp. set (rootID := Message.ID msg).
  set (w0 := mkWalker ∅ (<[rootID := "#"]> ∅)).
  pose proof (walker_ok_init rootID) as Hok0. fold w0 in Hok0.
  destruct (buildObject_ok h rootID (getRef (length h) h) (length h) w0 msg
              (getRef_ok h rootID (length h)) Hok0 (unvisited_le_length h w0))
    as (root & w & Hrun & Hok & Hext).
  assert (∀ fuel, length h ≤ fuel →
            walkRoot fuel h (Some p) = Some (withDefinitions root (defs w), w)) as Hwalk.
  { intros fuel Hle. unfold walkRoot. simpl. rewrite Hp. fold rootID w0.
    unfold buildObject in Hrun |- *.
    rewrite (buildObject_fields_mono h (getRef (length h) h) (getRef fuel h)
               (λ w m r, getRef_fuel_le h _ _ w m r Hle) _ _ _ _ Hrun).
    done. }
  pose proof (ext_pending _ _ Hext) as Hpend. simpl in Hpend.
  rewrite dom_insert_L, !dom_empty_L in Hpend.
  pose proof (ok_defs _ _ Hok) as Hdefs.
  pose proof (ok_root_nodef _ _ Hok) as Hnodef.
  assert (dom (refMap w) = {[rootID]} ∪ dom (defs w)) as Hdom.
  { apply set_eq. intros id. split.
    + intros Hid. destruct (decide (id ∈ dom (defs w))); [set_solver|].
      assert (id ∈ dom (refMap w) ∖ dom (defs w)) as Hin by set_solver.
      rewrite Hpend in Hin. set_solver.
    + intros [Hid|Hid]%elem_of_union; [|by apply Hdefs].
      apply elem_of_singleton in Hid as ->. apply elem_of_dom.
      rewrite (ok_root _ _ Hok). done. }
  destruct (buildObject_links h rootID (getRef (length h) h) (length h) w0 msg root w
              (getRef_ok h rootID (length h)) (getRef_links h rootID (length h))
              Hok0 (unvisited_le_length h w0))
    as [Hdl Hl]; [|exact Hrun|].
  { intros id s. simpl. by rewrite lookup_empty. }
  rewrite Hdom in Hl.
  exists (withDefinitions root (defs w)), w. split_and!.
  - done.
  - intros fuel Hle. unfold ToJSONSchema. by rewrite (Hwalk fuel Hle).
  - done.
  - apply Hok.
  - done.
  - exact Hdom.
  - simpl. intros id Hid.
    assert (id ≠ rootID) as Hne by (intros Heq; apply Hnodef; by rewrite <- Heq).
    pose proof (Hdefs _ Hid) as [r Hr]%elem_of_dom.
    rewrite Hr. rewrite (ok_refs _ _ Hok _ _ Hr). unfold ref_for.
    by rewrite decide_False.
  - intros n w1 q m' Hok1 Hn Hq.
    destruct (getRef_ok h rootID n w1 (Some q) Hok1 Hn)
      as (s & w2 & Hg & Hok2 & Hext2 & Hres).
    simpl in Hres. rewrite Hq in Hres. destruct Hres as (-> & Hsame & Hfresh).
    exists w2. split_and!.
    + exact Hg.
    + exact Hok2.
    + apply Hext2.
    + apply Hext2.
    + exact Hsame.
    + exact Hfresh.
  - intros n w1 f q m' Hok1 Hty Hmt Hq Hid.
    unfold buildFieldType. destruct Hty as [-> | ->]; rewrite Hmt;
      destruct n; simpl; rewrite Hq, Hid; fold rootID;
      by rewrite (ok_root _ _ Hok1).
  - exact Hl.
  - simpl. intros id s Hs. split.
    + intros ->. apply Hnodef. apply elem_of_dom. by eexists.
    + destruct (Hdl id s Hs) as (q & m & Hq & Hid & Hm).
      exists q, m. split_and!; [done..|]. by rewrite Hdom in Hm.
  - simpl. intros fs1 f fs2 q m' Heq Hlast Hmap Hrep Hty Hmt Hq.
    destruct Hl as [_ Hfs]. destruct (Hfs fs1 f fs2 Heq Hlast) as (s & Hs & Hf).
    destruct (Hf f m') as [Hc Hin].
    { unfold typedField. by rewrite Hmap. }
    { unfold referenced. destruct Hty as [-> | ->]; by rewrite Hmt. }
    unfold carried in Hc. rewrite Hmap, Hrep in Hc. injection Hc as ->.
    split; [done|].
    intros Hne. apply elem_of_union in Hin as [Hin|Hin]; [|done].
    by apply elem_of_singleton in Hin.
Qed.

(** The theorem at the self-referencing message of the tests: the schema
    is returned, and its property "self" is the reference "#". *)
Lemma ToJSONSchema_cycle_safe_witness :
  recursiveStore !! 0 = Some RecursiveMsg ∧
  ∃ root,
    (∀ fuel, length recursiveStore ≤ fuel →
       ToJSONSchema fuel recursiveStore (Some 0) = Some root) ∧
    Properties root !! "self" = Some (withRef empty "#") ∧
    Definitions root = ∅.
Proof.
  split; [reflexivity|].
  destruct (ToJSONSchema_cycle_safe recursiveStore 0 RecursiveMsg eq_refl)
    as (root & w & _ & Hroot & _ & _ & _ & _ & _ & _ & _ & _ & _ & Hself).
  exists root. split_and!.
  - exact Hroot.
  - exact (proj1 (Hself [] (plainField "self" "self" MESSAGE_TYPE (Some 0)) [] 0 RecursiveMsg
                    eq_refl (λ g Hg, False_ind _ (not_elem_of_nil g Hg))
                    eq_refl eq_refl (or_introl eq_refl) eq_refl eq_refl)).
  - assert (Some root = Some (withProperties (withType empty "object")
                                {["self" := withRef empty "#"]})) as Heq.
    { rewrite <- (Hroot 1 (le_n 1)). vm_compute. reflexivity. }
    by injection Heq as ->.
Defined.

(** The expectations of [TestToJSONSchema] for the recursive and the nested
    message. *)
Example ToJSONSchema_RecursiveMessage :
  ToJSONSchema 1 recursiveStore (Some 0)
  = Some (withProperties (withType empty "object") {["self" := withRef empty "#"]}).
Proof. vm_compute. reflexivity. Qed.

Example ToJSONSchema_NestedMessage :
  ToJSONSchema 2 nestedStore (Some 0)
  = Some (withDefinitions
            (withProperties (withType empty "object")
               {["child" := withRef empty "#/definitions/ChildMsg"]})
            {["ChildMsg" := withProperties (withType empty "object")
                              {["childVal" := withType empty "string"]}]}).
Proof. vm_compute. reflexivity. Qed.

Example ToJSONSchema_PingPong :
  ToJSONSchema 2 pingPongStore (Some 0)
  = Some (withDefinitions
            (withProperties (withType empty "object")
               {["pong" := withRef empty "#/definitions/Pong"]})
            {["Pong" := withProperties (withType empty "object")
                          {["ping" := withRef empty "#";
                            "again" := withRef empty "#/definitions/Pong"]}]}).
Proof. vm_compute. reflexivity. Qed.

End convert_facts.

(** ** The functions of Go's [strings] package the sources call *)

Module gostrings.

(** The line feed and the double quote. *)
Definition nl : string := String (ascii_of_nat 10) "".
Definition dq : string := String (ascii_of_nat 34) "".

(** [strings.Split(s, sep)] for a separator of one byte: never empty, the
    empty string splits into one empty part. *)
Fixpoint Split (s : string) (sep : ascii) : list string :=
  match s with
  | EmptyString => [""]
  | String c s' =>
      if bool_decide (c = sep) then "" :: Split s' sep
      else match Split s' sep with
           | p :: ps => String c p :: ps
           | [] => [String c ""]
           end
  end.

(** [strings.Join]. *)
Definition Join (elems : list string) (sep : string) : string :=
  String.concat sep elems.

(** [strings.HasSuffix] and [strings.TrimSuffix]. *)
Definition HasSuffix (s suffix : string) : bool :=
  bool_decide (String.length suffix ≤ String.length s)%nat &&
  bool_decide (String.substring (String.length s - String.length suffix)
                                (String.length suffix) s = suffix).

Definition TrimSuffix (s suffix : string) : string :=
  if HasSuffix s suffix
  then String.substring 0 (String.length s - String.length suffix) s
  else s.

(** [strings.HasPrefix] and [strings.TrimPrefix]. *)
Definition TrimPrefix (s prefix : string) : string :=
  if String.prefix prefix s
  then String.substring (String.length prefix)
                        (String.length s - String.length prefix) s
  else s.

(** [strings.ReplaceAll(s, old, "")] for an [old] of one byte. *)
Fixpoint RemoveAll (s : string) (old : ascii) : string :=
  match s with
  | EmptyString => ""
  | String c s' =>
      if bool_decide (c = old) then RemoveAll s' old else String c (RemoveAll s' old)
  end.

(** [strings.ToLower] on ASCII text: the letters A to Z are mapped, every
    other byte is kept. *)
Definition lowerByte (c : ascii) : ascii :=
  let n := nat_of_ascii c in
  if bool_decide (65 ≤ n ∧ n ≤ 90)%nat then ascii_of_nat (n + 32) else c.

Fixpoint asciiToLower (s : string) : string :=
  match s with
  | EmptyString => ""
  | String c s' => String (lowerByte c) (asciiToLower s')
  end.

Definition upperByte (c : ascii) : ascii :=
  let n := nat_of_ascii c in
  if bool_decide (97 ≤ n ∧ n ≤ 122)%nat then ascii_of_nat (n - 32) else c.

Fixpoint asciiToUpper (s : string) : string :=
  match s with
  | EmptyString => ""
  | String c s' => String (upperByte c) (asciiToUpper s')
  end.

Example Split_resource : Split "projects/p1/locations/l1" "/" = ["projects"; "p1"; "locations"; "l1"].
Proof. reflexivity. Qed.
Example Split_empty : Split "" "/" = [""].
Proof. reflexivity. Qed.
Example TrimSuffix_projects : TrimSuffix "projects" "s" = "project".
Proof. reflexivity. Qed.
Example TrimSuffix_once : TrimSuffix "grass" "s" = "gras".
Proof. reflexivity. Qed.
Example TrimSuffix_none : TrimSuffix "parent" "s" = "parent".
Proof. reflexivity. Qed.

End gostrings.

(** ** The request document as [gjson] reads it *)

Module gjson.

(** A JSON value of the request document.  An array or an object carries
    the text it was read from ([Result.Raw]); a number carries the text
    [Result.String] renders it as. *)
Inductive JSON :=
  | JNull
  | JFalse
  | JTrue
  | JNumber (text : string)
  | JString (str : string)
  | JArray (raw : string) (items : list JSON)
  | JObject (raw : string) (members : list (string * JSON)).

(** [gjson.Result]: a value of the document, or nothing when the path
    leads nowhere. *)
Definition Result := option JSON.

Definition Exists (r : Result) : bool := bool_decide (is_Some r).

Definition IsArray (r : Result) : bool :=
  match r with Some (JArray _ _) => true | _ => false end.

Definition IsObject (r : Result) : bool :=
  match r with Some (JObject _ _) => true | _ => false end.

(** [Result.String]. *)
Definition String_ (r : Result) : string :=
  match r with
  | None | Some JNull => ""
  | Some JFalse => "false"
  | Some JTrue => "true"
  | Some (JNumber text) => text
  | Some (JString str) => str
  | Some (JArray raw _) | Some (JObject raw _) => raw
  end.

Arguments String_ : simpl never.

(** [Result.Raw] of an array or object. *)
Definition Raw (r : Result) : string := String_ r.

(** A path of plain object keys separated by dots, the only kind of path
    the mapping files and path bindings of the tests use: the first member
    of that name at every level. *)
Fixpoint lookupKeys (v : JSON) (keys : list string) : Result :=
  match keys with
  | [] => Some v
  | k :: keys' =>
      match v with
      | JObject _ members =>
          match List.find (λ kv, bool_decide (kv.1 = k)) members with
          | Some kv => lookupKeys kv.2 keys'
          | None => None
          end
      | _ => None
      end
  end.

Definition GetPlain (doc : JSON) (path : string) : Result :=
  lookupKeys doc (gostrings.Split path ".").

End gjson.

(** ** Package [gcloudcmd]: the flag mappings *)

Module gcloudcmd.

(** [FlagMapping]: a positional binding ([Pos]) or a named flag ([Flag]) of
    the request field at [FieldPath], with the literals it may resolve to. *)
Record FlagMapping := mkFlagMapping {
  Flag : string;
  Pos : option Z;
  FieldPath : string;
  Choices : list string
}.

End gcloudcmd.

(** ** Package [morph]: the gcloud emitter and the path template matcher *)

Module gcloud.
Import api gjson gostrings gcloudcmd.

Record gcloudFlag := mkFlag { Name : string; Value : string; IsLast : bool }.

Record gcloudData := mkData {
  Command : string;
  PositionalArgs : list string;
  Flags : list gcloudFlag
}.

Record gcloudMappingFile := mkMappingFile {
  mfCommand : string;
  MessageID : string;
  Properties : list FlagMapping
}.

(** [GcloudInput]; [ReqData] is the request document as gjson reads it. *)
Record GcloudInput := mkInput {
  ReqData : JSON;
  Method : option Method.t;
  OutDir : string;
  MappingFile : string
}.

#[global] Instance gcloudFlag_eq_dec : EqDecision gcloudFlag.
Proof. solve_decision. Defined.

(** What the emitter takes from outside the sources. *)
Record Externals := mkExternals {
  (** [strings.ToLower] *)
  ToLower : string → string;
  (** [gjson.Get], the path language of gjson *)
  Get : JSON → string → Result;
  (** [json.Compact]; [None] is its error *)
  Compact : string → option string;
  (** the order in which this run of [range] visits the entries of a map *)
  rangeMap : gmap string string → list (string * string);
  (** [sort.Slice] with the given [less] *)
  sortSlice : (gcloudFlag → gcloudFlag → bool) → list gcloudFlag → list gcloudFlag;
  (** [json.Unmarshal] of the mapping file; [None] is its error *)
  Unmarshal : string → option gcloudMappingFile;
  (** [mustache.Render] of the embedded template; [None] is its error *)
  Render : gcloudData → option string;
  (** [os.MkdirAll] and [os.WriteFile] succeed *)
  MkdirAll : string → bool;
  WriteFile : string → bool;
  (** [filepath.Join] *)
  filepathJoin : string → string → string
}.

(** *** [matchPath] *)

Definition isWildcard (seg : string) : bool :=
  bool_decide (seg = "*") || bool_decide (seg = "**").

(** The loop of [matchPath].  [partIdx] and [segmentIdx] advance together
    in every iteration that does not return, so the loop state is what
    remains of [parts] and of [segments], the last literal matched and the
    map of captures. *)
Fixpoint matchPath_loop (parts segments : list string) (lastLiteral : string)
  (captured : gmap string string) : option (gmap string string) :=
  match parts, segments with
  | part :: parts', seg :: segments' =>
      if isWildcard seg then
        let captured' :=
          if bool_decide (lastLiteral ≠ "")
          then <[TrimSuffix lastLiteral "s" := part]> captured
          else captured in
        matchPath_loop parts' segments' lastLiteral captured'
      else if bool_decide (part = seg) then
        matchPath_loop parts' segments' seg captured
      else None
  | _, [] => Some captured
  | [], _ :: _ => None
  end.

(** [matchPath]; [None] is the [nil] map of a failed match. *)
Definition matchPath (value : string) (segments : list string)
  : option (gmap string string) :=
  matchPath_loop (Split value "/") segments "" ∅.

Section emitter.
Variable E : Externals.

Definition normalizeChoice (s : string) : string :=
  RemoveAll (RemoveAll (ToLower E s) "-") "_".

(** *** [decomposePathParams] *)

(** The loop over the segments of one binding; [None] is [matchFailed]. *)
Fixpoint decomposeSegments (data : JSON) (segments : list PathSegment.t)
  (decomposed : gmap string string) (usedFields : gset string)
  : option (gmap string string * gset string) :=
  match segments with
  | [] => Some (decomposed, usedFields)
  | segment :: rest =>
      match PathSegment.Variable_ segment with
      | None => decomposeSegments data rest decomposed usedFields
      | Some variable =>
          match PathVariable.FieldPath variable with
          | [] => decomposeSegments data rest decomposed usedFields
          | fieldPath :: _ =>
              let usedFields := {[fieldPath]} ∪ usedFields in
              let result := Get E data fieldPath in
              if negb (Exists result) then None
              else
                match matchPath (String_ result) (PathVariable.Segments variable) with
                | None => None
                | Some values =>
                    decomposeSegments data rest (values ∪ decomposed) usedFields
                end
          end
      end
  end.

(** One candidate binding: its captures and the fields it read. *)
Definition decomposeBinding (data : JSON) (binding : PathBinding.t)
  : option (gmap string string * gset string) :=
  decomposeSegments data (PathTemplate.Segments (PathBinding.PathTemplate binding)) ∅ ∅.

(** The body of the loop over the bindings. *)
Definition preferBinding (data : JSON) (best : gmap string string * gset string)
  (binding : PathBinding.t) : gmap string string * gset string :=
  match decomposeBinding data binding with
  | None => best
  | Some (decomposed, usedFields) =>
      if bool_decide (size best.1 < size decomposed)%nat
      then (decomposed, usedFields) else best
  end.

Definition bindingsOf (m : option Method.t) : list PathBinding.t :=
  match m with
  | Some method =>
      match Method.PathInfo method with
      | Some info => PathInfo.Bindings info
      | None => []
      end
  | None => []
  end.

Definition decomposePathParams (inp : GcloudInput) (data : JSON)
  : gmap string string * gset string :=
  foldl (preferBinding data) (∅, ∅) (bindingsOf (Method inp)).

(** *** The value of a mapping *)

(** What one element of an array contributes to the joined value. *)
Definition itemText (item : JSON) : string :=
  match item with
  | JObject raw [(_, v)] => String_ (Some v)
  | _ => String_ (Some item)
  end.

Definition arrayValue (result : Result) : string :=
  match result with
  | Some (JArray raw items) =>
      let texts := itemText <$> items in
      if bool_decide (0 < length texts)%nat then Join texts "," else raw
  | _ => String_ result
  end.

(** The first declared choice equal to [s] after normalization. *)
Definition matchChoice (choices : list string) (s : string) : option string :=
  List.find (λ choice, bool_decide (normalizeChoice s = normalizeChoice choice)) choices.

(** The choice of the first key, in document order, that matches one. *)
Fixpoint matchKeys (choices : list string) (members : list (string * JSON))
  : option string :=
  match members with
  | [] => None
  | (key, _) :: rest =>
      match matchChoice choices key with
      | Some choice => Some choice
      | None => matchKeys choices rest
      end
  end.

Definition resolveChoice (prop : FlagMapping) (result : Result) (value : string)
  : string :=
  if bool_decide (0 < length (Choices prop))%nat then
    match result with
    | Some (JObject _ members) => default value (matchKeys (Choices prop) members)
    | _ => default value (matchChoice (Choices prop) (String_ result))
    end
  else value.

Definition compactValue (result : Result) (value : string) : string :=
  if (IsObject result || IsArray result) && bool_decide (value = String_ result)
  then default value (Compact E (Raw result))
  else value.

Definition flagValue (prop : FlagMapping) (result : Result) : string :=
  compactValue result (resolveChoice prop result (arrayValue result)).

(** *** The loop over the mappings *)

Record loopState := mkState { posMap : gmap Z string; flags : list gcloudFlag }.

Definition mapProperty (jsonStr : JSON) (usedFields : gset string)
  (st : loopState) (prop : FlagMapping) : loopState :=
  if bool_decide (FieldPath prop ∈ usedFields) then st
  else
    let result := Get E jsonStr (FieldPath prop) in
    let value := flagValue prop result in
    match Pos prop with
    | Some pos => mkState (<[pos := value]> (posMap st)) (flags st)
    | None =>
        if bool_decide (Flag prop ≠ "") then
          if bool_decide (value = "") || bool_decide (value = "null") then st
          else mkState (posMap st) (flags st ++ [mkFlag (Flag prop) value false])
        else st
    end.

(** The body of the loop that injects the decomposed path variables. *)
Definition injectFlag (fl : list gcloudFlag) (kv : string * string)
  : list gcloudFlag :=
  if bool_decide (kv.2 = "") then fl
  else
    let flagName := "--" +:+ kv.1 in
    if existsb (λ f, bool_decide (Name f = flagName)) fl then fl
    else fl ++ [mkFlag flagName kv.2 false].

Fixpoint markLast (fl : list gcloudFlag) : list gcloudFlag :=
  match fl with
  | [] => []
  | [f] => [mkFlag (Name f) (Value f) true]
  | f :: rest => f :: markLast rest
  end.

(** [GenerateGcloud] from the parsed mapping to the data handed to the
    template. *)
Definition gcloudDataOf (mapping : gcloudMappingFile) (inp : GcloudInput)
  : gcloudData :=
  let jsonStr := ReqData inp in
  let '(decomposed, usedFields) := decomposePathParams inp jsonStr in
  let st := foldl (mapProperty jsonStr usedFields) (mkState ∅ []) (Properties mapping) in
  let fl := foldl injectFlag (flags st) (rangeMap E decomposed) in
  let positions := merge_sort Z.le (map_to_list (posMap st)).*1 in
  let positionalArgs := (λ pos, default "" (posMap st !! pos)) <$> positions in
  let fl := sortSlice E (λ a b, String.ltb (Name a) (Name b)) fl in
  mkData (mfCommand mapping) positionalArgs (markLast fl).

(** The errors [GenerateGcloud] returns. *)
Inductive error :=
  | ErrReadMappingFile | ErrUnmarshalMappingFile | ErrRenderTemplate
  | ErrCreateOutputDirectory | ErrWriteOutputFile.

(** [GenerateGcloud] on a file system [fs] of file contents by path:
    the error returned ([None] for [nil]) and the file system left. *)
Definition GenerateGcloud (fs : gmap string string) (inp : GcloudInput)
  : option error * gmap string string :=
  match fs !! MappingFile inp with
  | None => (Some ErrReadMappingFile, fs)
  | Some mappingBytes =>
      match Unmarshal E mappingBytes with
      | None => (Some ErrUnmarshalMappingFile, fs)
      | Some mapping =>
          match Render E (gcloudDataOf mapping inp) with
          | None => (Some ErrRenderTemplate, fs)
          | Some s =>
              if negb (MkdirAll E (OutDir inp)) then (Some ErrCreateOutputDirectory, fs)
              else
                let outFile := filepathJoin E (OutDir inp) "gcloud.sh" in
                if negb (WriteFile E outFile) then (Some ErrWriteOutputFile, fs)
                else (None, <[outFile := s]> fs)
          end
      end
  end.

End emitter.
End gcloud.

(** *** An instance of the externals, and the tests of the gcloud emitter *)

Module gcloud_tests.
Import api gjson gostrings gcloudcmd gcloud.

(** A quoted word. *)
Definition quoted (s : string) : string := dq +:+ s +:+ dq.

(** Insertion sort: what [sort.Slice] runs on the short slices of the tests. *)
Fixpoint insertBy {A} (less : A → A → bool) (x : A) (l : list A) : list A :=
  match l with
  | [] => [x]
  | y :: l' => if less x y then x :: y :: l' else y :: insertBy less x l'
  end.

Definition insertionSort {A} (less : A → A → bool) (l : list A) : list A :=
  foldl (λ acc x, insertBy less x acc) [] l.

(** [json.Compact] on well-formed text: the white space outside of strings
    is dropped. *)
Fixpoint compactText (s : string) (inString escaped : bool) : string :=
  match s with
  | EmptyString => ""
  | String c s' =>
      if inString then
        String c (compactText s'
                    (if escaped then true else negb (bool_decide (c = ascii_of_nat 34)))
                    (if escaped then false else bool_decide (c = "\"%char)))
      else if bool_decide (c = " "%char) || bool_decide (c = ascii_of_nat 10)
              || bool_decide (c = ascii_of_nat 9) || bool_decide (c = ascii_of_nat 13)
      then compactText s' false false
      else String c (compactText s' (bool_decide (c = ascii_of_nat 34)) false)
  end.

(** Modelled from the spec: the embedded template [gcloud.sh.mustache] is
    not part of the sources; the layout is the one of the scripts that
    [TestGenerateGcloud] and [TestGenerateGcloud_SkipEmpty] expect. *)
Definition renderScript (gd : gcloudData) : string :=
  "#!/bin/bash" +:+ nl +:+ "# Auto-generated gcloud command" +:+ nl +:+ nl
  +:+ Command gd +:+ " \" +:+ nl
  +:+ String.concat "" ((λ a, "  " +:+ a +:+ " \" +:+ nl) <$> PositionalArgs gd)
  +:+ String.concat ""
        ((λ f, "  " +:+ Name f +:+ " '" +:+ Value f +:+ "' "
               +:+ (if IsLast f then "" else "\") +:+ nl) <$> Flags gd).

(** The mapping files of the tests, under the names the tests write them. *)
Definition skipEmptyMapping : gcloudMappingFile :=
  mkMappingFile "gcloud test" "TestMsg"
    [mkFlagMapping "--present" None "present" [];
     mkFlagMapping "--empty" None "empty" [];
     mkFlagMapping "--null" None "null_val" []].

Definition secretsMapping : gcloudMappingFile :=
  mkMappingFile "gcloud secrets create"
    ".google.cloud.secretmanager.v1.CreateSecretRequest"
    [mkFlagMapping "" (Some 0%Z) "secretId" [];
     mkFlagMapping "--labels" None "secret.labels" []].

Definition multiBindingMapping : gcloudMappingFile :=
  mkMappingFile "gcloud secrets create"
    ".google.cloud.secretmanager.v1.CreateSecretRequest"
    [mkFlagMapping "" (Some 0%Z) "secretId" [];
     mkFlagMapping "--replication-policy" None "secret.replication"
       ["automatic"; "user-managed"]].

Definition testUnmarshal (bytes : string) : option gcloudMappingFile :=
  if bool_decide (bytes = "skip-empty mapping") then Some skipEmptyMapping
  else if bool_decide (bytes = "secrets mapping") then Some secretsMapping
  else if bool_decide (bytes = "multi-binding mapping") then Some multiBindingMapping
  else None.

Definition testEnv : Externals :=
  mkExternals asciiToLower GetPlain (λ raw, Some (compactText raw false false))
              map_to_list (@insertionSort gcloudFlag) testUnmarshal
              (λ gd, Some (renderScript gd)) (λ _, true) (λ _, true)
              (λ dir file, dir +:+ "/" +:+ file).

(** The bindings of the tests. *)
Definition parentBinding (pattern : list string) : PathBinding.t :=
  PathBinding.mk ""
    (PathTemplate.mk
       [PathSegment.mk (Some "projects") None;
        PathSegment.mk None (Some (PathVariable.mk ["parent"] pattern))]).

Definition methodWith (bindings : list PathBinding.t) : option Method.t :=
  Some (Method.mk "" None (Some (PathInfo.mk bindings)) (Service.mk "" "")).

(** [TestGenerateGcloud_SkipEmpty] *)
Definition skipEmptyRequest : JSON :=
  JObject "" [("present", JString "here"); ("empty", JString ""); ("null_val", JNull)].

Definition skipEmptyInput : GcloudInput :=
  mkInput skipEmptyRequest None "out" "mapping.json".

Example SkipEmpty_data :
  gcloudDataOf testEnv skipEmptyMapping skipEmptyInput
  = mkData "gcloud test" [] [mkFlag "--present" "here" true].
Proof. vm_compute. reflexivity. Qed.

Example SkipEmpty_script :
  GenerateGcloud testEnv {["mapping.json" := "skip-empty mapping"]} skipEmptyInput
  = (None, <["out/gcloud.sh" :=
               "#!/bin/bash" +:+ nl +:+ "# Auto-generated gcloud command" +:+ nl +:+ nl
               +:+ "gcloud test \" +:+ nl +:+ "  --present 'here' " +:+ nl]>
             {["mapping.json" := "skip-empty mapping"]}).
Proof. vm_compute. reflexivity. Qed.

(** [TestGenerateGcloud] *)
Definition labelsRaw : string :=
  "{ " +:+ quoted "env" +:+ ": " +:+ quoted "prod" +:+ ", "
  +:+ quoted "team" +:+ ": " +:+ quoted "librarian" +:+ " }".

Definition secretsRequest : JSON :=
  JObject ""
    [("parent", JString "projects/my-project/locations/us-east1");
     ("secretId", JString "my-secret");
     ("secret", JObject ""
        [("labels", JObject labelsRaw
            [("env", JString "prod"); ("team", JString "librarian")])])].

Definition secretsInput : GcloudInput :=
  mkInput secretsRequest (methodWith [parentBinding ["projects"; "*"; "locations"; "*"]])
          "out" "mapping.json".

Example Secrets_data :
  gcloudDataOf testEnv secretsMapping secretsInput
  = mkData "gcloud secrets create" ["my-secret"]
      [mkFlag "--labels"
         ("{" +:+ quoted "env" +:+ ":" +:+ quoted "prod" +:+ ","
          +:+ quoted "team" +:+ ":" +:+ quoted "librarian" +:+ "}") false;
       mkFlag "--location" "us-east1" false;
       mkFlag "--project" "my-project" true].
Proof. vm_compute. reflexivity. Qed.

(** [TestGenerateGcloud_MultiBinding] *)
Definition multiBindingRequest : JSON :=
  JObject ""
    [("parent", JString "projects/workspace/locations/us-central1");
     ("secretId", JString "my-secret-id");
     ("secret", JObject ""
        [("replication", JObject ("{" +:+ quoted "automatic" +:+ ": {}}")
                           [("automatic", JObject "{}" [])])])].

Definition multiBindingInput : GcloudInput :=
  mkInput multiBindingRequest
          (methodWith [parentBinding ["projects"; "*"];
                       parentBinding ["projects"; "*"; "locations"; "*"]])
          "out" "mapping.json".

Example MultiBinding_data :
  gcloudDataOf testEnv multiBindingMapping multiBindingInput
  = mkData "gcloud secrets create" ["my-secret-id"]
      [mkFlag "--location" "us-central1" false;
       mkFlag "--project" "workspace" false;
       mkFlag "--replication-policy" "automatic" true].
Proof. vm_compute. reflexivity. Qed.

End gcloud_tests.

(** ** The path template matcher *)

Module matcher.
Import api gjson gostrings gcloudcmd gcloud.
Local Open Scope nat_scope.

(** *** The scan, position by position

    The reading of [matchPath] that the specification gives: token [i] of
    the pattern faces part [i] of the value. *)

(** The nearest literal token before position [i]; empty when there is none. *)
Fixpoint literalBefore (segments : list string) (i : nat) : string :=
  match i with
  | O => ""
  | S j =>
      match segments !! j with
      | Some token => if isWildcard token then literalBefore segments j else token
      | None => literalBefore segments j
      end
  end.

(** Position [i] does not fail the candidate: the part is there, and it
    equals the token when the token is a literal. *)
Definition agrees (parts segments : list string) (i : nat) : bool :=
  match segments !! i with
  | None => true
  | Some token =>
      match parts !! i with
      | None => false
      | Some part => isWildcard token || bool_decide (part = token)
      end
  end.

(** The capture made at position [i]: a wildcard token that a non-empty
    literal precedes captures its part under the singular of that literal. *)
Definition captureAt (parts segments : list string) (i : nat) : option (string * string) :=
  match segments !! i, parts !! i with
  | Some token, Some part =>
      if isWildcard token && bool_decide (literalBefore segments i ≠ "")
      then Some (TrimSuffix (literalBefore segments i) "s", part)
      else None
  | _, _ => None
  end.

(** The captures in the order they are made, later ones replacing earlier
    ones of the same key. *)
Definition record (captured : gmap string string) (kv : string * string)
  : gmap string string := <[kv.1 := kv.2]> captured.

Definition matchPath_scan (value : string) (segments : list string)
  : option (gmap string string) :=
  let parts := Split value "/" in
  let positions := seq 0 (length segments) in
  if forallb (agrees parts segments) positions
  then Some (foldl record ∅ (omap (captureAt parts segments) positions))
  else None.

(** The scan as the specification words it: every wildcard token captures, under the
    singular of the literal before it. *)
Definition captureAt_specified (parts segments : list string) (i : nat)
  : option (string * string) :=
  match segments !! i, parts !! i with
  | Some token, Some part =>
      if isWildcard token
      then Some (TrimSuffix (literalBefore segments i) "s", part)
      else None
  | _, _ => None
  end.

Definition matchPath_specified (value : string) (segments : list string)
  : option (gmap string string) :=
  let parts := Split value "/" in
  let positions := seq 0 (length segments) in
  if forallb (agrees parts segments) positions
  then Some (foldl record ∅ (omap (captureAt_specified parts segments) positions))
  else None.

Lemma matchPath_loop_nil parts lastLiteral captured :
  matchPath_loop parts [] lastLiteral captured = Some captured.
Proof. by destruct parts. Qed.

Lemma omap_cons {A B} (f : A → option B) (x : A) (l : list A) :
  omap f (x :: l) = match f x with Some y => y :: omap f l | None => omap f l end.
Proof. reflexivity. Qed.

(** The loop, started at position [n] in the state the scan has there. *)
Lemma matchPath_loop_from (partsAll segsAll : list string) :
  ∀ k n captured,
    length segsAll - n = k →
    matchPath_loop (drop n partsAll) (drop n segsAll) (literalBefore segsAll n) captured
    = if forallb (agrees partsAll segsAll) (seq n k)
      then Some (foldl record captured (omap (captureAt partsAll segsAll) (seq n k)))
      else None.
Proof.
  induction k as [|k IH]; intros n captured Hk.
  - rewrite (drop_ge segsAll) by lia. simpl. apply matchPath_loop_nil.
  - assert (n < length segsAll) as Hn by lia.
    destruct (lookup_lt_is_Some_2 segsAll n Hn) as [seg Hseg].
    rewrite (drop_S segsAll seg n Hseg).
    cbn [seq forallb]. rewrite omap_cons.
    unfold agrees at 1, captureAt at 1. rewrite Hseg.
    destruct (partsAll !! n) as [part|] eqn:Hpart.
    + rewrite (drop_S partsAll part n Hpart). cbn [matchPath_loop].
      specialize (IH (S n)). cbn [literalBefore] in IH. rewrite Hseg in IH.
      destruct (isWildcard seg) eqn:Hw; cbn [orb andb].
      * rewrite IH by lia. by case_bool_decide.
      * case_bool_decide as Heq; [|done]. subst part.
        rewrite IH by lia. done.
    + rewrite drop_ge by (apply lookup_ge_None_1; done). done.
Qed.

(** [matchPath] is the positional scan. *)
Lemma matchPath_is_scan value segments :
  matchPath value segments = matchPath_scan value segments.
Proof.
  unfold matchPath, matchPath_scan.
  pose proof (matchPath_loop_from (Split value "/") segments (length segments) 0 ∅) as H.
  rewrite !drop_0 in H. apply H. lia.
Qed.

Lemma foldl_record_other (k : string) (l : list (string * string)) :
  ∀ m, (∀ kv, kv ∈ l → kv.1 ≠ k) → foldl record m l !! k = m !! k.
Proof.
  induction l as [|kv l IH]; intros m Hl; simpl; [done|].
  rewrite IH by (intros kv' Hin; apply Hl; by right).
  unfold record. apply lookup_insert_ne, Hl. by left.
Qed.

Lemma agrees_in_scan value segments captured i :
  matchPath value segments = Some captured → i < length segments →
  agrees (Split value "/") segments i = true.
Proof.
  rewrite matchPath_is_scan. unfold matchPath_scan.
  destruct (forallb _ _) eqn:Hall; [|done]. intros _ Hi.
  rewrite forallb_forall in Hall. apply Hall, in_seq. lia.
Qed.

(** C5, as the code has it.  [matchPath] scans the slash-delimited parts of
    the value against the tokens of the pattern, position by position, from
    the left.  A literal token that differs from the part it faces (or faces
    none) makes the match fail.  A wildcard token captures the part it faces
    under the nearest literal token before it, one trailing "s" stripped,
    when there is such a literal and it is not empty, and the capture stands
    unless a later wildcard captures under the same key; a wildcard token
    with no such literal before it consumes its part and captures nothing. *)
Theorem matchPath_scans (value : string) (segments : list string) :
  matchPath value segments = matchPath_scan value segments ∧
  (∀ i token,
     segments !! i = Some token → isWildcard token = false →
     Split value "/" !! i ≠ Some token →
     matchPath value segments = None) ∧
  (∀ captured i token part,
     matchPath value segments = Some captured →
     segments !! i = Some token → isWildcard token = true →
     Split value "/" !! i = Some part →
     literalBefore segments i ≠ "" →
     (∀ j kv, i < j → captureAt (Split value "/") segments j = Some kv →
              kv.1 ≠ TrimSuffix (literalBefore segments i) "s") →
     captured !! TrimSuffix (literalBefore segments i) "s" = Some part) ∧
  (∀ i, literalBefore segments i = "" →
        captureAt (Split value "/") segments i = None).
Proof.
  split_and!.
  - apply matchPath_is_scan.
  - intros i token Hseg Hlit Hpart.
    destruct (matchPath value segments) as [captured|] eqn:Hm; [|done].
    pose proof (agrees_in_scan value segments captured i Hm
                  (lookup_lt_Some _ _ _ Hseg)) as Hag.
    unfold agrees in Hag. rewrite Hseg, Hlit in Hag.
    destruct (Split value "/" !! i) as [part|]; [|done].
    simpl in Hag. case_bool_decide; [by subst|done].
  - intros captured i token part Hm Hseg Hw Hpart Hlit Hlater.
    rewrite matchPath_is_scan in Hm. unfold matchPath_scan in Hm.
    destruct (forallb _ _); [|done]. injection Hm as <-.
    pose proof (lookup_lt_Some _ _ _ Hseg) as Hi.
    replace (length segments) with (i + S (length segments - S i)) by lia.
    rewrite seq_app, omap_app, foldl_app. change (0 + i) with i.
    cbn [seq]. rewrite omap_cons.
    unfold captureAt at 2. rewrite Hseg, Hpart, Hw.
    rewrite bool_decide_true by done. cbn [andb foldl].
    rewrite foldl_record_other.
    + unfold record. simpl. apply lookup_insert_eq.
    + intros kv [j [Hj Hkv]]%list_elem_of_omap.
      apply elem_of_seq in Hj. eapply (Hlater j kv); [lia|done].
  - intros i Hlit. unfold captureAt. rewrite Hlit.
    destruct (segments !! i); [|done]. destruct (Split value "/" !! i); [|done].
    by rewrite andb_false_r.
Qed.

(** The theorem on the resource name of the tests. *)
Lemma matchPath_scans_witness :
  matchPath "projects/p1/locations/l1" ["projects"; "*"; "locations"; "*"]
  = Some {["project" := "p1"; "location" := "l1"]} ∧
  matchPath "projects/p1/zones/l1" ["projects"; "*"; "locations"; "*"] = None.
Proof.
  destruct (matchPath_scans "projects/p1/locations/l1" ["projects"; "*"; "locations"; "*"])
    as (Hscan & _).
  destruct (matchPath_scans "projects/p1/zones/l1" ["projects"; "*"; "locations"; "*"])
    as (_ & Hfail & _).
  split.
  - rewrite Hscan. vm_compute. reflexivity.
  - apply (Hfail 2 "locations"); [reflexivity|reflexivity|]. vm_compute. congruence.
Defined.

(** C5 fails where no literal precedes a wildcard token: the token captures
    nothing, where the specification has it capture its part.  The two
    differ on the pattern [*], and on a pattern whose literal is the empty
    token. *)
Lemma matchPath_wildcard_without_literal :
  matchPath "x" ["*"] = Some ∅ ∧
  matchPath_specified "x" ["*"] = Some {["" := "x"]} ∧
  matchPath "/x" [""; "*"] = Some ∅ ∧
  matchPath_specified "/x" [""; "*"] = Some {["" := "x"]} ∧
  ¬ (∃ captured key, matchPath "x" ["*"] = Some captured ∧ captured !! key = Some "x").
Proof.
  split_and!; try (vm_compute; reflexivity).
  intros (captured & key & Hm & Hk).
  assert (matchPath "x" ["*"] = Some ∅) as Hrun by (vm_compute; reflexivity).
  rewrite Hrun in Hm. injection Hm as <-. by rewrite lookup_empty in Hk.
Qed.

End matcher.

(** ** The choice among the candidate bindings *)

Module decomposition.
Import api gjson gostrings gcloudcmd gcloud.
Local Open Scope nat_scope.

(** A variable segment on which a candidate fails: the field it names is
    missing from the request, or its value does not match the pattern. *)
Definition segmentFails (E : Externals) (data : JSON) (segment : PathSegment.t) : Prop :=
  ∃ variable fieldPath rest,
    PathSegment.Variable_ segment = Some variable ∧
    PathVariable.FieldPath variable = fieldPath :: rest ∧
    (Get E data fieldPath = None ∨
     matchPath (String_ (Get E data fieldPath)) (PathVariable.Segments variable) = None).

(** The input with its method removed: no path template at all. *)
Definition withoutMethod (inp : GcloudInput) : GcloudInput :=
  mkInput (ReqData inp) None (OutDir inp) (MappingFile inp).

Section candidates.
Variable E : Externals.
Variable data : JSON.

Lemma decomposeSegments_None segments : ∀ decomposed usedFields,
  decomposeSegments E data segments decomposed usedFields = None ↔
  ∃ segment, segment ∈ segments ∧ segmentFails E data segment.
Proof.
  induction segments as [|segment rest IH]; intros decomposed usedFields; simpl.
  - split; [done|]. intros (? & Hin & _). by apply elem_of_nil in Hin.
  - destruct (PathSegment.Variable_ segment) as [variable|] eqn:Hvar; simpl.
    + destruct (PathVariable.FieldPath variable) as [|fieldPath more] eqn:Hfp; simpl.
      * etrans; [apply IH|]. split.
        -- intros (s & Hin & Hs). exists s. split; [by right|done].
        -- intros (s & [->|Hin]%elem_of_cons & Hs); [|by exists s].
           destruct Hs as (v & fp & r & Hv & Hf & _). congruence.
      * destruct (Get E data fieldPath) as [v|] eqn:Hget; simpl.
        -- destruct (matchPath (String_ (Some v)) (PathVariable.Segments variable))
             as [values|] eqn:Hm.
           ++ etrans; [apply IH|]. split.
              ** intros (s & Hin & Hs). exists s. split; [by right|done].
              ** intros (s & [->|Hin]%elem_of_cons & Hs); [|by exists s].
                 destruct Hs as (v' & fp & r & Hv & Hf & Hfail).
                 rewrite Hvar in Hv. injection Hv as <-.
                 rewrite Hfp in Hf. injection Hf as <- <-.
                 rewrite Hget in Hfail. destruct Hfail; congruence.
           ++ split; [intros _|done]. exists segment. split; [by left|].
              exists variable, fieldPath, more. rewrite Hget. by split_and!; [..|right].
        -- split; [intros _|done]. exists segment. split; [by left|].
           exists variable, fieldPath, more. rewrite Hget. by split_and!; [..|left].
    + etrans; [apply IH|]. split.
      * intros (s & Hin & Hs). exists s. split; [by right|done].
      * intros (s & [->|Hin]%elem_of_cons & Hs); [|by exists s].
        destruct Hs as (v & fp & r & Hv & _). congruence.
Qed.

Lemma preferBinding_failed best binding :
  decomposeBinding E data binding = None → preferBinding E data best binding = best.
Proof. unfold preferBinding. by intros ->. Qed.

(** Candidates that capture no more than the best so far leave it. *)
Lemma foldl_prefer_keep bindings : ∀ best,
  (∀ b d u, b ∈ bindings → decomposeBinding E data b = Some (d, u) →
            size d ≤ size best.1) →
  foldl (preferBinding E data) best bindings = best.
Proof.
  induction bindings as [|b bindings IH]; intros best Hle; simpl; [done|].
  assert (preferBinding E data best b = best) as ->.
  { unfold preferBinding.
    destruct (decomposeBinding E data b) as [[d u]|] eqn:Hb; [|done].
    rewrite bool_decide_false; [done|].
    pose proof (Hle b d u (list_elem_of_here _ _) Hb). lia. }
  apply IH. intros b' d u Hin. apply Hle. by right.
Qed.

(** The first candidate with the greatest number of captures is the one the
    loop ends with, when it captures more than the best it started from. *)
Lemma foldl_prefer_first_greatest bindings : ∀ best i b d u,
  bindings !! i = Some b → decomposeBinding E data b = Some (d, u) →
  size best.1 < size d →
  (∀ j b' d' u', bindings !! j = Some b' →
     decomposeBinding E data b' = Some (d', u') → size d' ≤ size d) →
  (∀ j b' d' u', j < i → bindings !! j = Some b' →
     decomposeBinding E data b' = Some (d', u') → size d' < size d) →
  foldl (preferBinding E data) best bindings = (d, u).
Proof.
  induction bindings as [|b0 bindings IH]; intros best i b d u Hi Hb Hbest Hmax Hfirst;
    [done|].
  destruct i as [|i]; simpl in Hi |- *.
  - injection Hi as ->.
    assert (preferBinding E data best b = (d, u)) as ->.
    { unfold preferBinding. rewrite Hb. by rewrite bool_decide_true. }
    apply foldl_prefer_keep. intros b' d' u' Hin Hb'.
    apply list_elem_of_lookup in Hin as [j Hj].
    apply (Hmax (S j) b' d' u' Hj Hb').
  - apply (IH _ i b d u Hi Hb).
    + unfold preferBinding.
      destruct (decomposeBinding E data b0) as [[d0 u0]|] eqn:Hb0; [|done].
      pose proof (Hfirst 0 b0 d0 u0 ltac:(lia) eq_refl Hb0).
      by case_bool_decide.
    + intros j b' d' u' Hj. apply (Hmax (S j) b' d' u' Hj).
    + intros j b' d' u' Hlt Hj. apply (Hfirst (S j) b' d' u'); [lia|done].
Qed.

Lemma foldl_prefer_skip pre binding post best :
  decomposeBinding E data binding = None →
  foldl (preferBinding E data) best (pre ++ binding :: post)
  = foldl (preferBinding E data) best (pre ++ post).
Proof.
  intros Hb. rewrite !foldl_app. simpl. by rewrite (preferBinding_failed _ _ Hb).
Qed.

End candidates.

(** C2.  [decomposePathParams] goes through the bindings of the method in
    their declared order.  A candidate is discarded exactly when one of its
    variable segments names a field that is missing from the request or
    whose value does not match the pattern.  Among the others, the captured
    variables returned are those of the first candidate that captured the
    greatest number of variables (and, when it captured any, the used fields
    are its fields). *)
Theorem decomposePathParams_selects (E : Externals) (inp : GcloudInput) (data : JSON) :
  (∀ binding,
     decomposeBinding E data binding = None ↔
     ∃ segment,
       segment ∈ PathTemplate.Segments (PathBinding.PathTemplate binding) ∧
       segmentFails E data segment) ∧
  (∀ i binding decomposed usedFields,
     bindingsOf (Method inp) !! i = Some binding →
     decomposeBinding E data binding = Some (decomposed, usedFields) →
     (∀ j b' d' u', bindingsOf (Method inp) !! j = Some b' →
        decomposeBinding E data b' = Some (d', u') → size d' ≤ size decomposed) →
     (∀ j b' d' u', j < i → bindingsOf (Method inp) !! j = Some b' →
        decomposeBinding E data b' = Some (d', u') → size d' < size decomposed) →
     (decomposePathParams E inp data).1 = decomposed ∧
     (0 < size decomposed → (decomposePathParams E inp data).2 = usedFields)).
Proof.
  split.
  - intros binding. apply decomposeSegments_None.
  - intros i binding decomposed usedFields Hi Hb Hmax Hfirst.
    unfold decomposePathParams.
    destruct (decide (0 < size decomposed)) as [Hpos|Hzero].
    + rewrite (foldl_prefer_first_greatest E data _ (∅, ∅) i binding decomposed usedFields
                 Hi Hb); [done|simpl; by rewrite map_size_empty|done|done].
    + rewrite foldl_prefer_keep.
      * split; [|lia]. simpl. symmetry. apply map_size_empty_iff. lia.
      * intros b' d' u' Hin Hb'. apply list_elem_of_lookup in Hin as [j Hj].
        pose proof (Hmax j b' d' u' Hj Hb'). lia.
Qed.

(** The two candidates of the specification, [projects/*] and
    [projects/*/locations/*], on the value "projects/p1/locations/l1". *)
Definition twoCandidates : GcloudInput :=
  mkInput (JObject "" [("parent", JString "projects/p1/locations/l1")])
          (gcloud_tests.methodWith
             [gcloud_tests.parentBinding ["projects"; "*"];
              gcloud_tests.parentBinding ["projects"; "*"; "locations"; "*"]])
          "out" "mapping.json".

Lemma candidate_first :
  decomposeBinding gcloud_tests.testEnv (ReqData twoCandidates)
    (gcloud_tests.parentBinding ["projects"; "*"])
  = Some ({["project" := "p1"]}, {["parent"]}).
Proof. vm_compute. reflexivity. Qed.

Lemma candidate_second :
  decomposeBinding gcloud_tests.testEnv (ReqData twoCandidates)
    (gcloud_tests.parentBinding ["projects"; "*"; "locations"; "*"])
  = Some ({["project" := "p1"; "location" := "l1"]}, {["parent"]}).
Proof. vm_compute. reflexivity. Qed.

Lemma decomposePathParams_selects_witness :
  (decomposePathParams gcloud_tests.testEnv twoCandidates (ReqData twoCandidates)).1
  = {["project" := "p1"; "location" := "l1"]}.
Proof.
  destruct (decomposePathParams_selects gcloud_tests.testEnv twoCandidates
              (ReqData twoCandidates)) as [_ Hsel].
  refine (proj1 (Hsel 1 (gcloud_tests.parentBinding ["projects"; "*"; "locations"; "*"])
                   {["project" := "p1"; "location" := "l1"]} {["parent"]}
                   eq_refl candidate_second _ _)).
  - intros [|[|j]] b' d' u' Hj Hb'; simpl in Hj; [| |done].
    + injection Hj as <-. rewrite candidate_first in Hb'. injection Hb' as <- <-.
      vm_compute. lia.
    + injection Hj as <-. rewrite candidate_second in Hb'. injection Hb' as <- <-.
      vm_compute. lia.
  - intros [|j] b' d' u' Hlt Hj Hb'; [|lia]. simpl in Hj.
    injection Hj as <-. rewrite candidate_first in Hb'. injection Hb' as <- <-.
    vm_compute. lia.
Defined.

End decomposition.

(** ** Failed candidates and the emitter *)

Module emitter_facts.
Import api gjson gostrings gcloudcmd gcloud decomposition.
Local Open Scope nat_scope.

(** C8.  A candidate that fails to match returns no error: the result of
    [decomposePathParams] is the one without that candidate.  When every
    candidate fails, the decomposition is empty, the data handed to the
    template is the one of a request without path template, and
    [GenerateGcloud] returns the same as for that request: [nil] whenever
    the mapping file is read and decoded, the template renders and the
    script is written. *)
Theorem failed_candidates_are_no_error (E : Externals) (inp : GcloudInput) :
  (∀ inp' pre binding post,
     bindingsOf (Method inp) = (pre ++ binding :: post)%list →
     bindingsOf (Method inp') = (pre ++ post)%list →
     decomposeBinding E (ReqData inp) binding = None →
     decomposePathParams E inp (ReqData inp)
     = decomposePathParams E inp' (ReqData inp)) ∧
  ((∀ binding, binding ∈ bindingsOf (Method inp) →
               decomposeBinding E (ReqData inp) binding = None) →
   decomposePathParams E inp (ReqData inp) = (∅, ∅) ∧
   (∀ mapping, gcloudDataOf E mapping inp = gcloudDataOf E mapping (withoutMethod inp)) ∧
   (∀ fs, GenerateGcloud E fs inp = GenerateGcloud E fs (withoutMethod inp)) ∧
   (∀ fs mappingBytes mapping s,
      fs !! MappingFile inp = Some mappingBytes →
      Unmarshal E mappingBytes = Some mapping →
      Render E (gcloudDataOf E mapping inp) = Some s →
      MkdirAll E (OutDir inp) = true →
      WriteFile E (filepathJoin E (OutDir inp) "gcloud.sh") = true →
      GenerateGcloud E fs inp
      = (None, <[filepathJoin E (OutDir inp) "gcloud.sh" := s]> fs))).
Proof.
  split.
  - intros inp' pre binding post Hin Hin' Hfail.
    unfold decomposePathParams. rewrite Hin, Hin'. by apply foldl_prefer_skip.
  - intros Hall.
    assert (decomposePathParams E inp (ReqData inp) = (∅, ∅)) as Hempty.
    { unfold decomposePathParams. apply foldl_prefer_keep.
      intros b d u Hin Hb. rewrite (Hall b Hin) in Hb. done. }
    assert (∀ mapping,
              gcloudDataOf E mapping inp = gcloudDataOf E mapping (withoutMethod inp))
      as Hdata.
    { intros mapping. unfold gcloudDataOf. rewrite Hempty. done. }
    split_and!; [done|done| |].
    + intros fs. unfold GenerateGcloud. simpl.
      destruct (fs !! MappingFile inp); [|done].
      destruct (Unmarshal E _) as [mapping|]; [|done].
      by rewrite Hdata.
    + intros fs mappingBytes mapping s Hread Hdecode Hrender Hmk Hwrite.
      unfold GenerateGcloud. by rewrite Hread, Hdecode, Hrender, Hmk, Hwrite.
Qed.

(** A request whose [parent] matches neither candidate. *)
Definition noMatchInput : GcloudInput :=
  mkInput (JObject "" [("parent", JString "folders/f1"); ("present", JString "here")])
          (gcloud_tests.methodWith
             [gcloud_tests.parentBinding ["projects"; "*"];
              gcloud_tests.parentBinding ["projects"; "*"; "locations"; "*"]])
          "out" "mapping.json".

Lemma failed_candidates_are_no_error_witness :
  decomposePathParams gcloud_tests.testEnv noMatchInput (ReqData noMatchInput) = (∅, ∅) ∧
  (GenerateGcloud gcloud_tests.testEnv {["mapping.json" := "skip-empty mapping"]}
     noMatchInput).1 = None.
Proof.
  destruct (failed_candidates_are_no_error gcloud_tests.testEnv noMatchInput)
    as [_ Hall].
  destruct Hall as (Hempty & _ & _ & Hok).
  - intros binding Hin.
    apply elem_of_cons in Hin as [->|Hin]; [vm_compute; reflexivity|].
    apply elem_of_cons in Hin as [->|Hin]; [vm_compute; reflexivity|].
    by apply elem_of_nil in Hin.
  - split; [exact Hempty|].
    assert (({["mapping.json" := "skip-empty mapping"]} : gmap string string)
              !! MappingFile noMatchInput = Some "skip-empty mapping") as Hread
      by (vm_compute; reflexivity).
    assert (Unmarshal gcloud_tests.testEnv "skip-empty mapping"
            = Some gcloud_tests.skipEmptyMapping) as Hdecode
      by (vm_compute; reflexivity).
    rewrite (Hok _ _ _ _ Hread Hdecode eq_refl eq_refl eq_refl).
    reflexivity.
Defined.

(** *** Empty values *)

Section empty_values.
Variable E : Externals.

Lemma flagValue_scalar prop result :
  IsObject result = false → IsArray result = false →
  flagValue E prop result
  = default (String_ result) (if bool_decide (0 < length (Choices prop))
                              then matchChoice E (Choices prop) (String_ result)
                              else None).
Proof.
  intros Hobj Harr. unfold flagValue, compactValue. rewrite Hobj, Harr. simpl.
  unfold resolveChoice, arrayValue.
  destruct result as [[]|]; try done; by case_bool_decide.
Qed.

Lemma mapProperty_skips jsonStr usedFields st prop :
  Pos prop = None →
  (flagValue E prop (Get E jsonStr (FieldPath prop)) = "" ∨
   flagValue E prop (Get E jsonStr (FieldPath prop)) = "null") →
  mapProperty E jsonStr usedFields st prop = st.
Proof.
  intros Hpos Hval. unfold mapProperty. case_bool_decide; [done|].
  rewrite Hpos. case_bool_decide; [|done].
  destruct Hval as [-> | ->]; done.
Qed.

End empty_values.

(** C4, as the code has it.  A named-flag mapping whose located value is
    the empty string or the JSON literal null adds no flag, unless one of
    its declared choices is itself empty after normalization (the choice is
    then taken for the value); a mapping that declares no choices never adds
    a flag for such a value.  For the request of the test, with mappings for
    the three fields, the only flag is [--present 'here']. *)
Theorem empty_values_are_skipped (E : Externals) (jsonStr : JSON)
  (usedFields : gset string) (st : loopState) (prop : FlagMapping) :
  Pos prop = None →
  Get E jsonStr (FieldPath prop) = Some (JString "") ∨
  Get E jsonStr (FieldPath prop) = Some JNull →
  matchChoice E (Choices prop) "" = None →
  mapProperty E jsonStr usedFields st prop = st ∧
  gcloudDataOf gcloud_tests.testEnv gcloud_tests.skipEmptyMapping
    gcloud_tests.skipEmptyInput
  = mkData "gcloud test" [] [mkFlag "--present" "here" true].
Proof.
  intros Hpos Hval Hchoice. split; [|vm_compute; reflexivity].
  apply mapProperty_skips; [done|]. left.
  destruct Hval as [-> | ->]; rewrite flagValue_scalar by done;
    unfold String_; rewrite Hchoice; by case_bool_decide.
Qed.

Lemma empty_values_are_skipped_witness :
  mapProperty gcloud_tests.testEnv gcloud_tests.skipEmptyRequest ∅ (mkState ∅ [])
    (mkFlagMapping "--empty" None "empty" [])
  = mkState ∅ [] ∧
  mapProperty gcloud_tests.testEnv gcloud_tests.skipEmptyRequest ∅ (mkState ∅ [])
    (mkFlagMapping "--null" None "null_val" ["automatic"; "user-managed"])
  = mkState ∅ [].
Proof.
  split.
  - apply (empty_values_are_skipped gcloud_tests.testEnv gcloud_tests.skipEmptyRequest
             ∅ (mkState ∅ []) (mkFlagMapping "--empty" None "empty" []));
      [reflexivity|left; reflexivity|reflexivity].
  - apply (empty_values_are_skipped gcloud_tests.testEnv gcloud_tests.skipEmptyRequest
             ∅ (mkState ∅ [])
             (mkFlagMapping "--null" None "null_val" ["automatic"; "user-managed"]));
      [reflexivity|right; reflexivity|reflexivity].
Defined.

(** A mapping with the choice "-", on an empty string and on a null. *)
Definition dashMapping : gcloudMappingFile :=
  mkMappingFile "gcloud test" "TestMsg"
    [mkFlagMapping "--empty" None "empty" ["-"];
     mkFlagMapping "--null" None "null_val" ["_"]].

(** C4 fails for a choice that normalizes to the empty string: the
    empty string and the null both become a flag. *)
Lemma empty_value_with_empty_choice_is_emitted :
  Get gcloud_tests.testEnv gcloud_tests.skipEmptyRequest "empty" = Some (JString "") ∧
  Get gcloud_tests.testEnv gcloud_tests.skipEmptyRequest "null_val" = Some JNull ∧
  gcloudDataOf gcloud_tests.testEnv dashMapping gcloud_tests.skipEmptyInput
  = mkData "gcloud test" [] [mkFlag "--empty" "-" false; mkFlag "--null" "_" true].
Proof. split_and!; vm_compute; reflexivity. Qed.

(** *** Choices *)

Section choices.
Variable E : Externals.

Lemma matchChoice_Some choices s choice :
  matchChoice E choices s = Some choice →
  choice ∈ choices ∧ normalizeChoice E s = normalizeChoice E choice.
Proof.
  unfold matchChoice. intros [Hin Heq]%find_some.
  split; [by apply list_elem_of_In|]. by apply bool_decide_eq_true in Heq.
Qed.

Lemma matchChoice_finds choices s choice :
  choice ∈ choices → normalizeChoice E s = normalizeChoice E choice →
  is_Some (matchChoice E choices s).
Proof.
  intros Hin Heq. unfold matchChoice.
  destruct (find _ choices) eqn:Hfind; [done|].
  apply list_elem_of_In in Hin.
  pose proof (find_none _ _ Hfind choice Hin) as Hno. simpl in Hno.
  by rewrite bool_decide_true in Hno.
Qed.

Lemma matchKeys_Some choices members choice :
  matchKeys E choices members = Some choice →
  ∃ key, key ∈ members.*1 ∧ choice ∈ choices ∧
         normalizeChoice E key = normalizeChoice E choice.
Proof.
  induction members as [|[key v] members IH]; simpl; [done|].
  destruct (matchChoice E choices key) as [c|] eqn:Hc.
  - intros [= <-]. apply matchChoice_Some in Hc as [? ?].
    exists key. split_and!; [by left|done|done].
  - intros (key' & ? & ? & ?)%IH. exists key'. split_and!; [by right|done|done].
Qed.

Lemma matchKeys_finds choices members key choice :
  key ∈ members.*1 → choice ∈ choices →
  normalizeChoice E key = normalizeChoice E choice →
  is_Some (matchKeys E choices members).
Proof.
  induction members as [|[key' v] members IH]; simpl.
  - by intros ?%elem_of_nil.
  - intros Hkey Hin Heq.
    destruct (matchChoice E choices key') as [c|] eqn:Hc; [done|].
    apply elem_of_cons in Hkey as [-> | Hkey]; [|by apply IH].
    destruct (matchChoice_finds choices key' choice Hin Heq) as [c Hc'].
    congruence.
Qed.

End choices.

(** The normal form the claim speaks of, character by character: the
    text in lower case with every hyphen and every underscore left out. *)
Definition isSeparator (c : ascii) : bool :=
  bool_decide (c = "-"%char) || bool_decide (c = "_"%char).

Fixpoint withoutSeparators (s : string) : string :=
  match s with
  | EmptyString => ""
  | String c s' =>
      if isSeparator c then withoutSeparators s' else String c (withoutSeparators s')
  end.

Definition normalForm (E : Externals) (s : string) : string :=
  withoutSeparators (ToLower E s).

(** The mapping with its choices left out. *)
Definition withoutChoices (prop : FlagMapping) : FlagMapping :=
  mkFlagMapping (Flag prop) (Pos prop) (FieldPath prop) [].

(** The replication policy of [TestGenerateGcloud_BugRepro]: the object
    under [secret.replication] has the key [userManaged]. *)
Definition replicationRaw : string :=
  "{" +:+ gcloud_tests.quoted "userManaged" +:+ ":{"
  +:+ gcloud_tests.quoted "replicas" +:+ ":[{"
  +:+ gcloud_tests.quoted "location" +:+ ":"
  +:+ gcloud_tests.quoted "us-central1" +:+ "}]}}".

Definition replication : JSON :=
  JObject replicationRaw
    [("userManaged",
      JObject "" [("replicas",
                   JArray "" [JObject "" [("location", JString "us-central1")]])])].

Definition replicationPolicy : FlagMapping :=
  mkFlagMapping "--replication-policy" None "secret.replication"
                ["automatic"; "user-managed"].

Definition replicationRequest : JSON :=
  JObject ""
    [("parent", JString "projects/workspace");
     ("secret", JObject "" [("replication", replication)]);
     ("secretId", JString "my-secret-id")].

(** A mapping with the choice "null", and a request whose value matches it. *)
Definition nullPolicy : FlagMapping :=
  mkFlagMapping "--policy" None "policy" ["automatic"; "null"].

Definition nullRequest : JSON := JObject "" [("policy", JString "NULL")].

Section first_match.
Variable E : Externals.

Lemma normalizeChoice_normalForm s : normalizeChoice E s = normalForm E s.
Proof.
  unfold normalizeChoice, normalForm. generalize (ToLower E s). clear s.
  intros s. induction s as [|c s IH]; [done|].
  cbn [RemoveAll withoutSeparators]. unfold isSeparator.
  destruct (bool_decide (c = "-"%char)); cbn [orb RemoveAll]; [exact IH|].
  destruct (bool_decide (c = "_"%char)); [exact IH|by rewrite IH].
Qed.

Lemma matchChoice_first cbefore choice cafter s :
  normalizeChoice E s = normalizeChoice E choice →
  (∀ c, c ∈ cbefore → normalizeChoice E s ≠ normalizeChoice E c) →
  matchChoice E (cbefore ++ choice :: cafter) s = Some choice.
Proof.
  unfold matchChoice. induction cbefore as [|c cb IH]; simpl; intros Heq Hb.
  - by rewrite bool_decide_true.
  - rewrite bool_decide_false by (apply Hb; by left).
    apply IH; [done|]. intros c' Hc'. apply Hb. by right.
Qed.

Lemma matchChoice_none choices s :
  (∀ c, c ∈ choices → normalizeChoice E s ≠ normalizeChoice E c) →
  matchChoice E choices s = None.
Proof.
  unfold matchChoice. induction choices as [|c cs IH]; simpl; intros Hb; [done|].
  rewrite bool_decide_false by (apply Hb; by left).
  apply IH. intros c' Hc'. apply Hb. by right.
Qed.

Lemma matchKeys_first choices before key v after choice :
  (∀ k, k ∈ before.*1 → matchChoice E choices k = None) →
  matchChoice E choices key = Some choice →
  matchKeys E choices (before ++ (key, v) :: after) = Some choice.
Proof.
  induction before as [|[k v'] before IH]; simpl; intros Hb Hk.
  - by rewrite Hk.
  - rewrite (Hb k) by (by left). apply IH; [|done].
    intros k' Hk'. apply Hb. by right.
Qed.

Lemma matchKeys_none choices members :
  (∀ k, k ∈ members.*1 → matchChoice E choices k = None) →
  matchKeys E choices members = None.
Proof.
  induction members as [|[k v] members IH]; simpl; intros Hb; [done|].
  rewrite (Hb k) by (by left). apply IH. intros k' Hk'. apply Hb. by right.
Qed.

Lemma mapProperty_named jsonStr usedFields st prop :
  FieldPath prop ∉ usedFields → Pos prop = None → Flag prop ≠ "" →
  mapProperty E jsonStr usedFields st prop
  = if bool_decide (flagValue E prop (Get E jsonStr (FieldPath prop)) = "" ∨
                    flagValue E prop (Get E jsonStr (FieldPath prop)) = "null")
    then st
    else mkState (posMap st)
           (flags st ++ [mkFlag (Flag prop)
                           (flagValue E prop (Get E jsonStr (FieldPath prop))) false]).
Proof.
  intros Hused Hpos Hflag. unfold mapProperty.
  rewrite bool_decide_false by done. rewrite Hpos.
  rewrite (bool_decide_true (Flag prop ≠ "")) by done.
  destruct (decide (flagValue E prop (Get E jsonStr (FieldPath prop)) = "")) as [H1|H1].
  - rewrite (bool_decide_true (_ = "")) by done.
    rewrite (bool_decide_true (_ ∨ _)) by (by left). done.
  - rewrite (bool_decide_false (_ = "")) by done.
    destruct (decide (flagValue E prop (Get E jsonStr (FieldPath prop)) = "null")) as [H2|H2].
    + rewrite (bool_decide_true (_ = "null")) by done.
      rewrite (bool_decide_true (_ ∨ _)) by (by right). done.
    + rewrite (bool_decide_false (_ = "null")) by done.
      rewrite (bool_decide_false (_ ∨ _)) by (by intros [?|?]). done.
Qed.

End first_match.

(** The claim fails for a declared choice that reads "null": the value
    "NULL" of the request matches it and the value of the mapping becomes
    the literal of the choice, but no flag is emitted. *)
Lemma matched_null_choice_is_not_emitted :
  Get gcloud_tests.testEnv nullRequest (FieldPath nullPolicy) = Some (JString "NULL") ∧
  normalForm gcloud_tests.testEnv "NULL" = normalForm gcloud_tests.testEnv "null" ∧
  flagValue gcloud_tests.testEnv nullPolicy (Some (JString "NULL")) = "null" ∧
  gcloudDataOf gcloud_tests.testEnv
    (mkMappingFile "gcloud test" "TestMsg" [nullPolicy])
    (mkInput nullRequest None "out" "mapping.json")
  = mkData "gcloud test" [] [].
Proof. split_and!; vm_compute; reflexivity. Qed.

(** C6, as the code has it.  [normalizeChoice] gives the text in lower case
    with every hyphen and every underscore left out, and choice resolution
    compares these normal forms.  When the located value is an object, the
    value of the mapping is the literal of the first declared choice whose
    normal form is that of the first key, in document order, that has the
    normal form of a declared choice (the raw text of the object, which
    starts with a brace and holds the key, is no such choice).  When the
    located value is a scalar, the value of the mapping is the literal of
    the first declared choice of the same normal form.  When no key (no
    scalar) has the normal form of a declared choice, the value is the one
    the mapping has without its choices.  A named flag whose field was not
    read for the path is emitted with that value, unless the value is empty
    or reads "null": then no flag is emitted.  The key "userManaged" and
    the choice "user-managed" have the normal form "usermanaged", which is
    not that of "automatic". *)
Theorem choices_match_normalized (E : Externals) (prop : FlagMapping) (result : Result) :
  (∀ s, normalizeChoice E s = withoutSeparators (ToLower E s)) ∧
  (∀ raw before key v after cbefore choice cafter,
     result = Some (JObject raw (before ++ (key, v) :: after)) →
     Choices prop = (cbefore ++ choice :: cafter)%list →
     normalForm E key = normalForm E choice →
     (∀ c, c ∈ cbefore → normalForm E key ≠ normalForm E c) →
     (∀ k c, k ∈ before.*1 → c ∈ Choices prop → normalForm E k ≠ normalForm E c) →
     choice ≠ raw →
     flagValue E prop result = choice) ∧
  (∀ cbefore choice cafter,
     IsObject result = false → IsArray result = false →
     Choices prop = (cbefore ++ choice :: cafter)%list →
     normalForm E (String_ result) = normalForm E choice →
     (∀ c, c ∈ cbefore → normalForm E (String_ result) ≠ normalForm E c) →
     flagValue E prop result = choice) ∧
  (∀ raw members,
     result = Some (JObject raw members) →
     (∀ k c, k ∈ members.*1 → c ∈ Choices prop → normalForm E k ≠ normalForm E c) →
     flagValue E prop result = flagValue E (withoutChoices prop) result) ∧
  (IsObject result = false → IsArray result = false →
   (∀ c, c ∈ Choices prop → normalForm E (String_ result) ≠ normalForm E c) →
   flagValue E prop result = String_ result) ∧
  (∀ jsonStr usedFields st,
     Get E jsonStr (FieldPath prop) = result →
     FieldPath prop ∉ usedFields → Pos prop = None → Flag prop ≠ "" →
     mapProperty E jsonStr usedFields st prop
     = if bool_decide (flagValue E prop result = "" ∨ flagValue E prop result = "null")
       then st
       else mkState (posMap st)
              (flags st ++ [mkFlag (Flag prop) (flagValue E prop result) false])) ∧
  normalizeChoice gcloud_tests.testEnv "userManaged" = "usermanaged" ∧
  normalizeChoice gcloud_tests.testEnv "user-managed" = "usermanaged" ∧
  normalizeChoice gcloud_tests.testEnv "USER_Managed" = "usermanaged" ∧
  normalizeChoice gcloud_tests.testEnv "automatic" = "automatic".
Proof.
  split_and!; try reflexivity.
  - apply normalizeChoice_normalForm.
  - intros raw before key v after cbefore choice cafter -> Hchoices Heq Hfirst Hbefore Hraw.
    rewrite <- !normalizeChoice_normalForm in Heq.
    assert (resolveChoice E prop (Some (JObject raw (before ++ (key, v) :: after)))
              (arrayValue (Some (JObject raw (before ++ (key, v) :: after)))) = choice) as Hres.
    { unfold resolveChoice. rewrite bool_decide_true.
      2: { rewrite Hchoices, length_app. simpl. lia. }
      rewrite (matchKeys_first E (Choices prop) before key v after choice); [done| |].
      - intros k Hk. apply matchChoice_none. intros c Hc.
        rewrite !normalizeChoice_normalForm. by apply Hbefore.
      - rewrite Hchoices. apply matchChoice_first; [done|].
        intros c Hc. rewrite !normalizeChoice_normalForm. by apply Hfirst. }
    unfold flagValue. rewrite Hres. unfold compactValue. simpl.
    by rewrite bool_decide_false.
  - intros cbefore choice cafter Hobj Harr Hchoices Heq Hfirst.
    rewrite flagValue_scalar by done. rewrite bool_decide_true.
    2: { rewrite Hchoices, length_app. simpl. lia. }
    rewrite Hchoices, (matchChoice_first E cbefore choice cafter); [done| |].
    + by rewrite !normalizeChoice_normalForm.
    + intros c Hc. rewrite !normalizeChoice_normalForm. by apply Hfirst.
  - intros raw members -> Hnone.
    unfold flagValue. f_equal. unfold resolveChoice. simpl.
    case_bool_decide; [|done].
    rewrite matchKeys_none; [done|].
    intros k Hk. apply matchChoice_none. intros c Hc.
    rewrite !normalizeChoice_normalForm. by apply Hnone.
  - intros Hobj Harr Hnone.
    rewrite flagValue_scalar by done.
    rewrite matchChoice_none; [by case_bool_decide|].
    intros c Hc. rewrite !normalizeChoice_normalForm. by apply Hnone.
  - intros jsonStr usedFields st <- Hused Hpos Hflag.
    by apply mapProperty_named.
Qed.

(** The theorem at the request of [TestGenerateGcloud_BugRepro]: the key
    [userManaged] resolves to the second choice, "user-managed", and the
    flag is emitted with it. *)
Lemma choices_match_normalized_witness :
  flagValue gcloud_tests.testEnv replicationPolicy (Some replication) = "user-managed" ∧
  mapProperty gcloud_tests.testEnv replicationRequest ∅ (mkState ∅ []) replicationPolicy
  = mkState ∅ [mkFlag "--replication-policy" "user-managed" false].
Proof.
  destruct (choices_match_normalized gcloud_tests.testEnv replicationPolicy
              (Some replication)) as (_ & Hobject & _ & _ & _ & Hflag & _).
  assert (flagValue gcloud_tests.testEnv replicationPolicy (Some replication)
          = "user-managed") as Hvalue.
  { apply (Hobject replicationRaw [] "userManaged"
             (JObject "" [("replicas",
                           JArray "" [JObject "" [("location", JString "us-central1")]])])
             [] ["automatic"] "user-managed" []).
    - reflexivity.
    - reflexivity.
    - reflexivity.
    - intros c Hc. apply list_elem_of_singleton in Hc as ->.
      vm_compute. discriminate.
    - intros k c Hk. by apply elem_of_nil in Hk.
    - vm_compute. discriminate. }
  split; [exact Hvalue|].
  rewrite (Hflag replicationRequest ∅ (mkState ∅ [])); [|reflexivity|set_solver|reflexivity|done].
  rewrite Hvalue. reflexivity.
Defined.

(** [TestGenerateGcloud_BugRepro], for the mappings that have a value. *)
Example BugRepro_data :
  gcloudDataOf gcloud_tests.testEnv
    (mkMappingFile "gcloud secrets create"
       ".google.cloud.secretmanager.v1.CreateSecretRequest"
       [mkFlagMapping "" (Some 0%Z) "secretId" [];
        mkFlagMapping "--labels" None "secret.labels" [];
        mkFlagMapping "--location" None "parent" [];
        mkFlagMapping "--kms-key-name" None
          "secret.replication.automatic.customerManagedEncryption.kmsKeyName" [];
        mkFlagMapping "--locations" None "secret.replication.userManaged.replicas" [];
        replicationPolicy])
    (mkInput
       (JObject ""
          [("parent", JString "projects/workspace");
           ("secret", JObject "" [("replication", replication)]);
           ("secretId", JString "my-secret-id")])
       (gcloud_tests.methodWith [gcloud_tests.parentBinding ["projects"; "*"]])
       "out" "gcloud-map.json")
  = mkData "gcloud secrets create" ["my-secret-id"]
      [mkFlag "--locations" "us-central1" false;
       mkFlag "--project" "workspace" false;
       mkFlag "--replication-policy" "user-managed" true].
Proof. vm_compute. reflexivity. Qed.

End emitter_facts.

(** ** The request as [encoding/json] decodes it *)

Module goany.

(** A [float64]: the IEEE 754 binary64 values. *)
Definition float64 := SpecFloat.spec_float.

(** The values [json.Unmarshal] stores in an [any].  A [map[string]any] is
    a key-unique association list; its order is the order in which [range]
    visits the map in the run at hand, which Go leaves unspecified and
    changes from one run to the next. *)
Inductive any :=
| Nil
| Bool (b : bool)
| Float64 (f : float64)
| Str (s : string)
| Slice (items : list any)
| MapAny (entries : list (string * any)).

(** [m[key]]. *)
Definition index (m : list (string * any)) (key : string) : option any :=
  snd <$> List.find (λ kv, bool_decide (kv.1 = key)) m.

(** The nesting depth of a value. *)
Fixpoint depth (v : any) : nat :=
  match v with
  | Slice items => S (list_max (List.map depth items))
  | MapAny entries => S (list_max (List.map (λ kv, depth kv.2) entries))
  | _ => 0
  end.

(** The integer a finite float truncates to (toward zero). *)
Definition truncate (f : float64) : option Z :=
  match f with
  | SpecFloat.S754_zero _ => Some 0%Z
  | SpecFloat.S754_finite s m e =>
      let magnitude :=
        if bool_decide (0 ≤ e)%Z then (Z.pos m * 2 ^ e)%Z
        else (Z.pos m / 2 ^ (- e))%Z in
      Some (if s then (- magnitude)%Z else magnitude)
  | _ => None
  end.

(** The float of an integer below 2^53 in magnitude, which binary64 holds
    exactly. *)
Definition ofZ (z : Z) : float64 :=
  match z with
  | Z0 => SpecFloat.S754_zero false
  | Zpos p => SpecFloat.S754_finite false
                (Pos.shiftl p (Z.to_N (53 - Z.log2 (Z.pos p) - 1)))
                (- (53 - Z.log2 (Z.pos p) - 1))
  | Zneg p => SpecFloat.S754_finite true
                (Pos.shiftl p (Z.to_N (53 - Z.log2 (Z.pos p) - 1)))
                (- (53 - Z.log2 (Z.pos p) - 1))
  end.

(** [fmt.Sprintf("%d", z)]. *)
Definition decimal (z : Z) : string :=
  DecimalString.NilZero.string_of_int (Z.to_int z).

End goany.

(** ** Package [morph]: the value tree and the Go emitter *)

Module golang.
Import api gostrings goany.

(** [FieldNode]; [Value] holds the string of [formatPrimitive], and an entry
    of [Entries] is a [MapEntry], its key and its value. *)
#[local] Unset Elimination Schemes.
Inductive FieldNode := mkNode {
  Name : string;
  TypeName : string;
  Value : option string;
  IsMessage : bool;
  IsRepeated : bool;
  IsMap : bool;
  IsPrimitive : bool;
  Children : list FieldNode;
  Items : list FieldNode;
  Entries : list (string * FieldNode)
}.
#[local] Set Elimination Schemes.

(** [&FieldNode{}] *)
Definition emptyNode : FieldNode :=
  mkNode "" "" None false false false false [] [] [].

Definition withTypeName (n : FieldNode) (t : string) : FieldNode :=
  mkNode (Name n) t (Value n) (IsMessage n) (IsRepeated n) (IsMap n) (IsPrimitive n)
         (Children n) (Items n) (Entries n).

(** The three ways a call of the builder ends: with its result, with a
    run-time panic (a [nil] message dereferenced), or, in this model only,
    on the bound put on the nesting of recursive calls. *)
Inductive outcome (A : Type) :=
| Done (a : A)
| Panicked
| NoFuel.
Arguments Done {A} a.
Arguments Panicked {A}.
Arguments NoFuel {A}.

Definition andThen {A B} (o : outcome A) (k : A → outcome B) : outcome B :=
  match o with
  | Done a => k a
  | Panicked => Panicked
  | NoFuel => NoFuel
  end.

(** What the emitter takes from outside the sources. *)
Record Externals := mkExternals {
  (** [strings.ToUpper] *)
  ToUpper : string → string;
  (** [fmt.Sprintf("%q", v)] and [fmt.Sprintf("%v", v)] *)
  Sprintf_q : any → string;
  Sprintf_v : any → string;
  (** [int64(f)] and [uint64(f)] for a float the type cannot represent,
  which Go leaves to the implementation *)
  int64_unrepresentable : float64 → Z;
  uint64_unrepresentable : float64 → Z
}.

Section emitter.
Variable E : Externals.

(** [int64(v)] of a [float64]. *)
Definition int64_of (f : float64) : Z :=
  match truncate f with
  | Some z =>
      if bool_decide (- 2 ^ 63 ≤ z < 2 ^ 63)%Z then z else int64_unrepresentable E f
  | None => int64_unrepresentable E f
  end.

(** [uint64(v)] of a [float64]. *)
Definition uint64_of (f : float64) : Z :=
  match truncate f with
  | Some z =>
      if bool_decide (0 ≤ z < 2 ^ 64)%Z then z else uint64_unrepresentable E f
  | None => uint64_unrepresentable E f
  end.

Definition formatPrimitive (val : any) (typeName : string) : string :=
  if bool_decide (typeName = "string") then Sprintf_q E val
  else if bool_decide (typeName = "int32") || bool_decide (typeName = "int64") then
    match val with
    | Float64 v => decimal (int64_of v)
    | _ => Sprintf_v E val
    end
  else if bool_decide (typeName = "uint32") || bool_decide (typeName = "uint64") then
    match val with
    | Float64 v => decimal (uint64_of v)
    | _ => Sprintf_v E val
    end
  else Sprintf_v E val.

Definition toPascalCase (s : string) : string :=
  Join ((λ p, match p with
              | EmptyString => ""
              | String c rest => ToUpper E (String c "") +:+ rest
              end) <$> Split s "_") "".

(** The loop of [getGoTypeName] over the enclosing messages. *)
Fixpoint qualifyFrom (parent : Ancestor) (typeName : string) : string :=
  match parent with
  | mkAncestor name servicePlaceholder grandparent =>
      match grandparent with
      | None =>
          if servicePlaceholder then typeName else name +:+ "_" +:+ typeName
      | Some g => qualifyFrom g (name +:+ "_" +:+ typeName)
      end
  end.

Definition qualify (parent : option Ancestor) (typeName : string) : string :=
  match parent with
  | None => typeName
  | Some p => qualifyFrom p typeName
  end.

Definition getGoTypeName (msg : Message.t) (protoPkgName : string) : string :=
  protoPkgName +:+ "." +:+ qualify (Message.Parent msg) (Message.Name msg).

(** The proto package name of an import path. *)
Definition protoPkgNameOf (protoPkg : string) : string :=
  let name := List.last (Split protoPkg "/") "" in
  match Split name ";" with
  | _ :: second :: _ => second
  | _ => name
  end.

(** The type name of the elements of a repeated field. *)
Definition elemTypeOf (h : store) (field : Field.t) (protoPkgName : string) : string :=
  match Field.Typez field with
  | STRING_TYPE => "string"
  | INT32_TYPE | SINT32_TYPE | SFIXED32_TYPE => "int32"
  | INT64_TYPE | SINT64_TYPE | SFIXED64_TYPE => "int64"
  | UINT32_TYPE | FIXED32_TYPE => "uint32"
  | UINT64_TYPE | FIXED64_TYPE => "uint64"
  | BOOL_TYPE => "bool"
  | MESSAGE_TYPE =>
      match deref h (Field.MessageType field) with
      | Some mt => "*" +:+ getGoTypeName mt protoPkgName
      | None => ""
      end
  | _ => ""
  end.

(** The type name of a singular scalar field. *)
Definition typeStrOf (field : Field.t) : string :=
  match Field.Typez field with
  | INT32_TYPE | SINT32_TYPE | SFIXED32_TYPE => "int32"
  | INT64_TYPE | SINT64_TYPE | SFIXED64_TYPE => "int64"
  | UINT32_TYPE | FIXED32_TYPE => "uint32"
  | UINT64_TYPE | FIXED64_TYPE => "uint64"
  | BOOL_TYPE => "bool"
  | _ => "string"
  end.

(** The value field of a map-entry message. *)
Definition valueFieldOf (fs : list Field.t) : option Field.t :=
  List.find (λ f, bool_decide (Field.Name f = "value")) fs.

(** The type name of the values of a map field, and whether they are
    messages. *)
Definition valTypeOf (h : store) (valueField : Field.t) (protoPkgName : string)
  : string * bool :=
  match Field.Typez valueField with
  | MESSAGE_TYPE =>
      match deref h (Field.MessageType valueField) with
      | Some mt => ("*" +:+ getGoTypeName mt protoPkgName, true)
      | None => ("string", false)
      end
  | _ => ("string", false)
  end.

Definition primitiveNode (name value : string) : FieldNode :=
  mkNode name "" (Some value) false false false true [] [] [].

(** [data[field.Name]], else [data[field.JSONName]]. *)
Definition fieldValue (data : list (string * any)) (field : Field.t) : option any :=
  match index data (Field.Name field) with
  | Some val => Some val
  | None =>
      if bool_decide (Field.JSONName field ≠ "") then index data (Field.JSONName field)
      else None
  end.

Section body.
Variable h : store.
Variable protoPkg : string.

(** [buildRequestInit] as seen from its own body: a recursive call on the
    message at an address. *)
Variable rec : option ptr → list (string * any) → outcome FieldNode.

(** The loop over the elements of a repeated field. *)
Fixpoint buildItems (field : Field.t) (elemType : string) (items : list any)
  : outcome (list FieldNode) :=
  match items with
  | [] => Done []
  | item :: rest =>
      if bool_decide (Field.Typez field = MESSAGE_TYPE) then
        match item with
        | MapAny subData =>
            andThen (rec (Field.MessageType field) subData) (λ subNode,
            andThen (buildItems field elemType rest) (λ nodes,
            Done (withTypeName subNode (TrimPrefix elemType "*") :: nodes)))
        | _ => buildItems field elemType rest
        end
      else
        andThen (buildItems field elemType rest) (λ nodes,
        Done (primitiveNode "" (formatPrimitive item elemType) :: nodes))
  end.

(** The loop over the entries of a map field, in the order of the run. *)
Fixpoint buildEntries (valueField : Field.t) (valTypeStr : string) (isMsgVal : bool)
  (entries : list (string * any)) : outcome (list (string * FieldNode)) :=
  match entries with
  | [] => Done []
  | (k, v) :: rest =>
      if isMsgVal then
        match v with
        | MapAny subData =>
            andThen (rec (Field.MessageType valueField) subData) (λ subNode,
            andThen (buildEntries valueField valTypeStr isMsgVal rest) (λ es,
            Done ((k, withTypeName subNode (TrimPrefix valTypeStr "*")) :: es)))
        | _ => buildEntries valueField valTypeStr isMsgVal rest
        end
      else
        andThen (buildEntries valueField valTypeStr isMsgVal rest) (λ es,
        Done ((k, primitiveNode "" (formatPrimitive v valTypeStr)) :: es))
  end.

(** The node of one field with value [val]; [None] where the source
    [continue]s. *)
Definition buildNode (field : Field.t) (val : any) : outcome (option FieldNode) :=
  let protoPkgName := protoPkgNameOf protoPkg in
  let goFieldName := toPascalCase (Field.Name field) in
  if Field.Repeated field then
    match val with
    | Slice sliceVal =>
        let elemType := elemTypeOf h field protoPkgName in
        andThen (buildItems field elemType sliceVal) (λ items,
        Done (Some (mkNode goFieldName ("[]" +:+ elemType) None
                           false true false false [] items [])))
    | _ => Done None
    end
  else if Field.Map field then
    match val with
    | MapAny mapVal =>
        match deref h (Field.MessageType field) with
        | None => Done None
        | Some entryType =>
            match valueFieldOf (Message.Fields entryType) with
            | None => Done None
            | Some valueField =>
                let '(valTypeStr, isMsgVal) := valTypeOf h valueField protoPkgName in
                andThen (buildEntries valueField valTypeStr isMsgVal mapVal) (λ entries,
                Done (Some (mkNode goFieldName ("map[string]" +:+ valTypeStr) None
                                   false false true false [] [] entries)))
            end
        end
    | _ => Done None
    end
  else
    match Field.Typez field with
    | MESSAGE_TYPE =>
        match deref h (Field.MessageType field) with
        | None => Done None
        | Some mt =>
            match val with
            | MapAny subData =>
                andThen (rec (Field.MessageType field) subData) (λ subNode,
                if IsMessage subNode then
                  Done (Some (mkNode goFieldName (getGoTypeName mt protoPkgName) None
                                     true false false false (Children subNode) [] []))
                else Done (Some (mkNode goFieldName "" None
                                        false false false false [] [] [])))
            | _ => Done None
            end
        end
    | _ => Done (Some (primitiveNode goFieldName (formatPrimitive val (typeStrOf field))))
    end.

(** The wrapper of a field that belongs to a oneof group. *)
Definition wrapOneOf (msg : Message.t) (field : Field.t) (node : FieldNode) : FieldNode :=
  match Field.IsOneOf field, Field.Group field with
  | true, Some group =>
      let typeName := toPascalCase (Field.Name field) in
      let collides :=
        existsb (λ nested, match h !! nested with
                           | Some m => bool_decide (Message.Name m = typeName)
                           | None => false
                           end) (Message.Messages msg) in
      let typeName := if collides then typeName +:+ "_" else typeName in
      mkNode (toPascalCase (OneOf.Name group))
             (protoPkgNameOf protoPkg +:+ "." +:+ Message.Name msg +:+ "_" +:+ typeName)
             None true false false false [node] [] []
  | _, _ => node
  end.

(** The loop over the fields of the message: the children appended to the
    root, in order. *)
Fixpoint buildChildren (msg : Message.t) (data : list (string * any))
  (fields : list Field.t) : outcome (list FieldNode) :=
  match fields with
  | [] => Done []
  | field :: rest =>
      match fieldValue data field with
      | None => buildChildren msg data rest
      | Some val =>
          andThen (buildNode field val) (λ node,
          andThen (buildChildren msg data rest) (λ children,
          Done (match node with
                | Some n => wrapOneOf msg field n :: children
                | None => children
                end)))
      end
  end.

Definition buildRequestInit_body (msg : Message.t) (data : list (string * any))
  : outcome FieldNode :=
  let root := mkNode "" (getGoTypeName msg (protoPkgNameOf protoPkg)) None
                     true false false false [] [] [] in
  if bool_decide (length data = 0) then Done root
  else
    andThen (buildChildren msg data (Message.Fields msg)) (λ children,
    Done (mkNode "" (TypeName root) None true false false false children [] [])).

End body.

(** [buildRequestInit].  Every recursive call is on a value nested in
    [data]; [fuel] bounds the nesting of the calls.  The imports and the
    error the source returns along with the node are always empty and
    [nil]. *)
Fixpoint buildRequestInit (fuel : nat) (h : store) (protoPkg : string)
  (msg : option ptr) (data : list (string * any)) : outcome FieldNode :=
  match fuel with
  | O => NoFuel
  | S n =>
      match deref h msg with
      | None => Panicked
      | Some m => buildRequestInit_body h protoPkg (buildRequestInit n h protoPkg) m data
      end
  end.

(** [FieldNode.Render]. *)
Fixpoint Render (n : FieldNode) : string :=
  if IsMessage n then
    "&" +:+ TypeName n +:+ "{" +:+ nl
    +:+ String.concat ""
          (List.map (λ child, Name child +:+ ": " +:+ Render child +:+ "," +:+ nl)
                    (Children n))
    +:+ "}"
  else if IsRepeated n then
    TypeName n +:+ "{" +:+ nl
    +:+ String.concat "" (List.map (λ item, Render item +:+ "," +:+ nl) (Items n))
    +:+ "}"
  else if IsMap n then
    TypeName n +:+ "{" +:+ nl
    +:+ String.concat ""
          (List.map (λ entry, Sprintf_q E (Str entry.1) +:+ ": " +:+ Render entry.2
                              +:+ "," +:+ nl)
                    (Entries n))
    +:+ "}"
  else if IsPrimitive n then
    match Value n with
    | Some s => s
    | None => "<nil>"
    end
  else "".

End emitter.
End golang.

(** *** An instance of the externals, and the messages of [TestGenerateGo] *)

Module golang_tests.
Import api gostrings goany golang.

Definition testSprintf_v (v : any) : string :=
  match v with
  | Nil => "<nil>"
  | Bool b => if b then "true" else "false"
  | Float64 f => match truncate f with Some z => decimal z | None => "NaN" end
  | Str s => s
  | Slice _ => "[...]"
  | MapAny _ => "map[...]"
  end.

(** [%q] of a string without quote, backslash or control character is the
    string between double quotes. *)
Definition testSprintf_q (v : any) : string :=
  match v with
  | Str s => dq +:+ s +:+ dq
  | _ => "%!q(" +:+ testSprintf_v v +:+ ")"
  end.

(** The conversions of an unrepresentable float are those of amd64. *)
Definition testEnv : Externals :=
  mkExternals asciiToUpper testSprintf_q testSprintf_v
              (λ _, (- 2 ^ 63)%Z) (λ _, (2 ^ 63)%Z).

Definition scalarField (name jsonName : string) (ty : Typez) : Field.t :=
  Field.mk name jsonName "" ty false false false None None None [].

(** The store: [TestMsg] at 0, [ChildMsg] at 1, the entry message of
    [labels] at 2, [MsgWithOneOf] at 3, [EmptyMsg] at 4, [Parent] at 5 and
    its nested [Child] at 6. *)
Definition TestMsg : Message.t :=
  Message.mk "TestMsg" "TestMsg" ""
    [scalarField "foo" "" STRING_TYPE;
     scalarField "baz" "baz" STRING_TYPE;
     scalarField "id" "" INT32_TYPE;
     Field.mk "child" "" "" MESSAGE_TYPE false false false None (Some 1) None [];
     Field.mk "items" "" "" STRING_TYPE true false false None None None [];
     Field.mk "labels" "" "" MESSAGE_TYPE false true false None (Some 2) None []]
    [] None.

Definition ChildMsg : Message.t :=
  Message.mk "ChildMsg" "ChildMsg" "" [scalarField "foo" "" STRING_TYPE] [] None.

Definition LabelsEntry : Message.t :=
  Message.mk "" "" ""
    [scalarField "key" "" STRING_TYPE; scalarField "value" "" STRING_TYPE] [] None.

Definition choice : OneOf.t := OneOf.mk "choice".

Definition MsgWithOneOf : Message.t :=
  Message.mk "MsgWithOneOf" "MsgWithOneOf" ""
    [Field.mk "str_val" "" "" STRING_TYPE false false true (Some choice) None None [];
     Field.mk "int_val" "" "" INT32_TYPE false false true (Some choice) None None [];
     Field.mk "empty_msg" "" "" MESSAGE_TYPE false false true (Some choice) (Some 4) None []]
    [] None.

Definition EmptyMsg : Message.t := Message.mk "EmptyMsg" "" "" [] [] None.

Definition Parent : Message.t :=
  Message.mk "Parent" "Parent" ""
    [Field.mk "nested" "" "" MESSAGE_TYPE false false false None (Some 6) None []]
    [] None.

Definition Child : Message.t :=
  Message.mk "Child" "" "" [scalarField "foo" "" STRING_TYPE] []
             (Some (mkAncestor "Parent" false None)).

Definition testStore : store :=
  [TestMsg; ChildMsg; LabelsEntry; MsgWithOneOf; EmptyMsg; Parent; Child].

Definition protoPkg : string := "cloud.google.com/go/library/apiv1/librarypb".

(** The request of a test, built and rendered. *)
Definition rendered (fuel : nat) (msg : ptr) (data : list (string * any))
  : outcome string :=
  andThen (buildRequestInit testEnv fuel testStore protoPkg (Some msg) data)
          (λ root, Done (Render testEnv root)).

Example Go_Basic :
  rendered 1 0 [("foo", Str "bar")]
  = Done ("&librarypb.TestMsg{" +:+ nl +:+ "Foo: " +:+ dq +:+ "bar" +:+ dq +:+ "," +:+ nl +:+ "}").
Proof. vm_compute. reflexivity. Qed.

Example Go_Integers :
  rendered 1 0 [("id", Float64 (ofZ 123))]
  = Done ("&librarypb.TestMsg{" +:+ nl +:+ "Id: 123," +:+ nl +:+ "}").
Proof. vm_compute. reflexivity. Qed.

Example Go_Nested :
  rendered 2 0 [("child", MapAny [("foo", Str "childBar")])]
  = Done ("&librarypb.TestMsg{" +:+ nl
          +:+ "Child: &librarypb.ChildMsg{" +:+ nl
          +:+ "Foo: " +:+ dq +:+ "childBar" +:+ dq +:+ "," +:+ nl
          +:+ "}," +:+ nl +:+ "}").
Proof. vm_compute. reflexivity. Qed.

Example Go_Repeated :
  rendered 1 0 [("items", Slice [Str "a"; Str "b"])]
  = Done ("&librarypb.TestMsg{" +:+ nl
          +:+ "Items: []string{" +:+ nl
          +:+ dq +:+ "a" +:+ dq +:+ "," +:+ nl
          +:+ dq +:+ "b" +:+ dq +:+ "," +:+ nl
          +:+ "}," +:+ nl +:+ "}").
Proof. vm_compute. reflexivity. Qed.

Example Go_Map :
  rendered 1 0 [("labels", MapAny [("k1", Str "v1")])]
  = Done ("&librarypb.TestMsg{" +:+ nl
          +:+ "Labels: map[string]string{" +:+ nl
          +:+ dq +:+ "k1" +:+ dq +:+ ": " +:+ dq +:+ "v1" +:+ dq +:+ "," +:+ nl
          +:+ "}," +:+ nl +:+ "}").
Proof. vm_compute. reflexivity. Qed.

Example Go_OneOf :
  rendered 1 3 [("str_val", Str "choice1")]
  = Done ("&librarypb.MsgWithOneOf{" +:+ nl
          +:+ "Choice: &librarypb.MsgWithOneOf_StrVal{" +:+ nl
          +:+ "StrVal: " +:+ dq +:+ "choice1" +:+ dq +:+ "," +:+ nl
          +:+ "}," +:+ nl +:+ "}").
Proof. vm_compute. reflexivity. Qed.

Example Go_OneOfEmpty :
  rendered 2 3 [("empty_msg", MapAny [])]
  = Done ("&librarypb.MsgWithOneOf{" +:+ nl
          +:+ "Choice: &librarypb.MsgWithOneOf_EmptyMsg{" +:+ nl
          +:+ "EmptyMsg: &librarypb.EmptyMsg{" +:+ nl +:+ "}," +:+ nl
          +:+ "}," +:+ nl +:+ "}").
Proof. vm_compute. reflexivity. Qed.

Example Go_NestedMessage :
  rendered 2 5 [("nested", MapAny [("foo", Str "bar")])]
  = Done ("&librarypb.Parent{" +:+ nl
          +:+ "Nested: &librarypb.Parent_Child{" +:+ nl
          +:+ "Foo: " +:+ dq +:+ "bar" +:+ dq +:+ "," +:+ nl
          +:+ "}," +:+ nl +:+ "}").
Proof. vm_compute. reflexivity. Qed.

End golang_tests.

(** ** The value tree *)

Module builder_facts.
Import api gostrings goany golang.
Local Open Scope nat_scope.

(** *** Scalars *)

(** C7, as the code has it.  A JSON number, a [float64], in a field of an
    integer type is truncated toward zero and rendered in decimal through
    [int64] for the signed types and through [uint64] for the unsigned
    types, whatever the width the field declares: [int32] and [int64]
    fields render alike, [uint32] and [uint64] fields render alike.  A
    string value is rendered by the verb [%q].  A singular field that is no
    message becomes a primitive node with that rendering. *)
Theorem numbers_go_through_64_bits (E : Externals) :
  (∀ f z, truncate f = Some z → (- 2 ^ 63 ≤ z < 2 ^ 63)%Z →
          formatPrimitive E (Float64 f) "int32" = decimal z ∧
          formatPrimitive E (Float64 f) "int64" = decimal z) ∧
  (∀ f z, truncate f = Some z → (0 ≤ z < 2 ^ 64)%Z →
          formatPrimitive E (Float64 f) "uint32" = decimal z ∧
          formatPrimitive E (Float64 f) "uint64" = decimal z) ∧
  (∀ s, formatPrimitive E (Str s) "string" = Sprintf_q E (Str s)) ∧
  (∀ h protoPkg rec field val,
     Field.Repeated field = false → Field.Map field = false →
     Field.Typez field ≠ MESSAGE_TYPE →
     buildNode E h protoPkg rec field val
     = Done (Some (primitiveNode (toPascalCase E (Field.Name field))
                                 (formatPrimitive E val (typeStrOf field))))) ∧
  typeStrOf (golang_tests.scalarField "n" "" INT32_TYPE) = "int32" ∧
  typeStrOf (golang_tests.scalarField "n" "" UINT32_TYPE) = "uint32" ∧
  typeStrOf (golang_tests.scalarField "n" "" INT64_TYPE) = "int64" ∧
  typeStrOf (golang_tests.scalarField "n" "" UINT64_TYPE) = "uint64" ∧
  typeStrOf (golang_tests.scalarField "n" "" STRING_TYPE) = "string".
Proof.
  split_and!; try reflexivity.
  - intros f z Hz Hrange. unfold formatPrimitive, int64_of. simpl. rewrite Hz.
    by rewrite bool_decide_true.
  - intros f z Hz Hrange. unfold formatPrimitive, uint64_of. simpl. rewrite Hz.
    by rewrite bool_decide_true.
  - intros h protoPkg rec field val Hrep Hmap Hty. unfold buildNode.
    rewrite Hrep, Hmap. by destruct (Field.Typez field).
Qed.

Lemma numbers_go_through_64_bits_witness :
  formatPrimitive golang_tests.testEnv (Float64 (ofZ (-7))) "int32" = "-7" ∧
  formatPrimitive golang_tests.testEnv (Float64 (ofZ 3000000000)) "uint32" = "3000000000".
Proof.
  destruct (numbers_go_through_64_bits golang_tests.testEnv) as (Hint & Huint & _).
  split.
  - apply (Hint (ofZ (-7)) (-7)%Z); [reflexivity|lia].
  - apply (Huint (ofZ 3000000000) 3000000000%Z); [reflexivity|lia].
Defined.

(** C7 fails on the width: the number 3000000000, which binary64 holds
    exactly, in an [int32]
    field: the node holds 3000000000, above the 32-bit signed range; and
    5000000000 in a [uint32] field, above the 32-bit unsigned range. *)
Lemma int32_field_is_not_narrowed :
  SpecFloat.valid_binary 53 1024 (ofZ 3000000000) = true ∧
  truncate (ofZ 3000000000) = Some 3000000000%Z ∧
  buildNode golang_tests.testEnv golang_tests.testStore golang_tests.protoPkg
    (λ _ _, NoFuel) (golang_tests.scalarField "id" "" INT32_TYPE)
    (Float64 (ofZ 3000000000))
  = Done (Some (primitiveNode "Id" "3000000000")) ∧
  ¬ (- 2 ^ 31 ≤ 3000000000 < 2 ^ 31)%Z ∧
  buildNode golang_tests.testEnv golang_tests.testStore golang_tests.protoPkg
    (λ _ _, NoFuel) (golang_tests.scalarField "count" "" UINT32_TYPE)
    (Float64 (ofZ 5000000000))
  = Done (Some (primitiveNode "Count" "5000000000")) ∧
  ¬ (0 ≤ 5000000000 < 2 ^ 32)%Z.
Proof. split_and!; try (vm_compute; reflexivity); lia. Qed.

(** *** The children of a message node *)

Definition isSlice (v : any) : bool := match v with Slice _ => true | _ => false end.
Definition isMapAny (v : any) : bool := match v with MapAny _ => true | _ => false end.

(** The value of a field has the shape its node is built from: an array for
    a repeated field, an object for a map field whose entry message is known
    and has a value field, an object for a message field whose message is
    known; any value for a scalar field. *)
Definition shaped (h : store) (field : Field.t) (val : any) : bool :=
  if Field.Repeated field then isSlice val
  else if Field.Map field then
    isMapAny val &&
    match deref h (Field.MessageType field) with
    | Some entryType => bool_decide (is_Some (valueFieldOf (Message.Fields entryType)))
    | None => false
    end
  else
    match Field.Typez field with
    | MESSAGE_TYPE =>
        bool_decide (is_Some (deref h (Field.MessageType field))) && isMapAny val
    | _ => true
    end.

(** The fields of the schema that the JSON object holds, under their
    declared name or else their JSON name, with a value of that shape. *)
Definition presentFields (h : store) (data : list (string * any))
  (fields : list Field.t) : list Field.t :=
  List.filter (λ field, match fieldValue data field with
                        | Some val => shaped h field val
                        | None => false
                        end) fields.

(** The name of the child built for a field: the field, or the group that
    wraps it. *)
Definition childName (E : Externals) (field : Field.t) : string :=
  match Field.IsOneOf field, Field.Group field with
  | true, Some group => toPascalCase E (OneOf.Name group)
  | _, _ => toPascalCase E (Field.Name field)
  end.

(** Every repeated message field of the store has its message. *)
Definition repeatedMessagesKnown (h : store) : Prop :=
  ∀ a m field,
    h !! a = Some m → field ∈ Message.Fields m →
    Field.Repeated field = true → Field.Typez field = MESSAGE_TYPE →
    is_Some (deref h (Field.MessageType field)).

Section children.
Variable E : Externals.
Variable h : store.
Variable protoPkg : string.

(** A recursive call returns a message node for every known message and
    every object nested at most [n] deep. *)
Definition rec_total (rec : option ptr → list (string * any) → outcome FieldNode)
  (n : nat) : Prop :=
  ∀ mp data, is_Some (deref h mp) → depth (MapAny data) ≤ n →
    ∃ node, rec mp data = Done node ∧ IsMessage node = true.

Lemma depth_item items item :
  item ∈ items → depth item < depth (Slice items).
Proof.
  intros Hin. simpl.
  assert (depth item ≤ list_max (List.map depth items)); [|lia].
  induction items as [|x items IH]; [by apply elem_of_nil in Hin|].
  simpl. apply elem_of_cons in Hin as [->|Hin]; [lia|]. specialize (IH Hin). lia.
Qed.

Lemma depth_entry entries k v :
  (k, v) ∈ entries → depth v < depth (MapAny entries).
Proof.
  intros Hin. simpl.
  assert (depth v ≤ list_max (List.map (λ kv, depth kv.2) entries)); [|lia].
  induction entries as [|x entries IH]; [by apply elem_of_nil in Hin|].
  simpl. apply elem_of_cons in Hin as [<-|Hin]; [simpl; lia|]. specialize (IH Hin). lia.
Qed.

Lemma index_Some data key v : index data key = Some v → ∃ k, (k, v) ∈ data.
Proof.
  unfold index. destruct (find _ data) as [[k v']|] eqn:Hfind; [|done].
  intros [= <-]. apply find_some in Hfind as [Hin _].
  exists k. by apply list_elem_of_In.
Qed.

Lemma fieldValue_depth data field v :
  fieldValue data field = Some v → depth v < depth (MapAny data).
Proof.
  unfold fieldValue. intros Hv.
  assert (∃ k, (k, v) ∈ data) as [k Hin].
  { destruct (index data (Field.Name field)) eqn:Hname.
    - injection Hv as ->. by eapply index_Some.
    - case_bool_decide; [by eapply index_Some|done]. }
  by eapply depth_entry.
Qed.

Section with_rec.
Variable rec : option ptr → list (string * any) → outcome FieldNode.
Variable n : nat.
Hypothesis Hrec : rec_total rec n.

Lemma buildItems_total field elemType items :
  (Field.Typez field = MESSAGE_TYPE → is_Some (deref h (Field.MessageType field))) →
  (∀ item, item ∈ items → depth item ≤ n) →
  ∃ nodes, buildItems E rec field elemType items = Done nodes.
Proof.
  intros Hknown. induction items as [|item items IH]; intros Hdepth; simpl; [by eexists|].
  destruct IH as [nodes Hnodes]; [intros; apply Hdepth; by right|].
  case_bool_decide as Hty.
  - destruct item; try by eexists.
    destruct (Hrec (Field.MessageType field) entries (Hknown Hty)) as (node & -> & _).
    { apply Hdepth. by left. }
    simpl. rewrite Hnodes. simpl. by eexists.
  - rewrite Hnodes. simpl. by eexists.
Qed.

Lemma buildEntries_total valueField valTypeStr isMsgVal entries :
  (isMsgVal = true → is_Some (deref h (Field.MessageType valueField))) →
  (∀ k v, (k, v) ∈ entries → depth v ≤ n) →
  ∃ es, buildEntries E rec valueField valTypeStr isMsgVal entries = Done es.
Proof.
  intros Hknown. induction entries as [|[k v] entries IH]; intros Hdepth; simpl;
    [by eexists|].
  destruct IH as [es Hes]; [intros; eapply Hdepth; by right|].
  destruct isMsgVal.
  - destruct v; try by eexists.
    destruct (Hrec (Field.MessageType valueField) entries0 (Hknown eq_refl))
      as (node & -> & _).
    { apply (Hdepth k). by left. }
    simpl. rewrite Hes. simpl. by eexists.
  - rewrite Hes. simpl. by eexists.
Qed.

Lemma valTypeOf_known valueField protoPkgName valTypeStr :
  valTypeOf h valueField protoPkgName = (valTypeStr, true) →
  is_Some (deref h (Field.MessageType valueField)).
Proof.
  unfold valTypeOf. destruct (Field.Typez valueField); try done.
  destruct (deref h (Field.MessageType valueField)); [by eexists|done].
Qed.

(** A field with a value is built, or skipped exactly when the value has
    not the shape of the field. *)
Lemma buildNode_total field val :
  (Field.Repeated field = true → Field.Typez field = MESSAGE_TYPE →
   is_Some (deref h (Field.MessageType field))) →
  depth val ≤ n →
  ∃ r, buildNode E h protoPkg rec field val = Done r ∧
       (shaped h field val = true →
        ∃ node, r = Some node ∧ Name node = toPascalCase E (Field.Name field)) ∧
       (shaped h field val = false → r = None).
Proof.
  intros Hknown Hdepth. unfold buildNode, shaped.
  destruct (Field.Repeated field) eqn:Hrep.
  - destruct val; try (by eexists; split_and!).
    destruct (buildItems_total field (elemTypeOf h field (protoPkgNameOf protoPkg)) items)
      as [nodes ->].
    { by apply Hknown. }
    { intros item Hin. pose proof (depth_item _ _ Hin). lia. }
    simpl. eexists. split_and!; [done| |done]. intros _. by eexists.
  - destruct (Field.Map field) eqn:Hmap.
    + destruct val; try (by eexists; split_and!).
      simpl. destruct (deref h (Field.MessageType field)) as [entryType|];
        [|by eexists; split_and!].
      destruct (valueFieldOf (Message.Fields entryType)) as [valueField|] eqn:Hvf.
      * destruct (valTypeOf h valueField (protoPkgNameOf protoPkg))
          as [valTypeStr isMsgVal] eqn:Hvt.
        destruct (buildEntries_total valueField valTypeStr isMsgVal entries) as [es ->].
        { intros ->. by eapply valTypeOf_known. }
        { intros k v Hin. pose proof (depth_entry _ _ _ Hin). lia. }
        simpl. eexists. split_and!; [done| |first [done|by rewrite bool_decide_true]].
        intros _. by eexists.
      * eexists. split_and!; [done| |done]. first [done|by rewrite bool_decide_false].
    + destruct (Field.Typez field) eqn:Hty;
        try (eexists; split_and!; [done| |done]; intros _; by eexists).
      destruct (deref h (Field.MessageType field)) as [mt|] eqn:Hmt;
        [|by eexists; split_and!].
      rewrite bool_decide_true by done. simpl.
      destruct val; try (by eexists; split_and!).
      destruct (Hrec (Field.MessageType field) entries) as (node & -> & Hmsg);
        [by rewrite Hmt|done|].
      simpl. rewrite Hmsg. eexists. split_and!; [done| |done]. intros _. by eexists.
Qed.

Lemma wrapOneOf_Name msg field node :
  Name node = toPascalCase E (Field.Name field) →
  Name (wrapOneOf E h protoPkg msg field node) = childName E field.
Proof.
  unfold wrapOneOf, childName.
  destruct (Field.IsOneOf field); [|done]. by destruct (Field.Group field).
Qed.

Lemma presentFields_cons data field fields :
  presentFields h data (field :: fields)
  = match fieldValue data field with
    | Some val => if shaped h field val then field :: presentFields h data fields
                  else presentFields h data fields
    | None => presentFields h data fields
    end.
Proof.
  unfold presentFields. simpl.
  destruct (fieldValue data field) as [val|]; [|done]. by destruct (shaped h field val).
Qed.

Lemma buildChildren_total msg data fields :
  (∀ field, field ∈ fields → Field.Repeated field = true →
            Field.Typez field = MESSAGE_TYPE →
            is_Some (deref h (Field.MessageType field))) →
  depth (MapAny data) ≤ S n →
  ∃ children,
    buildChildren E h protoPkg rec msg data fields = Done children ∧
    Name <$> children = childName E <$> presentFields h data fields.
Proof.
  intros Hknown Hdepth. induction fields as [|field fields IH]; [by eexists|].
  destruct IH as (children & Hchildren & Hnames).
  { intros f Hin. apply Hknown. by right. }
  rewrite presentFields_cons. cbn [buildChildren].
  destruct (fieldValue data field) as [val|] eqn:Hval; [|by eexists].
  destruct (buildNode_total field val) as (r & -> & Hshaped & Hskipped).
  { apply Hknown. by left. }
  { pose proof (fieldValue_depth _ _ _ Hval). lia. }
  cbn [andThen]. rewrite Hchildren. cbn [andThen]. eexists. split; [done|].
  destruct (shaped h field val) eqn:Hs.
  - destruct (Hshaped eq_refl) as (node & -> & Hname).
    rewrite !fmap_cons. by rewrite (wrapOneOf_Name msg field node Hname), Hnames.
  - by rewrite (Hskipped eq_refl).
Qed.

End with_rec.

Hypothesis Hstore : repeatedMessagesKnown h.

Lemma buildRequestInit_total fuel : rec_total (buildRequestInit E fuel h protoPkg) fuel.
Proof.
  induction fuel as [|fuel IH]; intros mp data Hmp Hdepth.
  - simpl in Hdepth. lia.
  - simpl. destruct mp as [a|]; [|by destruct Hmp]. simpl in *.
    destruct (h !! a) as [m|] eqn:Ha; [|by destruct Hmp].
    unfold buildRequestInit_body. case_bool_decide; [by eexists|].
    destruct (buildChildren_total _ fuel IH m data (Message.Fields m))
      as (children & -> & _); [|done|by eexists].
    intros field Hin. by apply (Hstore a m field).
Qed.

End children.

(** More fuel never changes what a call returned. *)
Section more_fuel.
Variable E : Externals.
Variable h : store.
Variable protoPkg : string.
Variables rec1 rec2 : option ptr → list (string * any) → outcome FieldNode.
Hypothesis Hrec : ∀ mp data, rec1 mp data ≠ NoFuel → rec2 mp data = rec1 mp data.

Lemma rec_more mp data o : rec1 mp data = o → o ≠ NoFuel → rec2 mp data = o.
Proof. intros <- Ho. by apply Hrec. Qed.

Lemma buildItems_more field elemType items :
  buildItems E rec1 field elemType items ≠ NoFuel →
  buildItems E rec2 field elemType items = buildItems E rec1 field elemType items.
Proof.
  induction items as [|item items IH]; simpl; [done|].
  case_bool_decide.
  - destruct item; try done.
    destruct (rec1 (Field.MessageType field) entries) as [node| |] eqn:Hr.
    + rewrite (rec_more _ _ _ Hr) by done. simpl.
      destruct (buildItems E rec1 field elemType items) eqn:Hi; simpl;
        [|by rewrite IH|done]. by rewrite IH.
    + by rewrite (rec_more _ _ _ Hr).
    + done.
  - destruct (buildItems E rec1 field elemType items) eqn:Hi; simpl;
      [|by rewrite IH|done]. by rewrite IH.
Qed.

Lemma buildEntries_more valueField valTypeStr isMsgVal entries :
  buildEntries E rec1 valueField valTypeStr isMsgVal entries ≠ NoFuel →
  buildEntries E rec2 valueField valTypeStr isMsgVal entries
  = buildEntries E rec1 valueField valTypeStr isMsgVal entries.
Proof.
  induction entries as [|[k v] entries IH]; simpl; [done|].
  destruct isMsgVal.
  - destruct v; try done.
    destruct (rec1 (Field.MessageType valueField) entries0) as [node| |] eqn:Hr.
    + rewrite (rec_more _ _ _ Hr) by done. simpl.
      destruct (buildEntries E rec1 valueField valTypeStr true entries) eqn:Hi; simpl;
        [|by rewrite IH|done]. by rewrite IH.
    + by rewrite (rec_more _ _ _ Hr).
    + done.
  - destruct (buildEntries E rec1 valueField valTypeStr false entries) eqn:Hi; simpl;
      [|by rewrite IH|done]. by rewrite IH.
Qed.

Lemma buildNode_more field val :
  buildNode E h protoPkg rec1 field val ≠ NoFuel →
  buildNode E h protoPkg rec2 field val = buildNode E h protoPkg rec1 field val.
Proof.
  unfold buildNode. destruct (Field.Repeated field).
  - destruct val; try done.
    destruct (buildItems E rec1 field _ items) eqn:Hi; simpl; [| |done];
      by rewrite buildItems_more, Hi by (by rewrite Hi).
  - destruct (Field.Map field).
    + destruct val; try done.
      destruct (deref h (Field.MessageType field)) as [entryType|]; [|done].
      destruct (valueFieldOf (Message.Fields entryType)) as [valueField|]; [|done].
      destruct (valTypeOf h valueField (protoPkgNameOf protoPkg)) as [valTypeStr isMsgVal].
      destruct (buildEntries E rec1 valueField valTypeStr isMsgVal entries) eqn:Hi;
        simpl; [| |done]; by rewrite buildEntries_more, Hi by (by rewrite Hi).
    + destruct (Field.Typez field); try done.
      destruct (deref h (Field.MessageType field)) as [mt|]; [|done].
      destruct val; try done.
      destruct (rec1 (Field.MessageType field) entries) as [node| |] eqn:Hr;
        [| |done]; by rewrite (rec_more _ _ _ Hr).
Qed.

Lemma buildChildren_more msg data fields :
  buildChildren E h protoPkg rec1 msg data fields ≠ NoFuel →
  buildChildren E h protoPkg rec2 msg data fields
  = buildChildren E h protoPkg rec1 msg data fields.
Proof.
  induction fields as [|field fields IH]; simpl; [done|].
  destruct (fieldValue data field) as [val|]; [|done].
  destruct (buildNode E h protoPkg rec1 field val) as [r| |] eqn:Hn.
  - rewrite buildNode_more, Hn by (by rewrite Hn). simpl.
    destruct (buildChildren E h protoPkg rec1 msg data fields) eqn:Hc; simpl;
      [|by rewrite IH|done]. by rewrite IH.
  - by rewrite buildNode_more, Hn by (by rewrite Hn).
  - done.
Qed.

End more_fuel.

Lemma buildRequestInit_more_fuel E h protoPkg fuel : ∀ mp data,
  buildRequestInit E fuel h protoPkg mp data ≠ NoFuel →
  buildRequestInit E (S fuel) h protoPkg mp data
  = buildRequestInit E fuel h protoPkg mp data.
Proof.
  induction fuel as [|fuel IH]; intros mp data Hfuel; [done|].
  change (buildRequestInit E (S (S fuel)) h protoPkg mp data)
    with (match deref h mp with
          | None => Panicked
          | Some m => buildRequestInit_body E h protoPkg
                        (buildRequestInit E (S fuel) h protoPkg) m data
          end).
  change (buildRequestInit E (S fuel) h protoPkg mp data)
    with (match deref h mp with
          | None => Panicked
          | Some m => buildRequestInit_body E h protoPkg
                        (buildRequestInit E fuel h protoPkg) m data
          end) in Hfuel |- *.
  destruct (deref h mp) as [m|]; [|done].
  unfold buildRequestInit_body in Hfuel |- *. case_bool_decide; [done|].
  destruct (buildChildren E h protoPkg (buildRequestInit E fuel h protoPkg) m data
              (Message.Fields m)) eqn:Hc; try done;
    by rewrite (buildChildren_more E h protoPkg _ _ IH), Hc by (by rewrite Hc).
Qed.

Lemma buildRequestInit_fuel_le E h protoPkg fuel fuel' mp data root :
  fuel ≤ fuel' →
  buildRequestInit E fuel h protoPkg mp data = Done root →
  buildRequestInit E fuel' h protoPkg mp data = Done root.
Proof.
  induction 1 as [|fuel' Hle IH]; [done|]. intros Hdone.
  rewrite buildRequestInit_more_fuel; [by apply IH|]. by rewrite (IH Hdone).
Qed.

Lemma presentFields_nil h fields : presentFields h [] fields = [].
Proof.
  induction fields as [|field fields IH]; [done|].
  rewrite presentFields_cons. unfold fieldValue, index. simpl.
  by case_bool_decide.
Qed.

(** C3, as the code has it.  For a known message of a store whose repeated
    message fields have their message, [buildRequestInit] returns a
    message-kind node (the same for every fuel that covers the nesting of
    the JSON object).  Its children are, in the order of the schema, the
    fields that the JSON object holds under their declared name, or else
    under their JSON name, with a value of the shape of the field (the node
    of the field, or the group wrapper of a oneof field); a present field
    whose value has another shape is skipped.  A field absent under both
    names has no child, and the empty object gives no children. *)
Theorem children_are_the_present_fields (E : Externals) (h : store) (protoPkg : string)
  (msg : option ptr) (m : Message.t) (data : list (string * any)) :
  deref h msg = Some m →
  repeatedMessagesKnown h →
  ∃ root,
    (∀ fuel, depth (MapAny data) ≤ fuel →
             buildRequestInit E fuel h protoPkg msg data = Done root) ∧
    IsMessage root = true ∧
    Name <$> Children root = childName E <$> presentFields h data (Message.Fields m) ∧
    (∀ field val, index data (Field.Name field) = Some val →
                  fieldValue data field = Some val) ∧
    (∀ field, index data (Field.Name field) = None → Field.JSONName field ≠ "" →
              fieldValue data field = index data (Field.JSONName field)) ∧
    (∀ field, index data (Field.Name field) = None →
              index data (Field.JSONName field) = None →
              field ∉ presentFields h data (Message.Fields m)) ∧
    (data = [] → Children root = []).
Proof.
  intros Hm Hstore.
  assert (∀ field, index data (Field.Name field) = None →
                   index data (Field.JSONName field) = None →
                   field ∉ presentFields h data (Message.Fields m)) as Hout.
  { intros field Hname Hjson Hin. unfold presentFields in Hin.
    apply list_elem_of_In, filter_In in Hin as [_ Hin].
    unfold fieldValue in Hin. rewrite Hname, Hjson in Hin. by case_bool_decide. }
  assert (∀ field val, index data (Field.Name field) = Some val →
                       fieldValue data field = Some val) as Hdeclared.
  { intros field val Hname. unfold fieldValue. by rewrite Hname. }
  assert (∀ field, index data (Field.Name field) = None → Field.JSONName field ≠ "" →
                   fieldValue data field = index data (Field.JSONName field)) as Hjson.
  { intros field Hname Hne. unfold fieldValue. rewrite Hname.
    by rewrite bool_decide_true. }
  assert (∃ root,
            buildRequestInit E (depth (MapAny data)) h protoPkg msg data = Done root ∧
            IsMessage root = true ∧
            Name <$> Children root
            = childName E <$> presentFields h data (Message.Fields m) ∧
            (data = [] → Children root = [])) as (root & Hroot & Hmsg & Hnames & Hnil).
  { assert (∃ fuel, depth (MapAny data) = S fuel) as [fuel Hfuel] by (simpl; by eexists).
    rewrite Hfuel. cbn [buildRequestInit]. rewrite Hm. unfold buildRequestInit_body.
    case_bool_decide as Hlen.
    - apply nil_length_inv in Hlen as ->.
      eexists. split_and!; try done. by rewrite presentFields_nil.
    - destruct (buildChildren_total E h protoPkg _ fuel
                  (buildRequestInit_total E h protoPkg Hstore fuel) m data
                  (Message.Fields m)) as (children & -> & Hnames).
      + intros field Hin.
        destruct msg as [a|]; [|done]. by apply (Hstore a m field).
      + lia.
      + simpl. eexists. split_and!; try done. intros ->. done. }
  exists root. split_and!; try done.
  intros fuel Hle. by eapply buildRequestInit_fuel_le.
Qed.

Lemma testStore_repeatedMessagesKnown : repeatedMessagesKnown golang_tests.testStore.
Proof.
  intros a m field Ha Hin Hrep Hty.
  do 7 (destruct a as [|a]; [injection Ha as <-; simpl in Hin;
          repeat (apply elem_of_cons in Hin as [->|Hin]; [discriminate|]);
          by apply elem_of_nil in Hin|]).
  done.
Qed.

(** The theorem on the message of the tests: of the six fields, the two the
    request holds. *)
Lemma children_are_the_present_fields_witness :
  ∃ root,
    buildRequestInit golang_tests.testEnv 1 golang_tests.testStore golang_tests.protoPkg
      (Some 0) [("baz", Str "qux"); ("foo", Str "bar")] = Done root ∧
    Name <$> Children root = ["Foo"; "Baz"].
Proof.
  destruct (children_are_the_present_fields golang_tests.testEnv golang_tests.testStore
              golang_tests.protoPkg (Some 0) golang_tests.TestMsg
              [("baz", Str "qux"); ("foo", Str "bar")] eq_refl
              testStore_repeatedMessagesKnown)
    as (root & Hroot & _ & Hnames & _).
  exists root. split; [apply (Hroot 1); simpl; lia|]. rewrite Hnames.
  vm_compute. reflexivity.
Defined.

(** A field that the JSON object holds, with a value of another shape than
    the field: the repeated field [items] with a string.  C3 counts
    it among the children; the node has none. *)
Lemma present_field_of_another_shape_is_skipped :
  index [("items", Str "x")] "items" = Some (Str "x") ∧
  (∃ field, field ∈ Message.Fields golang_tests.TestMsg ∧ Field.Name field = "items") ∧
  ∃ root,
    buildRequestInit golang_tests.testEnv 1 golang_tests.testStore golang_tests.protoPkg
      (Some 0) [("items", Str "x")] = Done root ∧
    IsMessage root = true ∧ Children root = [].
Proof.
  split_and!.
  - reflexivity.
  - eexists. split;
      [do 4 apply list_elem_of_further; apply list_elem_of_here|reflexivity].
  - eexists. split_and!; reflexivity.
Qed.

(** *** Map entries *)

(** The request [{"labels": {"a": "1", "b": "2"}}] as two runs may see it. *)
Definition labelsFirstA : list (string * any) :=
  [("labels", MapAny [("a", Str "1"); ("b", Str "2")])].
Definition labelsFirstB : list (string * any) :=
  [("labels", MapAny [("b", Str "2"); ("a", Str "1")])].

(** C9 fails on the code.  The two lists are the same map (the same
    entries, each key once; every lookup agrees), and the texts rendered
    from them differ: the entries of a map field come out in the order in
    which [range] visited the Go map. *)
Theorem map_entries_follow_iteration_order :
  [("a", Str "1"); ("b", Str "2")] ≡ₚ [("b", Str "2"); ("a", Str "1")] ∧
  NoDup ["a"; "b"] ∧
  (∀ key, index [("a", Str "1"); ("b", Str "2")] key
          = index [("b", Str "2"); ("a", Str "1")] key) ∧
  golang_tests.rendered 1 0 labelsFirstA
  = Done ("&librarypb.TestMsg{" +:+ nl
          +:+ "Labels: map[string]string{" +:+ nl
          +:+ dq +:+ "a" +:+ dq +:+ ": " +:+ dq +:+ "1" +:+ dq +:+ "," +:+ nl
          +:+ dq +:+ "b" +:+ dq +:+ ": " +:+ dq +:+ "2" +:+ dq +:+ "," +:+ nl
          +:+ "}," +:+ nl +:+ "}") ∧
  golang_tests.rendered 1 0 labelsFirstB
  = Done ("&librarypb.TestMsg{" +:+ nl
          +:+ "Labels: map[string]string{" +:+ nl
          +:+ dq +:+ "b" +:+ dq +:+ ": " +:+ dq +:+ "2" +:+ dq +:+ "," +:+ nl
          +:+ dq +:+ "a" +:+ dq +:+ ": " +:+ dq +:+ "1" +:+ dq +:+ "," +:+ nl
          +:+ "}," +:+ nl +:+ "}") ∧
  golang_tests.rendered 1 0 labelsFirstA ≠ golang_tests.rendered 1 0 labelsFirstB.
Proof.
  split_and!.
  - apply Permutation_swap.
  - apply NoDup_cons. split; [|apply NoDup_singleton].
    intros Hin. apply list_elem_of_singleton in Hin. discriminate.
  - intros key. unfold index. simpl.
    repeat case_bool_decide; simplify_eq; done.
  - vm_compute. reflexivity.
  - vm_compute. reflexivity.
  - vm_compute. discriminate.
Qed.

End builder_facts.

(** ** Package [morph]: the curl emitter *)

Module curl.
Import api gostrings goany.

(** [CurlInput], as far as [GenerateCurl] reads it. *)
Record CurlInput := mkInput {
  ReqData : string;
  OutDir : string;
  Method : Method.t
}.

Record queryParam := mkQueryParam { qpName : string; qpValue : option any }.

Record curlData := mkData {
  Verb : string;
  Host : string;
  Path : string;
  Body : string;
  QueryParameters : list queryParam
}.

(** What the emitter takes from outside the sources. *)
Record Externals := mkExternals {
  (** [language.PathParams] and [language.QueryParams] *)
  PathParams : Method.t → list Field.t;
  QueryParams : Method.t → PathBinding.t → list Field.t;
  (** [json.Unmarshal] into a [map[string]any]; [None] is its error *)
  Unmarshal : string → option (list (string * any));
  (** [json.Marshal] of the remaining fields; [None] is its error *)
  Marshal : list (string * any) → option string;
  (** [mustache.Render] of the embedded template; [None] is its error *)
  Render : curlData → option string;
  (** [os.WriteFile] succeeds *)
  WriteFile : string → bool;
  (** [filepath.Join] *)
  filepathJoin : string → string → string
}.

(** The errors [GenerateCurl] returns. *)
Inductive error := ErrUnmarshal | ErrMarshal | ErrRender | ErrWriteFile.

(** How a call of [GenerateCurl] ends: it returns, with an error or [nil]
    and the file system it leaves, or it panics. *)
Inductive outcome :=
| Returns (err : option error) (fs : gmap string string)
| Panics.

(** [delete(data, key)]. *)
Definition delete (data : list (string * any)) (key : string) : list (string * any) :=
  List.filter (λ kv, negb (bool_decide (kv.1 = key))) data.

(** The inner loop of the path substitution: [data[fieldPath].(string)]
    for every field path of a variable; [None] is the panic of the type
    assertion. *)
Fixpoint substituteFieldPaths (data : list (string * any)) (fieldPaths : list string)
  (path : string) : option string :=
  match fieldPaths with
  | [] => Some path
  | fieldPath :: rest =>
      match index data fieldPath with
      | Some (Str s) => substituteFieldPaths data rest (path +:+ "/" +:+ s)
      | _ => None
      end
  end.

(** The loop over the segments of the path template. *)
Fixpoint substitutePath (data : list (string * any)) (segments : list PathSegment.t)
  (path : string) : option string :=
  match segments with
  | [] => Some path
  | segment :: rest =>
      let path :=
        match PathSegment.Literal segment with
        | Some literal => path +:+ "/" +:+ literal
        | None => path
        end in
      match PathSegment.Variable_ segment with
      | Some variable =>
          match substituteFieldPaths data (PathVariable.FieldPath variable) path with
          | Some path' => substitutePath data rest path'
          | None => None
          end
      | None => substitutePath data rest path
      end
  end.

(** The loop over the query parameters: the parameters collected and the
    data left. *)
Fixpoint takeQueryParams (query : list Field.t) (data : list (string * any))
  : list queryParam * list (string * any) :=
  match query with
  | [] => ([], data)
  | param :: rest =>
      let name := if negb (Field.NameEqualJSONName param)
                  then Field.JSONName param else Field.Name param in
      let qp := mkQueryParam name (index data (Field.Name param)) in
      let '(params, data') := takeQueryParams rest (delete data (Field.Name param)) in
      (qp :: params, data')
  end.

Section emitter.
Variable E : Externals.

Definition GenerateCurl (fs : gmap string string) (inp : CurlInput) : outcome :=
  match Method.PathInfo (Method inp) with
  | None => Panics
  | Some info =>
      match PathInfo.Bindings info with
      | [] => Panics
      | binding :: _ =>
          let pp := PathParams E (Method inp) in
          let query := QueryParams E (Method inp) binding in
          match Unmarshal E (ReqData inp) with
          | None => Returns (Some ErrUnmarshal) fs
          | Some data =>
              match substitutePath data
                      (PathTemplate.Segments (PathBinding.PathTemplate binding)) "" with
              | None => Panics
              | Some path =>
                  let data := foldl (λ d param, delete d (Field.Name param)) data pp in
                  let '(params, data) := takeQueryParams query data in
                  match (if bool_decide (0 < length data)%nat
                         then Marshal E data else Some "") with
                  | None => Returns (Some ErrMarshal) fs
                  | Some body =>
                      let cr := mkData (PathBinding.Verb binding)
                                       (Service.DefaultHost (Method.Service (Method inp)))
                                       path body params in
                      match Render E cr with
                      | None => Returns (Some ErrRender) fs
                      | Some s =>
                          let file := filepathJoin E (OutDir inp) "curl.sh" in
                          if WriteFile E file
                          then Returns None (<[file := s]> fs)
                          else Returns (Some ErrWriteFile) fs
                      end
                  end
              end
          end
      end
  end.

End emitter.

(** The precondition of the path substitution: every field path of every
    variable segment is in the request with a string value. *)
Definition pathFieldsAreStrings (data : list (string * any)) (binding : PathBinding.t)
  : Prop :=
  ∀ segment variable fieldPath,
    segment ∈ PathTemplate.Segments (PathBinding.PathTemplate binding) →
    PathSegment.Variable_ segment = Some variable →
    fieldPath ∈ PathVariable.FieldPath variable →
    ∃ s, index data fieldPath = Some (Str s).

Lemma substituteFieldPaths_Some data fieldPaths : ∀ path,
  is_Some (substituteFieldPaths data fieldPaths path) ↔
  ∀ fieldPath, fieldPath ∈ fieldPaths → ∃ s, index data fieldPath = Some (Str s).
Proof.
  induction fieldPaths as [|fp rest IH]; intros path; simpl.
  - split; [|by eexists]. intros _ ? Hin. by apply elem_of_nil in Hin.
  - split.
    + intros Hsome fieldPath Hin.
      destruct (index data fp) as [[]|] eqn:Hfp; try by destruct Hsome.
      apply elem_of_cons in Hin as [->|Hin]; [by eexists|].
      by apply (proj1 (IH _) Hsome).
    + intros Hall. destruct (Hall fp) as [s ->]; [by left|].
      apply IH. intros ? ?. apply Hall. by right.
Qed.

Lemma substitutePath_Some data segments : ∀ path,
  is_Some (substitutePath data segments path) ↔
  ∀ segment variable fieldPath,
    segment ∈ segments → PathSegment.Variable_ segment = Some variable →
    fieldPath ∈ PathVariable.FieldPath variable →
    ∃ s, index data fieldPath = Some (Str s).
Proof.
  induction segments as [|segment rest IH]; intros path; simpl.
  - split; [|by eexists]. intros _ ? ? ? Hin. by apply elem_of_nil in Hin.
  - destruct (PathSegment.Variable_ segment) as [variable|] eqn:Hvar.
    + match goal with |- context [substituteFieldPaths data _ ?p] => set (p0 := p) end.
      split.
      * intros Hsome seg var fp Hin Hv Hfp.
        destruct (substituteFieldPaths data (PathVariable.FieldPath variable) p0)
          as [path'|] eqn:Hsub; [|by destruct Hsome].
        apply elem_of_cons in Hin as [->|Hin].
        -- rewrite Hvar in Hv. injection Hv as <-.
           eapply (proj1 (substituteFieldPaths_Some _ _ p0)); [by rewrite Hsub|done].
        -- by eapply (proj1 (IH _) Hsome).
      * intros Hall.
        destruct (proj2 (substituteFieldPaths_Some data
                           (PathVariable.FieldPath variable) p0)) as [path' ->].
        { intros fp Hfp. eapply Hall; [by left|done|done]. }
        apply IH. intros seg var fp Hin. apply Hall. by right.
    + etrans; [apply IH|]. split.
      * intros Hall seg var fp Hin Hv Hfp.
        apply elem_of_cons in Hin as [->|Hin]; [congruence|]. by eapply Hall.
      * intros Hall seg var fp Hin. apply Hall. by right.
Qed.

(** C10.  Once the request is decoded, [GenerateCurl] on a method with a
    first binding panics exactly when some field path of a variable segment
    of that binding is missing from the request or has a value that is no
    string: it returns (an error or [nil]) under the precondition, and
    panics, returning nothing, without it. *)
Theorem GenerateCurl_panics_without_string_fields (E : Externals)
  (fs : gmap string string) (inp : CurlInput) (info : PathInfo.t)
  (binding : PathBinding.t) (others : list PathBinding.t) (data : list (string * any)) :
  Method.PathInfo (Method inp) = Some info →
  PathInfo.Bindings info = binding :: others →
  Unmarshal E (ReqData inp) = Some data →
  (GenerateCurl E fs inp = Panics ↔ ¬ pathFieldsAreStrings data binding) ∧
  (pathFieldsAreStrings data binding →
   ∃ err fs', GenerateCurl E fs inp = Returns err fs') ∧
  (∀ segment variable fieldPath,
     segment ∈ PathTemplate.Segments (PathBinding.PathTemplate binding) →
     PathSegment.Variable_ segment = Some variable →
     fieldPath ∈ PathVariable.FieldPath variable →
     (index data fieldPath = None ∨
      ∃ v, index data fieldPath = Some v ∧ ∀ s, v ≠ Str s) →
     GenerateCurl E fs inp = Panics).
Proof.
  intros Hinfo Hbindings Hdata.
  pose proof (substitutePath_Some data
                (PathTemplate.Segments (PathBinding.PathTemplate binding)) "") as Hpath.
  assert (pathFieldsAreStrings data binding →
          ∃ err fs', GenerateCurl E fs inp = Returns err fs') as Hreturns.
  { intros Hpre. apply Hpath in Hpre as [path Hsub].
    unfold GenerateCurl. rewrite Hinfo, Hbindings, Hdata, Hsub.
    destruct (takeQueryParams _ _) as [params data'].
    destruct (if bool_decide _ then _ else _); [|by eexists _, _].
    destruct (Render E _); [|by eexists _, _].
    destruct (WriteFile E _); by eexists _, _. }
  assert (¬ pathFieldsAreStrings data binding → GenerateCurl E fs inp = Panics) as Hpanics.
  { intros Hpre. unfold GenerateCurl. rewrite Hinfo, Hbindings, Hdata.
    destruct (substitutePath data _ "") as [path|] eqn:Hsub; [|done].
    exfalso. apply Hpre. unfold pathFieldsAreStrings. apply Hpath. by eexists. }
  split_and!; [|done|].
  - split; [|done]. intros Hp Hpre.
    destruct (Hreturns Hpre) as (err & fs' & Hr). congruence.
  - intros segment variable fieldPath Hin Hvar Hfp Hbad. apply Hpanics.
    intros Hpre. destruct (Hpre segment variable fieldPath Hin Hvar Hfp) as [s Hs].
    destruct Hbad as [Hnone | (v & Hv & Hnot)]; [congruence|].
    rewrite Hs in Hv. injection Hv as <-. by apply (Hnot s).
Qed.

(** *** The method of [TestGenerateCurl] *)

Definition fooField : Field.t :=
  Field.mk "foo" "foo" "" STRING_TYPE false false false None None None [].

Definition testBinding : PathBinding.t :=
  PathBinding.mk "GET"
    (PathTemplate.mk [PathSegment.mk (Some "v1") None;
                      PathSegment.mk None (Some (PathVariable.mk ["foo"] []))]).

Definition testMethod : Method.t :=
  Method.mk "TestMethod" (Some 0) (Some (PathInfo.mk [testBinding]))
            (Service.mk "" "example.com").

(** The requests: the two of the test, one without the field of the path,
    one with a number in it. *)
Definition testUnmarshal (bytes : string) : option (list (string * any)) :=
  if bool_decide (bytes = "NoBody") then Some [("foo", Str "bar")]
  else if bool_decide (bytes = "WithBody") then Some [("foo", Str "bar"); ("baz", Str "qux")]
  else if bool_decide (bytes = "missing foo") then Some [("baz", Str "qux")]
  else if bool_decide (bytes = "numeric foo") then Some [("foo", Float64 (ofZ 42))]
  else None.

(** [json.Marshal] of a map of strings without characters to escape, in the
    order of the list. *)
Definition testMarshal (data : list (string * any)) : option string :=
  Some ("{" +:+ String.concat ","
                  ((λ kv, dq +:+ kv.1 +:+ dq +:+ ":" +:+
                          match kv.2 with
                          | Str s => dq +:+ s +:+ dq
                          | _ => "null"
                          end) <$> data) +:+ "}").

(** Modelled from the spec: the embedded template [curl.sh.mustache] is not
    part of the sources; the script has the verb, the URL of host and path,
    and the body after [-d] when there is one, as [TestGenerateCurl]
    expects. *)
Definition renderScript (cr : curlData) : string :=
  "curl -X " +:+ Verb cr +:+ " https://" +:+ Host cr +:+ Path cr
  +:+ (if bool_decide (Body cr = "") then "" else " -d '" +:+ Body cr +:+ "'").

Definition testEnv : Externals :=
  mkExternals (λ _, [fooField]) (λ _ _, []) testUnmarshal testMarshal
              (λ cr, Some (renderScript cr)) (λ _, true)
              (λ dir file, dir +:+ "/" +:+ file).

Example Curl_NoBody :
  GenerateCurl testEnv ∅ (mkInput "NoBody" "out" testMethod)
  = Returns None {["out/curl.sh" := "curl -X GET https://example.com/v1/bar"]}.
Proof. vm_compute. reflexivity. Qed.

Example Curl_WithBody :
  GenerateCurl testEnv ∅ (mkInput "WithBody" "out" testMethod)
  = Returns None
      {["out/curl.sh" := "curl -X GET https://example.com/v1/bar -d '{"
                         +:+ dq +:+ "baz" +:+ dq +:+ ":" +:+ dq +:+ "qux" +:+ dq +:+ "}'"]}.
Proof. vm_compute. reflexivity. Qed.

(** The theorem on the method of the test: without the field [foo], and
    with a number in it, [GenerateCurl] panics. *)
Lemma GenerateCurl_panics_without_string_fields_witness :
  GenerateCurl testEnv ∅ (mkInput "missing foo" "out" testMethod) = Panics ∧
  GenerateCurl testEnv ∅ (mkInput "numeric foo" "out" testMethod) = Panics.
Proof.
  split.
  - refine (proj2 (proj2 (GenerateCurl_panics_without_string_fields testEnv ∅
              (mkInput "missing foo" "out" testMethod) (PathInfo.mk [testBinding])
              testBinding [] [("baz", Str "qux")] eq_refl eq_refl eq_refl))
              (PathSegment.mk None (Some (PathVariable.mk ["foo"] [])))
              (PathVariable.mk ["foo"] []) "foo" _ eq_refl _ _).
    + apply list_elem_of_further, list_elem_of_here.
    + apply list_elem_of_here.
    + left. reflexivity.
  - refine (proj2 (proj2 (GenerateCurl_panics_without_string_fields testEnv ∅
              (mkInput "numeric foo" "out" testMethod) (PathInfo.mk [testBinding])
              testBinding [] [("foo", Float64 (ofZ 42))] eq_refl eq_refl eq_refl))
              (PathSegment.mk None (Some (PathVariable.mk ["foo"] [])))
              (PathVariable.mk ["foo"] []) "foo" _ eq_refl _ _).
    + apply list_elem_of_further, list_elem_of_here.
    + apply list_elem_of_here.
    + right. eexists. split; [reflexivity|]. intros s. discriminate.
Defined.

End curl.


(** * Further properties of the code *)

(** ** The exporter: what a schema and its definitions hold *)

Module schema_facts.
Import api jsonschema convert convert_facts.
Local Open Scope nat_scope.

Definition outputOnly (f : Field.t) : bool :=
  bool_decide (FIELD_BEHAVIOR_OUTPUT_ONLY ∈ Field.Behavior f).

(** The fields of a message that are not output-only, in their order. *)
Definition exported (fs : list Field.t) : list Field.t :=
  List.filter (λ f, negb (outputOnly f)) fs.

(** An object schema describes a message: it is of type "object" with the
    documentation of the message, its properties are keyed by the JSON names
    of the exported fields, and its required list holds, in the order of the
    fields, the JSON names of the exported fields marked required. *)
Record describes (m : Message.t) (s : Schema) : Prop := mkDescribes {
  d_type : Type_ s = "object";
  d_description : Description s = Message.Documentation m;
  d_properties :
    dom (Properties s) = list_to_set (Field.JSONName <$> exported (Message.Fields m));
  d_required :
    Required s
    = Field.JSONName <$> List.filter Field.DocumentAsRequired (exported (Message.Fields m))
}.

(** Every definition of the walker describes a message of the store that
    has the ID the definition is stored under. *)
Definition defs_describe (h : store) (w : schemaWalker) : Prop :=
  ∀ id s, defs w !! id = Some s →
    ∃ q m, h !! q = Some m ∧ Message.ID m = id ∧ describes m s.

Section shape.
Variable h : store.
Variable rec : schemaWalker → option ptr → option (Schema * schemaWalker).

Lemma buildObject_fields_shape fs : ∀ s w s' w',
  buildObject_fields h rec fs s w = Some (s', w') →
  Type_ s' = Type_ s ∧ Description s' = Description s ∧
  dom (Properties s') = dom (Properties s) ∪ list_to_set (Field.JSONName <$> exported fs) ∧
  Required s'
  = (Required s ++ (Field.JSONName <$> List.filter Field.DocumentAsRequired (exported fs)))%list.
Proof.
  induction fs as [|f fs IH]; intros s w s' w'; simpl.
  - intros [= <- <-]. split_and!; [done|done|set_solver|by rewrite app_nil_r].
  - unfold outputOnly. case_bool_decide as Hout; simpl.
    + apply IH.
    + destruct (buildField h rec w f) as [[schema w1]|]; [|done]. simpl.
      intros Hrest. apply IH in Hrest as (Hty & Hdesc & Hdom & Hreq).
      destruct (Field.DocumentAsRequired f) eqn:Hr; simpl in *.
      * split_and!; [done|done| |].
        -- rewrite Hdom, dom_insert_L. set_solver.
        -- rewrite Hreq. by rewrite <- app_assoc.
      * split_and!; [done|done| |done].
        rewrite Hdom, dom_insert_L. set_solver.
Qed.

Lemma buildObject_describes w msg s w' :
  buildObject h rec w msg = Some (s, w') → describes msg s.
Proof.
  unfold buildObject. intros (Hty & Hdesc & Hdom & Hreq)%buildObject_fields_shape.
  case_bool_decide as Hdoc; simpl in *.
  - split; [done|done|set_solver|done].
  - split; [done| |set_solver|done].
    rewrite Hdesc. destruct (decide (Message.Documentation msg = "")) as [->|]; done.
Qed.

(** A call that returns keeps the definitions describing messages. *)
Definition rec_keeps : Prop :=
  ∀ w m r w', defs_describe h w → rec w m = Some (r, w') → defs_describe h w'.

Hypothesis Hrec : rec_keeps.

Lemma buildFieldType_keeps w f r w' :
  defs_describe h w → buildFieldType rec w f = Some (r, w') → defs_describe h w'.
Proof.
  intros Hw. unfold buildFieldType.
  destruct (Field.Typez f); try (by intros [= <- <-]); try (by apply Hrec).
  destruct (Field.EnumType f); by intros [= <- <-].
Qed.

Lemma buildField_keeps w f r w' :
  defs_describe h w → buildField h rec w f = Some (r, w') → defs_describe h w'.
Proof.
  intros Hw. unfold buildField. destruct (Field.Map f).
  - destruct (deref h (Field.MessageType f)) as [mt|]; simpl; [|by intros [= <- <-]].
    destruct (valueFieldOf (Message.Fields mt)) as [subF|]; simpl; [|by intros [= <- <-]].
    destruct (buildFieldType rec w subF) as [[vs w1]|] eqn:Hsub; simpl; [|done].
    intros [= <- <-]. by eapply buildFieldType_keeps.
  - destruct (buildFieldType rec w f) as [[s0 w1]|] eqn:Hsub; simpl; [|done].
    destruct (Field.Repeated f); intros [= <- <-]; by eapply buildFieldType_keeps.
Qed.

Lemma buildObject_fields_keeps fs : ∀ s w s' w',
  defs_describe h w → buildObject_fields h rec fs s w = Some (s', w') →
  defs_describe h w'.
Proof.
  induction fs as [|f fs IH]; intros s w s' w' Hw; simpl.
  - by intros [= <- <-].
  - case_bool_decide; [by apply IH|].
    destruct (buildField h rec w f) as [[schema w1]|] eqn:Hf; [|done]. simpl.
    apply IH. by eapply buildField_keeps.
Qed.

End shape.

Lemma getRef_keeps h fuel : rec_keeps h (getRef fuel h).
Proof.
  induction fuel as [|fuel IH]; intros w m r w' Hw.
  - simpl. destruct (deref h m) as [msg|]; [|by intros [= <- <-]].
    destruct (refMap w !! Message.ID msg); [by intros [= <- <-]|done].
  - rewrite getRef_S. destruct m as [q|]; simpl; [|by intros [= <- <-]].
    destruct (h !! q) as [msg|] eqn:Hq; [|by intros [= <- <-]].
    destruct (refMap w !! Message.ID msg); [by intros [= <- <-]|].
    destruct (buildObject h (getRef fuel h) _ msg) as [[s w2]|] eqn:Hobj; [|done].
    simpl. intros [= <- <-].
    pose proof (buildObject_describes h _ _ _ _ _ Hobj) as Hs.
    assert (defs_describe h w2) as Hw2.
    { unfold buildObject in Hobj.
      eapply (buildObject_fields_keeps h _ IH); [|exact Hobj]. exact Hw. }
    intros id s'. simpl. rewrite lookup_insert. case_decide as Hid.
    + intros [= <-]. exists q, msg. by split_and!.
    + apply Hw2.
Qed.

(** X1.  [ToJSONSchema] of a message of the store returns an object schema that
    describes the message: the properties are keyed by the JSON names of the
    fields that are not output-only, and the required list holds the JSON
    names of those marked required, in the order of the fields. *)
Theorem ToJSONSchema_describes_root (h : store) (p : ptr) (msg : Message.t) (fuel : nat) :
  h !! p = Some msg → length h ≤ fuel →
  ∃ root, ToJSONSchema fuel h (Some p) = Some root ∧ describes msg root.
Proof.
  intros Hp Hfuel.
  set (w0 := mkWalker ∅ (<[Message.ID msg := "#"]> ∅)).
  destruct (buildObject_ok h (Message.ID msg) (getRef (length h) h) (length h) w0 msg
              (getRef_ok h (Message.ID msg) (length h))
              (walker_ok_init (Message.ID msg)) (unvisited_le_length h w0))
    as (root & w & Hrun & _ & _).
  assert (buildObject h (getRef fuel h) w0 msg = Some (root, w)) as Hrun'.
  { unfold buildObject in Hrun |- *.
    eapply (buildObject_fields_mono h (getRef (length h) h) (getRef fuel h)); [|exact Hrun].
    intros w1 m r. by apply getRef_fuel_le. }
  exists (withDefinitions root (defs w)). split.
  - unfold ToJSONSchema, walkRoot. simpl. rewrite Hp. fold w0. by rewrite Hrun'.
  - destruct (buildObject_describes h _ _ _ _ _ Hrun'). by split.
Qed.

Lemma ToJSONSchema_describes_root_witness :
  ∃ root, ToJSONSchema 2 nestedStore (Some 0) = Some root ∧
          dom (Properties root) = {["child"]} ∧ Required root = [].
Proof.
  destruct (ToJSONSchema_describes_root nestedStore 0 ParentMsg 2 eq_refl)
    as (root & Hroot & Hd); [simpl; lia|].
  exists root. split_and!; [exact Hroot| |].
  - rewrite (d_properties _ _ Hd). vm_compute. reflexivity.
  - rewrite (d_required _ _ Hd). reflexivity.
Defined.

(** X2.  Every entry of the definitions table of [ToJSONSchema] is stored under
    the ID of a message of the store other than the root's, and is the
    object schema that describes that message. *)
Theorem ToJSONSchema_definitions_describe (h : store) (p : ptr) (msg : Message.t)
  (fuel : nat) (root : Schema) :
  h !! p = Some msg →
  ToJSONSchema fuel h (Some p) = Some root →
  ∀ id s, Definitions root !! id = Some s →
    id ≠ Message.ID msg ∧
    ∃ q m, h !! q = Some m ∧ Message.ID m = id ∧ describes m s.
Proof.
  intros Hp. unfold ToJSONSchema, walkRoot. simpl. rewrite Hp.
  set (w0 := mkWalker ∅ (<[Message.ID msg := "#"]> ∅)).
  destruct (buildObject h (getRef fuel h) w0 msg) as [[root0 w]|] eqn:Hrun; [|done].
  simpl. intros [= <-] id s. simpl. intros Hs.
  assert (defs_describe h w) as Hw.
  { unfold buildObject in Hrun.
    eapply (buildObject_fields_keeps h _ (getRef_keeps h fuel)); [|exact Hrun].
    intros id' s'. simpl. by rewrite lookup_empty. }
  split; [|by apply Hw].
  destruct (Hw id s Hs) as (q & m & Hq & Hid & _).
  (* the root keeps its reference "#", so it never gets a definition *)
  assert (∃ n, fuel ≤ n ∧ length h ≤ n) as (n & Hn1 & Hn2) by (exists (fuel + length h); lia).
  assert (buildObject h (getRef n h) w0 msg = Some (root0, w)) as Hrun'.
  { unfold buildObject in Hrun |- *.
    eapply (buildObject_fields_mono h (getRef fuel h) (getRef n h)); [|exact Hrun].
    intros w1 m' r. by apply getRef_fuel_le. }
  destruct (buildObject_ok h (Message.ID msg) (getRef n h) n w0 msg
              (getRef_ok h (Message.ID msg) n) (walker_ok_init (Message.ID msg)))
    as (root1 & w1 & Hrun1 & Hok & _).
  { pose proof (unvisited_le_length h w0). lia. }
  rewrite Hrun' in Hrun1. injection Hrun1 as <- <-.
  intros ->. apply (ok_root_nodef _ _ Hok). apply elem_of_dom. by eexists.
Qed.

(** The definition of [Pong] in the schema of [Ping]. *)
Definition pongSchema : Schema :=
  withProperties (withType empty "object")
    {["ping" := withRef empty "#"; "again" := withRef empty "#/definitions/Pong"]}.

Definition pingSchema : Schema :=
  withDefinitions
    (withProperties (withType empty "object")
       {["pong" := withRef empty "#/definitions/Pong"]})
    {["Pong" := pongSchema]}.

Lemma ToJSONSchema_definitions_describe_witness :
  ∃ q m, pingPongStore !! q = Some m ∧ Message.ID m = "Pong" ∧ describes m pongSchema.
Proof.
  assert (ToJSONSchema 2 pingPongStore (Some 0) = Some pingSchema) as Hroot
    by (vm_compute; reflexivity).
  assert (Definitions pingSchema !! "Pong" = Some pongSchema) as Hpong
    by (vm_compute; reflexivity).
  exact (proj2 (ToJSONSchema_definitions_describe pingPongStore 0 PingMsg 2 pingSchema
                  eq_refl Hroot "Pong" pongSchema Hpong)).
Defined.

(** The schema of a field, by its kind: a map field is an object with the
    schema of its values as additional properties, a repeated field an array
    with the schema of its elements as items, and a singular field has the
    type of its wire type (a message or group field is a reference, which
    says nothing here). *)
Definition fieldShape (f : Field.t) (s : Schema) : Prop :=
  if Field.Map f then
    Type_ s = "object" ∧ is_Some (AdditionalProperties s) ∧ Items s = None ∧
    Description s = Field.Documentation f
  else if Field.Repeated f then
    Type_ s = "array" ∧ is_Some (Items s) ∧ AdditionalProperties s = None ∧
    Description s = Field.Documentation f
  else
    match Field.Typez f with
    | DOUBLE_TYPE | FLOAT_TYPE => Type_ s = "number"
    | INT64_TYPE | UINT64_TYPE | INT32_TYPE | FIXED64_TYPE | FIXED32_TYPE
    | UINT32_TYPE | SFIXED32_TYPE | SFIXED64_TYPE | SINT32_TYPE | SINT64_TYPE =>
        Type_ s = "integer"
    | BOOL_TYPE => Type_ s = "boolean"
    | STRING_TYPE | UNDEFINED_TYPE => Type_ s = "string"
    | BYTES_TYPE => Type_ s = "string" ∧ ContentEncoding s = "base64"
    | ENUM_TYPE =>
        match Field.EnumType f with
        | Some e => Type_ s = "" ∧ Enum s = EnumValue.Name <$> Enum.Values e
        | None => Type_ s = "string"
        end
    | MESSAGE_TYPE | GROUP_TYPE => True
    end.

Section kinds.
Variable h : store.
Variable rec : schemaWalker → option ptr → option (Schema * schemaWalker).

Lemma buildField_shape w f s w' :
  buildField h rec w f = Some (s, w') → fieldShape f s.
Proof.
  unfold buildField, fieldShape. destruct (Field.Map f).
  - destruct (deref h (Field.MessageType f)) as [mt|]; simpl;
      [|intros [= <- <-]; by split_and!].
    destruct (valueFieldOf (Message.Fields mt)) as [subF|]; simpl;
      [|intros [= <- <-]; by split_and!].
    destruct (buildFieldType rec w subF) as [[vs w1]|]; simpl; [|done].
    intros [= <- <-]. by split_and!.
  - destruct (buildFieldType rec w f) as [[s0 w1]|] eqn:Hty; simpl; [|done].
    destruct (Field.Repeated f); intros [= <- <-]; [by split_and!|].
    unfold buildFieldType in Hty.
    destruct (Field.Typez f); try done;
      try (injection Hty as <- <-; by case_bool_decide).
    destruct (Field.EnumType f); injection Hty as <- <-; by case_bool_decide.
Qed.

(** The property under a key no later field writes is the one of the field. *)
Lemma buildObject_fields_other fs : ∀ s w s' w' key,
  buildObject_fields h rec fs s w = Some (s', w') →
  (∀ g, g ∈ exported fs → Field.JSONName g ≠ key) →
  Properties s' !! key = Properties s !! key.
Proof.
  induction fs as [|f fs IH]; intros s w s' w' key; simpl.
  - by intros [= <- <-].
  - unfold outputOnly. case_bool_decide as Hout; simpl; [apply IH|].
    destruct (buildField h rec w f) as [[schema w1]|]; [|done]. simpl.
    intros Hrest Hother.
    rewrite (IH _ _ _ _ key Hrest) by (intros g Hg; apply Hother; by right).
    destruct (Field.DocumentAsRequired f); simpl;
      apply lookup_insert_ne, Hother; by left.
Qed.

Lemma buildObject_fields_property fs : ∀ s w s' w' i f,
  buildObject_fields h rec fs s w = Some (s', w') →
  exported fs !! i = Some f →
  (∀ j g, i < j → exported fs !! j = Some g → Field.JSONName g ≠ Field.JSONName f) →
  ∃ schema, Properties s' !! Field.JSONName f = Some schema ∧ fieldShape f schema.
Proof.
  induction fs as [|f0 fs IH]; intros s w s' w' i f; simpl; [done|].
  unfold outputOnly. case_bool_decide as Hout; simpl; [apply IH|].
  destruct (buildField h rec w f0) as [[schema w1]|] eqn:Hf0; [|done]. simpl.
  intros Hrest Hi Hlast. destruct i as [|i]; simpl in Hi.
  - injection Hi as <-. exists schema. split; [|by eapply buildField_shape].
    rewrite (buildObject_fields_other _ _ _ _ _ _ Hrest).
    + destruct (Field.DocumentAsRequired f0); simpl; apply lookup_insert_eq.
    + intros g [j Hj]%list_elem_of_lookup. apply (Hlast (S j) g); [lia|done].
  - eapply IH; [exact Hrest|exact Hi|].
    intros j g Hlt Hj. apply (Hlast (S j) g); [lia|done].
Qed.

End kinds.

(** X3.  In the schema of a message, the property of an exported field (the last
    one, when several fields share a JSON name) has the shape of the kind of
    the field: an object with additional properties for a map field, an
    array with items for a repeated field, the JSON type of the wire type
    for a singular scalar field, the list of value names for an enum. *)
Theorem ToJSONSchema_property_kinds (h : store) (p : ptr) (msg : Message.t)
  (fuel : nat) (root : Schema) (i : nat) (f : Field.t) :
  h !! p = Some msg →
  ToJSONSchema fuel h (Some p) = Some root →
  exported (Message.Fields msg) !! i = Some f →
  (∀ j g, i < j → exported (Message.Fields msg) !! j = Some g →
          Field.JSONName g ≠ Field.JSONName f) →
  ∃ schema, Properties root !! Field.JSONName f = Some schema ∧ fieldShape f schema.
Proof.
  intros Hp. unfold ToJSONSchema, walkRoot. simpl. rewrite Hp.
  destruct (buildObject h (getRef fuel h) _ msg) as [[root0 w]|] eqn:Hrun; [|done].
  simpl. intros [= <-] Hi Hlast. simpl.
  unfold buildObject in Hrun.
  by eapply (buildObject_fields_property h _ _ _ _ _ _ i f Hrun).
Qed.

(** The message of the test "RepeatedField", and its schema. *)
Definition RepeatedMsg : Message.t :=
  Message.mk "" "RepeatedMsg" ""
    [Field.mk "items" "items" "" STRING_TYPE true false false None None None []] [] None.

Definition repeatedSchema : Schema :=
  withProperties (withType empty "object")
    {["items" := withItems (withType empty "array") (Some (withType empty "string"))]}.

Lemma ToJSONSchema_property_kinds_witness :
  ∃ schema, Properties repeatedSchema !! "items" = Some schema ∧
            Type_ schema = "array" ∧ is_Some (Items schema).
Proof.
  assert (ToJSONSchema 1 [RepeatedMsg] (Some 0) = Some repeatedSchema) as Hroot
    by (vm_compute; reflexivity).
  destruct (ToJSONSchema_property_kinds [RepeatedMsg] 0 RepeatedMsg 1 repeatedSchema 0
              (Field.mk "items" "items" "" STRING_TYPE true false false None None None [])
              eq_refl Hroot eq_refl)
    as (schema & Hschema & Hshape).
  - intros [|j] g Hlt Hj; [lia|]. simpl in Hj. discriminate.
  - exists schema. split; [exact Hschema|]. split; apply Hshape.
Defined.

End schema_facts.

(** ** The gcloud emitter: flags and positional arguments *)

Module script_facts.
Import api gjson gostrings gcloudcmd gcloud.
Local Open Scope nat_scope.

(** The state of the loop over the mappings when it ends. *)
Definition mapped (E : Externals) (jsonStr : JSON) (usedFields : gset string)
  (props : list FlagMapping) : loopState :=
  foldl (mapProperty E jsonStr usedFields) (mkState ∅ []) props.

Lemma gcloudDataOf_unfold E mapping inp :
  gcloudDataOf E mapping inp
  = let jsonStr := ReqData inp in
    let st := mapped E jsonStr (decomposePathParams E inp jsonStr).2 (Properties mapping) in
    let fl := foldl injectFlag (flags st)
                    (rangeMap E (decomposePathParams E inp jsonStr).1) in
    mkData (mfCommand mapping)
           ((λ pos, default "" (posMap st !! pos))
              <$> merge_sort Z.le (map_to_list (posMap st)).*1)
           (markLast (sortSlice E (λ a b, String.ltb (Name a) (Name b)) fl)).
Proof.
  unfold gcloudDataOf, mapped. by destruct (decomposePathParams E inp (ReqData inp)).
Qed.

(** *** A mapping consumed by the path template *)

(** X4.  A mapping whose field path the chosen path template consumed
    contributes nothing: the data handed to the template is the one of the
    mapping file without it. *)
Theorem consumed_mapping_contributes_nothing (E : Externals) (inp : GcloudInput)
  (command messageID : string) (before after : list FlagMapping) (prop : FlagMapping) :
  FieldPath prop ∈ (decomposePathParams E inp (ReqData inp)).2 →
  gcloudDataOf E (mkMappingFile command messageID (before ++ prop :: after)) inp
  = gcloudDataOf E (mkMappingFile command messageID (before ++ after)) inp.
Proof.
  intros Hused. rewrite !gcloudDataOf_unfold. simpl.
  assert (mapped E (ReqData inp) (decomposePathParams E inp (ReqData inp)).2
            (before ++ prop :: after)
          = mapped E (ReqData inp) (decomposePathParams E inp (ReqData inp)).2
              (before ++ after)) as ->; [|done].
  unfold mapped. rewrite !foldl_app. simpl. f_equal.
  unfold mapProperty. by rewrite bool_decide_true.
Qed.

(** The request of [TestGenerateGcloud_BugRepro]: the mapping of [--location]
    to [parent] is consumed by the template [projects/*]. *)
Definition parentRequest : GcloudInput :=
  mkInput (JObject "" [("parent", JString "projects/workspace");
                       ("secretId", JString "my-secret-id")])
          (gcloud_tests.methodWith [gcloud_tests.parentBinding ["projects"; "*"]])
          "out" "gcloud-map.json".

Lemma consumed_mapping_contributes_nothing_witness :
  gcloudDataOf gcloud_tests.testEnv
    (mkMappingFile "gcloud secrets create" ""
       [mkFlagMapping "" (Some 0%Z) "secretId" [];
        mkFlagMapping "--location" None "parent" []]) parentRequest
  = gcloudDataOf gcloud_tests.testEnv
      (mkMappingFile "gcloud secrets create" ""
         [mkFlagMapping "" (Some 0%Z) "secretId" []]) parentRequest.
Proof.
  apply (consumed_mapping_contributes_nothing gcloud_tests.testEnv parentRequest
           "gcloud secrets create" "" [mkFlagMapping "" (Some 0%Z) "secretId" []] []
           (mkFlagMapping "--location" None "parent" [])).
  vm_compute. reflexivity.
Defined.

(** *** The flags *)

(** A flag as the two loops make it: with a value, and not marked last. *)
Definition fresh (f : gcloudFlag) : Prop := Value f ≠ "" ∧ IsLast f = false.

Lemma mapProperty_fresh E jsonStr usedFields st prop :
  Forall fresh (flags st) → Forall fresh (flags (mapProperty E jsonStr usedFields st prop)).
Proof.
  intros Hst. unfold mapProperty. case_bool_decide; [done|].
  destruct (Pos prop); [done|]. case_bool_decide; [|done].
  destruct (bool_decide (_ = "")) eqn:Hempty; simpl; [done|].
  destruct (bool_decide (_ = "null")); simpl; [done|].
  apply Forall_app. split; [done|]. apply Forall_singleton. split; [|done].
  simpl. by apply bool_decide_eq_false in Hempty.
Qed.

Lemma mapped_fresh E jsonStr usedFields props :
  Forall fresh (flags (mapped E jsonStr usedFields props)).
Proof.
  unfold mapped.
  assert (Forall fresh (flags (mkState ∅ []))) as Hinit by apply Forall_nil_2.
  revert Hinit. generalize (mkState ∅ []).
  induction props as [|prop props IH]; intros st Hst; simpl; [done|].
  apply IH. by apply mapProperty_fresh.
Qed.

Lemma injectFlag_fresh fl kv : Forall fresh fl → Forall fresh (injectFlag fl kv).
Proof.
  intros Hfl. unfold injectFlag. case_bool_decide as Hv; [done|].
  destruct (existsb _ fl); [done|].
  apply Forall_app. split; [done|]. by apply Forall_singleton.
Qed.

Lemma injected_fresh l : ∀ fl, Forall fresh fl → Forall fresh (foldl injectFlag fl l).
Proof.
  induction l as [|kv l IH]; intros fl Hfl; simpl; [done|].
  apply IH. by apply injectFlag_fresh.
Qed.

Lemma markLast_length fl : length (markLast fl) = length fl.
Proof.
  induction fl as [|f [|g fl] IH]; simpl in *; [done|done|]. by rewrite IH.
Qed.

(** [markLast] keeps names and values, and marks the last flag only. *)
Lemma markLast_lookup fl : ∀ i f,
  Forall fresh fl → markLast fl !! i = Some f →
  ∃ f0, fl !! i = Some f0 ∧ Name f = Name f0 ∧ Value f = Value f0 ∧
        IsLast f = bool_decide (S i = length fl).
Proof.
  induction fl as [|f0 fl IH]; intros i f Hfl; [done|].
  apply Forall_cons in Hfl as [[Hv Hl] Hfl].
  destruct fl as [|g fl].
  - destruct i as [|i]; simpl; [|done]. intros [= <-]. exists f0. by split_and!.
  - destruct i as [|i].
    + intros [= <-]. exists f0. split_and!; [done..|]. rewrite Hl.
      symmetry. apply bool_decide_eq_false. simpl. lia.
    + change (markLast (f0 :: g :: fl) !! S i) with (markLast (g :: fl) !! i).
      intros Hi. destruct (IH i f Hfl Hi) as (f1 & Hf1 & Hn & Hval & Hlast).
      exists f1. split_and!; [done..|]. rewrite Hlast.
      apply bool_decide_ext. simpl. lia.
Qed.

Lemma emitted_fresh E mapping inp :
  (∀ less l, sortSlice E less l ≡ₚ l) →
  Forall fresh
    (sortSlice E (λ a b, String.ltb (Name a) (Name b))
       (foldl injectFlag
          (flags (mapped E (ReqData inp) (decomposePathParams E inp (ReqData inp)).2
                    (Properties mapping)))
          (rangeMap E (decomposePathParams E inp (ReqData inp)).1))).
Proof.
  intros Hsort. rewrite Hsort. apply injected_fresh, mapped_fresh.
Qed.

(** X5.  No flag of the script has an empty value, whatever the mappings, the
    request and the path variables: a named mapping with an empty value is
    skipped, and so is a path variable with an empty value.  ([sort.Slice]
    is taken to permute the slice.) *)
Theorem flags_have_values (E : Externals) (mapping : gcloudMappingFile)
  (inp : GcloudInput) :
  (∀ less l, sortSlice E less l ≡ₚ l) →
  ∀ f, f ∈ Flags (gcloudDataOf E mapping inp) → Value f ≠ "".
Proof.
  intros Hsort f [i Hi]%list_elem_of_lookup.
  rewrite gcloudDataOf_unfold in Hi. simpl in Hi.
  destruct (markLast_lookup _ i f (emitted_fresh E mapping inp Hsort) Hi)
    as (f0 & Hf0 & _ & Hval & _).
  rewrite Hval.
  pose proof (emitted_fresh E mapping inp Hsort) as Hall.
  rewrite Forall_lookup in Hall. by destruct (Hall i f0 Hf0).
Qed.

Lemma insertionSort_Permutation {A} (less : A → A → bool) (l : list A) :
  gcloud_tests.insertionSort less l ≡ₚ l.
Proof.
  unfold gcloud_tests.insertionSort.
  assert (∀ x acc, gcloud_tests.insertBy less x acc ≡ₚ x :: acc) as Hins.
  { intros x acc. induction acc as [|y acc IH]; simpl; [done|].
    destruct (less x y); [done|]. rewrite IH. apply Permutation_swap. }
  assert (∀ acc, foldl (λ acc x, gcloud_tests.insertBy less x acc) acc l ≡ₚ acc ++ l)
    as Hfold.
  { induction l as [|x l IH]; intros acc; simpl; [by rewrite app_nil_r|].
    rewrite IH, Hins. simpl. apply Permutation_middle. }
  apply (Hfold []).
Qed.

Lemma flags_have_values_witness :
  Forall (λ f, Value f ≠ "")
         (Flags (gcloudDataOf gcloud_tests.testEnv gcloud_tests.skipEmptyMapping
                   gcloud_tests.skipEmptyInput)).
Proof.
  apply Forall_forall.
  apply (flags_have_values gcloud_tests.testEnv gcloud_tests.skipEmptyMapping
           gcloud_tests.skipEmptyInput).
  intros less l. apply insertionSort_Permutation.
Defined.

(** X6.  Exactly the last flag of the script is marked last (the template ends
    the command after it). *)
Theorem last_flag_is_marked (E : Externals) (mapping : gcloudMappingFile)
  (inp : GcloudInput) :
  (∀ less l, sortSlice E less l ≡ₚ l) →
  ∀ i f, Flags (gcloudDataOf E mapping inp) !! i = Some f →
         IsLast f = bool_decide (S i = length (Flags (gcloudDataOf E mapping inp))).
Proof.
  intros Hsort i f Hi. rewrite gcloudDataOf_unfold in Hi |- *. simpl in Hi |- *.
  destruct (markLast_lookup _ i f (emitted_fresh E mapping inp Hsort) Hi)
    as (f0 & _ & _ & _ & Hlast).
  by rewrite markLast_length.
Qed.

Lemma last_flag_is_marked_witness :
  ∃ f g, Flags (gcloudDataOf gcloud_tests.testEnv gcloud_tests.secretsMapping
                  gcloud_tests.secretsInput) !! 2 = Some f ∧ IsLast f = true ∧
         Flags (gcloudDataOf gcloud_tests.testEnv gcloud_tests.secretsMapping
                  gcloud_tests.secretsInput) !! 1 = Some g ∧ IsLast g = false.
Proof.
  assert (∀ less l, sortSlice gcloud_tests.testEnv less l ≡ₚ l) as Hsort
    by (intros less l; apply insertionSort_Permutation).
  pose proof (last_flag_is_marked gcloud_tests.testEnv gcloud_tests.secretsMapping
                gcloud_tests.secretsInput Hsort) as Hlast.
  assert (∃ f, Flags (gcloudDataOf gcloud_tests.testEnv gcloud_tests.secretsMapping
                        gcloud_tests.secretsInput) !! 2 = Some f) as [f Hf]
    by (vm_compute; by eexists).
  assert (∃ g, Flags (gcloudDataOf gcloud_tests.testEnv gcloud_tests.secretsMapping
                        gcloud_tests.secretsInput) !! 1 = Some g) as [g Hg]
    by (vm_compute; by eexists).
  exists f, g. split_and!; [done| |done|].
  - rewrite (Hlast 2 f Hf). vm_compute. reflexivity.
  - rewrite (Hlast 1 g Hg). vm_compute. reflexivity.
Defined.

(** *** The path variables among the flags *)

Lemma markLast_elem fl f :
  f ∈ markLast fl → ∃ f0, f0 ∈ fl ∧ Name f = Name f0 ∧ Value f = Value f0.
Proof.
  induction fl as [|g [|g' fl] IH].
  - by intros ?%elem_of_nil.
  - intros Hin%list_elem_of_singleton. subst f. exists g. split; [by left|done].
  - intros [->|Hin]%elem_of_cons; [exists g; split; [by left|done]|].
    destruct (IH Hin) as (f0 & Hf0 & ?). exists f0. split; [by right|done].
Qed.

Lemma elem_markLast fl f0 :
  f0 ∈ fl → ∃ f, f ∈ markLast fl ∧ Name f = Name f0 ∧ Value f = Value f0.
Proof.
  induction fl as [|g [|g' fl] IH].
  - by intros ?%elem_of_nil.
  - intros Hin%list_elem_of_singleton. subst f0. eexists. split; [by left|done].
  - intros [->|Hin]%elem_of_cons; [exists g; split; [by left|done]|].
    destruct (IH Hin) as (f & Hf & ?). exists f. split; [by right|done].
Qed.

Lemma mapProperty_names E jsonStr usedFields st prop f :
  f ∈ flags (mapProperty E jsonStr usedFields st prop) →
  f ∈ flags st ∨ Name f = Flag prop.
Proof.
  unfold mapProperty. case_bool_decide; [by left|].
  destruct (Pos prop); [by left|]. case_bool_decide; [|by left].
  destruct (_ || _); [by left|]. simpl.
  intros [?|Hf%list_elem_of_singleton]%elem_of_app; [by left|right; by subst f].
Qed.

(** The name of a flag of the loop over the mappings is the flag of a
    mapping. *)
Lemma mapped_names E jsonStr usedFields props f :
  f ∈ flags (mapped E jsonStr usedFields props) →
  ∃ prop, prop ∈ props ∧ Name f = Flag prop.
Proof.
  unfold mapped.
  assert (∀ st, f ∈ flags (foldl (mapProperty E jsonStr usedFields) st props) →
                f ∈ flags st ∨ ∃ prop, prop ∈ props ∧ Name f = Flag prop) as Hgen.
  { induction props as [|prop props IH]; intros st; simpl; [by left|].
    intros [Hin|(q & Hq & ?)]%IH.
    - apply mapProperty_names in Hin as [?|?]; [by left|].
      right. exists prop. split; [by left|done].
    - right. exists q. split; [by right|done]. }
  intros [Hin|?]%Hgen; [|done]. by apply elem_of_nil in Hin.
Qed.

Lemma injectFlag_keeps fl kv f : f ∈ fl → f ∈ injectFlag fl kv.
Proof.
  intros Hin. unfold injectFlag. case_bool_decide; [done|].
  destruct (existsb _ fl); [done|]. apply elem_of_app. by left.
Qed.

Lemma injected_keeps l : ∀ fl f, f ∈ fl → f ∈ foldl injectFlag fl l.
Proof.
  induction l as [|kv l IH]; intros fl f Hin; simpl; [done|].
  by apply IH, injectFlag_keeps.
Qed.

Lemma injectFlag_named fl k v :
  v ≠ "" → ∃ f, f ∈ injectFlag fl (k, v) ∧ Name f = "--" +:+ k.
Proof.
  intros Hv. unfold injectFlag. simpl. rewrite bool_decide_false by done.
  destruct (existsb _ fl) eqn:Hex.
  - apply existsb_exists in Hex as (f & Hin & Hname).
    exists f. split; [by apply list_elem_of_In|]. by apply bool_decide_eq_true in Hname.
  - eexists. split; [apply elem_of_app; right; by left|done].
Qed.

Lemma injected_named l k v : ∀ fl,
  (k, v) ∈ l → v ≠ "" → ∃ f, f ∈ foldl injectFlag fl l ∧ Name f = "--" +:+ k.
Proof.
  induction l as [|kv l IH]; intros fl Hin Hv; [by apply elem_of_nil in Hin|].
  apply elem_of_cons in Hin as [<-|Hin]; simpl; [|by apply IH].
  destruct (injectFlag_named fl k v Hv) as (f & Hf & Hname).
  exists f. split; [by apply injected_keeps|done].
Qed.

(** The flags named after the variable [k] carry the value [v]. *)
Definition carries (k v : string) (fl : list gcloudFlag) : Prop :=
  ∀ f, f ∈ fl → Name f = "--" +:+ k → Value f = v.

Lemma injectFlag_carries k v fl kv :
  (kv.1 = k → kv.2 = v) → carries k v fl → carries k v (injectFlag fl kv).
Proof.
  intros Hkv Hfl. unfold injectFlag. case_bool_decide; [done|].
  destruct (existsb _ fl); [done|].
  intros f [Hin|Hf%list_elem_of_singleton]%elem_of_app; [by apply Hfl|].
  subst f. simpl. intros [= Hk]. by apply Hkv.
Qed.

Lemma injected_carries k v l : ∀ fl,
  (∀ kv, kv ∈ l → kv.1 = k → kv.2 = v) → carries k v fl →
  carries k v (foldl injectFlag fl l).
Proof.
  induction l as [|kv l IH]; intros fl Hl Hfl; simpl; [done|].
  apply IH; [intros kv' Hin; apply Hl; by right|].
  apply injectFlag_carries; [apply Hl; by left|done].
Qed.

(** X7.  Every path variable the chosen template captured with a value that is
    not empty is a flag of the script, [--] followed by the name of the
    variable; unless a mapping declares a flag of that name, its value is
    the captured one.  ([range] is taken to visit every entry of the map
    once, and [sort.Slice] to permute the slice.) *)
Theorem path_variables_become_flags (E : Externals) (mapping : gcloudMappingFile)
  (inp : GcloudInput) (k v : string) :
  (∀ less l, sortSlice E less l ≡ₚ l) →
  (∀ m, rangeMap E m ≡ₚ map_to_list m) →
  (decomposePathParams E inp (ReqData inp)).1 !! k = Some v → v ≠ "" →
  (∃ f, f ∈ Flags (gcloudDataOf E mapping inp) ∧ Name f = "--" +:+ k) ∧
  ((∀ prop, prop ∈ Properties mapping → Flag prop ≠ "--" +:+ k) →
   ∀ f, f ∈ Flags (gcloudDataOf E mapping inp) → Name f = "--" +:+ k → Value f = v).
Proof.
  intros Hsort Hrange Hk Hv. rewrite gcloudDataOf_unfold. simpl.
  set (decomposed := (decomposePathParams E inp (ReqData inp)).1) in *.
  set (st := mapped E (ReqData inp) (decomposePathParams E inp (ReqData inp)).2
               (Properties mapping)).
  split.
  - destruct (injected_named (rangeMap E decomposed) k v (flags st)) as (f0 & Hf0 & Hname);
      [|done|].
    { rewrite Hrange. by apply elem_of_map_to_list. }
    destruct (elem_markLast (sortSlice E (λ a b, String.ltb (Name a) (Name b))
                               (foldl injectFlag (flags st) (rangeMap E decomposed))) f0)
      as (f & Hf & Hn & _); [by rewrite Hsort|].
    exists f. split; [done|]. by rewrite Hn.
  - intros Hnone f (f0 & Hf0 & Hn & Hval)%markLast_elem Hname.
    rewrite Hsort in Hf0. rewrite Hval.
    apply (injected_carries k v (rangeMap E decomposed) (flags st)); [| |done|by rewrite <- Hn].
    + intros [k' v']. rewrite Hrange. intros Hin%elem_of_map_to_list. simpl.
      intros ->. rewrite Hk in Hin. by injection Hin.
    + intros g (prop & Hprop & Hg)%mapped_names Hgname.
      destruct (Hnone prop Hprop). by rewrite <- Hg.
Qed.

Lemma path_variables_become_flags_witness :
  ∃ f, f ∈ Flags (gcloudDataOf gcloud_tests.testEnv
                    (mkMappingFile "gcloud secrets create" ""
                       [mkFlagMapping "" (Some 0%Z) "secretId" []]) parentRequest) ∧
       Name f = "--project".
Proof.
  apply (path_variables_become_flags gcloud_tests.testEnv
           (mkMappingFile "gcloud secrets create" ""
              [mkFlagMapping "" (Some 0%Z) "secretId" []]) parentRequest
           "project" "workspace").
  - intros less l. apply insertionSort_Permutation.
  - intros m. reflexivity.
  - vm_compute. reflexivity.
  - discriminate.
Defined.

(** *** The positional arguments *)

Section positions.
Variable E : Externals.
Variable jsonStr : JSON.
Variable usedFields : gset string.

(** A mapping that binds the position [pos] and is not consumed. *)
Definition binds (pos : Z) (prop : FlagMapping) : Prop :=
  (FieldPath prop ∉ usedFields) ∧ Pos prop = Some pos.

Lemma mapProperty_posMap st prop pos :
  posMap (mapProperty E jsonStr usedFields st prop) !! pos
  = if bool_decide (binds pos prop)
    then Some (flagValue E prop (Get E jsonStr (FieldPath prop)))
    else posMap st !! pos.
Proof.
  unfold mapProperty, binds.
  destruct (decide (FieldPath prop ∈ usedFields)) as [Hused|Hused].
  - rewrite (bool_decide_true _ Hused). rewrite bool_decide_false; [done|].
    by intros [? _].
  - rewrite (bool_decide_false _ Hused). destruct (Pos prop) as [q|] eqn:Hpos.
    + simpl. destruct (decide (q = pos)) as [->|Hne].
      * rewrite bool_decide_true by done. apply lookup_insert_eq.
      * rewrite bool_decide_false by (intros [_ [= ?]]; done).
        by apply lookup_insert_ne.
    + rewrite (bool_decide_false (_ ∧ _)) by (by intros [_ ?]).
      destruct (bool_decide (Flag prop ≠ "")); [|done]. by destruct (_ || _).
Qed.

Lemma posMap_unbound props pos : ∀ st,
  (∀ prop, prop ∈ props → ¬ binds pos prop) →
  posMap (foldl (mapProperty E jsonStr usedFields) st props) !! pos = posMap st !! pos.
Proof.
  induction props as [|prop props IH]; intros st Hnone; simpl; [done|].
  rewrite IH by (intros q Hq; apply Hnone; by right).
  rewrite mapProperty_posMap, bool_decide_false; [done|]. apply Hnone. by left.
Qed.

Lemma posMap_last before prop after pos st :
  binds pos prop → (∀ later, later ∈ after → ¬ binds pos later) →
  posMap (foldl (mapProperty E jsonStr usedFields) st (before ++ prop :: after)) !! pos
  = Some (flagValue E prop (Get E jsonStr (FieldPath prop))).
Proof.
  intros Hprop Hafter. rewrite foldl_app. simpl.
  rewrite posMap_unbound by done.
  by rewrite mapProperty_posMap, bool_decide_true.
Qed.

Lemma posMap_bound props pos : ∀ st,
  is_Some (posMap (foldl (mapProperty E jsonStr usedFields) st props) !! pos)
  ↔ is_Some (posMap st !! pos) ∨ ∃ prop, prop ∈ props ∧ binds pos prop.
Proof.
  induction props as [|prop props IH]; intros st; simpl.
  - split; [by left|]. intros [?|(prop & Hin & _)]; [done|]. by apply elem_of_nil in Hin.
  - etrans; [apply IH|]. rewrite mapProperty_posMap. case_bool_decide as Hb.
    + split; [|by eauto]. intros _. right. exists prop. split; [by left|done].
    + split.
      * intros [?|(q & Hq & ?)]; [by left|]. right. exists q. split; [by right|done].
      * intros [?|(q & Hq & ?)]; [by left|].
        apply elem_of_cons in Hq as [->|Hq]; [done|]. right. by exists q.
Qed.

End positions.

Lemma StronglySorted_le_lt (l : list Z) :
  NoDup l → StronglySorted Z.le l → StronglySorted Z.lt l.
Proof.
  induction 2 as [|x l Hl IH Hx]; [constructor|].
  apply NoDup_cons in H as [Hnotin Hnd]. constructor; [by apply IH|].
  rewrite Forall_forall in Hx |- *. intros y Hy.
  assert (x ≠ y) by (intros ->; done). specialize (Hx y Hy). lia.
Qed.

(** X8.  The positional arguments of the script are those of the positions the
    mappings bind, in ascending order of position and one for each position:
    the argument at a position is the value of the last mapping that binds
    it, whatever the value (an empty value is an argument too). *)
Theorem positional_arguments_follow_positions (E : Externals)
  (mapping : gcloudMappingFile) (inp : GcloudInput) :
  ∃ positions : list Z,
    StronglySorted Z.lt positions ∧
    (∀ pos, pos ∈ positions
            ↔ ∃ prop, prop ∈ Properties mapping ∧
                      binds (decomposePathParams E inp (ReqData inp)).2 pos prop) ∧
    length (PositionalArgs (gcloudDataOf E mapping inp)) = length positions ∧
    ∀ i pos before prop after,
      positions !! i = Some pos →
      Properties mapping = (before ++ prop :: after)%list →
      binds (decomposePathParams E inp (ReqData inp)).2 pos prop →
      (∀ later, later ∈ after →
                ¬ binds (decomposePathParams E inp (ReqData inp)).2 pos later) →
      PositionalArgs (gcloudDataOf E mapping inp) !! i
      = Some (flagValue E prop (Get E (ReqData inp) (FieldPath prop))).
Proof.
  rewrite gcloudDataOf_unfold. simpl.
  set (used := (decomposePathParams E inp (ReqData inp)).2).
  set (st := mapped E (ReqData inp) used (Properties mapping)).
  exists (merge_sort Z.le (map_to_list (posMap st)).*1).
  assert (merge_sort Z.le (map_to_list (posMap st)).*1 ≡ₚ (map_to_list (posMap st)).*1)
    as Hperm by apply merge_sort_Permutation.
  split_and!.
  - apply StronglySorted_le_lt.
    + rewrite Hperm. apply NoDup_fst_map_to_list.
    + apply (StronglySorted_merge_sort Z.le).
  - intros pos. rewrite Hperm.
    etrans; [|etrans; [apply (posMap_bound E (ReqData inp) used (Properties mapping) pos
                                (mkState ∅ []))|]].
    + fold (mapped E (ReqData inp) used (Properties mapping)). fold st.
      rewrite list_elem_of_fmap. split.
      * intros ([q v] & -> & Hin). apply elem_of_map_to_list in Hin. by exists v.
      * intros [v Hv]. exists (pos, v). split; [done|]. by apply elem_of_map_to_list.
    + simpl. rewrite lookup_empty. split; [|by right].
      intros [[? [=]]|?]; done.
  - by rewrite length_fmap.
  - intros i pos before prop after Hi Hsplit Hprop Hafter.
    rewrite list_lookup_fmap, Hi. simpl. unfold st, mapped. rewrite Hsplit.
    by rewrite (posMap_last E (ReqData inp) used before prop after pos).
Qed.

(** Two mappings of position 0 and one of position 1, in the order 1, 0, 0:
    the arguments are the value of the second mapping of position 0, then
    the one of position 1. *)
Definition positionalMapping : gcloudMappingFile :=
  mkMappingFile "gcloud secrets create" ""
    [mkFlagMapping "" (Some 1%Z) "parent" [];
     mkFlagMapping "" (Some 0%Z) "parent" [];
     mkFlagMapping "" (Some 0%Z) "secretId" []].

Definition positionalRequest : GcloudInput :=
  mkInput (JObject "" [("parent", JString "projects/workspace");
                       ("secretId", JString "my-secret-id")])
          None "out" "gcloud-map.json".

Lemma positional_arguments_follow_positions_witness :
  PositionalArgs (gcloudDataOf gcloud_tests.testEnv positionalMapping positionalRequest)
  !! 0 = Some "my-secret-id".
Proof.
  destruct (positional_arguments_follow_positions gcloud_tests.testEnv
              positionalMapping positionalRequest)
    as (positions & Hsorted & Hmem & Hlen & Hval).
  assert (positions !! 0 = Some 0%Z) as H0.
  { assert (0%Z ∈ positions) as Hin0.
    { apply Hmem. exists (mkFlagMapping "" (Some 0%Z) "secretId" []).
      split; [set_solver|]. split; [vm_compute; set_solver|done]. }
    assert (1%Z ∈ positions) as Hin1.
    { apply Hmem. exists (mkFlagMapping "" (Some 1%Z) "parent" []).
      split; [set_solver|]. split; [vm_compute; set_solver|done]. }
    assert (∀ pos, pos ∈ positions → pos = 0%Z ∨ pos = 1%Z) as Hall.
    { intros pos (prop & Hin & _ & Hpos)%Hmem. simpl in Hin.
      repeat (apply elem_of_cons in Hin as [->|Hin]); simpl in Hpos;
        [injection Hpos; auto..|by apply elem_of_nil in Hin]. }
    destruct positions as [|a positions]; [by apply elem_of_nil in Hin0|].
    simpl. f_equal. apply StronglySorted_inv in Hsorted as [_ Hlt].
    rewrite Forall_forall in Hlt.
    apply elem_of_cons in Hin0 as [<-|Hin0]; [done|].
    specialize (Hlt _ Hin0). destruct (Hall a) as [->| ->]; [by left|done|lia]. }
  apply (Hval 0 0%Z [mkFlagMapping "" (Some 1%Z) "parent" [];
                     mkFlagMapping "" (Some 0%Z) "parent" []]
              (mkFlagMapping "" (Some 0%Z) "secretId" []) [] H0 eq_refl).
  - split; [vm_compute; set_solver|done].
  - intros later Hin. by apply elem_of_nil in Hin.
Defined.

End script_facts.

(** ** The path matcher: the length of the value *)

Module matcher_bounds.
Import gostrings gcloud.
Local Open Scope nat_scope.

Lemma Split_cons (s : string) (sep : ascii) : ∃ p ps, Split s sep = p :: ps.
Proof.
  destruct s as [|c s]; simpl; [by eauto|].
  case_bool_decide; [by eauto|]. destruct (Split s sep); by eauto.
Qed.

(** Splitting at an occurrence of the separator. *)
Lemma Split_at (s rest : string) (sep : ascii) :
  Split (s +:+ String sep rest) sep = (Split s sep ++ Split rest sep)%list.
Proof.
  induction s as [|c s IH]; simpl.
  - by rewrite bool_decide_true.
  - case_bool_decide; [by rewrite IH|]. rewrite IH.
    by destruct (Split_cons s sep) as (p & ps & ->).
Qed.

Lemma matchPath_loop_more parts more : ∀ segments lastLiteral captured result,
  matchPath_loop parts segments lastLiteral captured = Some result →
  matchPath_loop (parts ++ more) segments lastLiteral captured = Some result.
Proof.
  induction parts as [|part parts IH]; intros segments lastLiteral captured result.
  - destruct segments; [|done]. simpl. intros [= <-]. by destruct more.
  - destruct segments as [|seg segments]; simpl; [done|].
    destruct (isWildcard seg); [apply IH|].
    case_bool_decide; [apply IH|done].
Qed.

Lemma matchPath_loop_short parts : ∀ segments lastLiteral captured,
  length parts < length segments →
  matchPath_loop parts segments lastLiteral captured = None.
Proof.
  induction parts as [|part parts IH]; intros segments lastLiteral captured Hlen.
  - destruct segments; [simpl in Hlen; lia|done].
  - destruct segments as [|seg segments]; simpl in *; [lia|].
    destruct (isWildcard seg); [apply IH; lia|].
    case_bool_decide; [apply IH; lia|done].
Qed.

(** X9.  [matchPath] matches a prefix: when a value matches a pattern, so does
    the value followed by a slash and anything else, with the same
    captures.  What follows the matched parts is never looked at. *)
Theorem matchPath_ignores_trailing_parts (value rest : string)
  (segments : list string) (captured : gmap string string) :
  matchPath value segments = Some captured →
  matchPath (value +:+ "/" +:+ rest) segments = Some captured.
Proof.
  unfold matchPath. intros Hm.
  change ("/" +:+ rest) with (String "/" rest). rewrite Split_at.
  by apply matchPath_loop_more.
Qed.

Lemma matchPath_ignores_trailing_parts_witness :
  matchPath "projects/p1/secrets/s1" ["projects"; "*"] = Some {["project" := "p1"]}.
Proof.
  apply (matchPath_ignores_trailing_parts "projects/p1" "secrets/s1" ["projects"; "*"]).
  vm_compute. reflexivity.
Defined.

(** X10.  A value with fewer slash-delimited parts than the pattern has tokens
    does not match, whatever the tokens are. *)
Theorem matchPath_needs_a_part_for_every_token (value : string)
  (segments : list string) :
  length (Split value "/") < length segments → matchPath value segments = None.
Proof. apply matchPath_loop_short. Qed.

Lemma matchPath_needs_a_part_for_every_token_witness :
  matchPath "projects" ["projects"; "*"] = None.
Proof.
  apply (matchPath_needs_a_part_for_every_token "projects" ["projects"; "*"]).
  simpl. lia.
Defined.

End matcher_bounds.

(** ** The Go emitter: names, imports and the rendering of a request *)

Module literal_facts.
Import api gostrings goany golang.
Local Open Scope nat_scope.

(** *** [toPascalCase] *)

Lemma append_cons (x : ascii) (a b : string) : String x a +:+ b = String x (a +:+ b).
Proof. reflexivity. Qed.

Lemma append_assoc (a b c : string) : (a +:+ b) +:+ c = a +:+ (b +:+ c).
Proof. induction a as [|x a IH]; [done|]. by rewrite !append_cons, IH. Qed.

Lemma append_nil_r (a : string) : a +:+ "" = a.
Proof. induction a as [|x a IH]; [done|]. by rewrite append_cons, IH. Qed.

Lemma concat_nil_cons (x : string) (xs : list string) :
  String.concat "" (x :: xs) = x +:+ String.concat "" xs.
Proof. destruct xs as [|y xs]; simpl; [|done]. by rewrite append_nil_r. Qed.

Lemma concat_nil_app (l1 l2 : list string) :
  String.concat "" (l1 ++ l2) = String.concat "" l1 +:+ String.concat "" l2.
Proof.
  induction l1 as [|x l1 IH]; [done|].
  change ((x :: l1) ++ l2)%list with (x :: (l1 ++ l2))%list.
  by rewrite !concat_nil_cons, IH, append_assoc.
Qed.

(** X11.  [toPascalCase] works word by word: the words around an underscore are
    converted on their own and joined, and the underscore is dropped. *)
Theorem toPascalCase_joins_words (E : Externals) (a b : string) :
  toPascalCase E (a +:+ "_" +:+ b) = toPascalCase E a +:+ toPascalCase E b.
Proof.
  unfold toPascalCase, Join.
  change ("_" +:+ b) with (String "_" b).
  rewrite matcher_bounds.Split_at, fmap_app. apply concat_nil_app.
Qed.

(** *** [getGoTypeName] *)

(** The names of the messages that enclose a message, outermost first; the
    outermost one is left out when it stands for a service. *)
Fixpoint enclosing (parent : Ancestor) : list string :=
  match parent with
  | mkAncestor name servicePlaceholder grandparent =>
      match grandparent with
      | None => if servicePlaceholder then [] else [name]
      | Some g => (enclosing g ++ [name])%list
      end
  end.

Lemma Join_last (l : list string) (a b sep : string) :
  Join (l ++ [a; b]) sep = Join (l ++ [a +:+ sep +:+ b]) sep.
Proof.
  unfold Join. induction l as [|x l IH]; simpl; [done|].
  destruct l as [|y l]; simpl in *; [done|]. by rewrite IH.
Qed.

Lemma qualifyFrom_joins : ∀ (parent : Ancestor) (typeName : string),
  qualifyFrom parent typeName = Join (enclosing parent ++ [typeName]) "_".
Proof.
  fix IH 1. intros [name servicePlaceholder [g|]] typeName; simpl.
  - rewrite IH, <- app_assoc. simpl. by rewrite Join_last.
  - by destruct servicePlaceholder.
Qed.

(** X12.  The Go name of a message type is the package name, a dot, and the names
    of the enclosing messages and of the message joined by underscores,
    outermost first; an outermost service placeholder is not part of it. *)
Theorem getGoTypeName_joins_enclosing_names (msg : Message.t) (protoPkgName : string) :
  getGoTypeName msg protoPkgName
  = protoPkgName +:+ "." +:+
    Join (match Message.Parent msg with
          | Some parent => enclosing parent
          | None => []
          end ++ [Message.Name msg]) "_".
Proof.
  unfold getGoTypeName, qualify. destruct (Message.Parent msg) as [parent|]; [|done].
  by rewrite qualifyFrom_joins.
Qed.

(** *** [removeDuplicateStr] *)

(** The loop of [removeDuplicateStr]: the keys seen and the list built. *)
Fixpoint removeDuplicateStr_loop (strSlice : list string) (allKeys : gset string)
  (list_ : list string) : list string :=
  match strSlice with
  | [] => list_
  | item :: rest =>
      if bool_decide (item ∈ allKeys) then removeDuplicateStr_loop rest allKeys list_
      else removeDuplicateStr_loop rest ({[item]} ∪ allKeys) (list_ ++ [item])
  end.

Definition removeDuplicateStr (strSlice : list string) : list string :=
  removeDuplicateStr_loop strSlice ∅ [].

(** The first occurrences of the elements of a list. *)
Fixpoint firsts (l : list string) : list string :=
  match l with
  | [] => []
  | x :: l' => x :: filter (λ y, y ≠ x) (firsts l')
  end.

Lemma removeDuplicateStr_loop_firsts strSlice : ∀ allKeys list_,
  removeDuplicateStr_loop strSlice allKeys list_
  = (list_ ++ filter (λ y, y ∉ allKeys) (firsts strSlice))%list.
Proof.
  induction strSlice as [|item rest IH]; intros allKeys list_; simpl.
  - by rewrite app_nil_r.
  - case_bool_decide as Hseen.
    + rewrite IH. f_equal. rewrite filter_cons_False by (intros Hn; by apply Hn).
      rewrite list_filter_filter. apply list_filter_iff. intros y. split; [|by intros []].
      intros Hy. split; [done|]. by intros ->.
    + rewrite IH, <- app_assoc. simpl. f_equal.
      rewrite filter_cons_True by done. f_equal.
      rewrite list_filter_filter. apply list_filter_iff. intros y. set_solver.
Qed.

Lemma elem_of_firsts l x : x ∈ firsts l ↔ x ∈ l.
Proof.
  induction l as [|y l IH]; simpl; [done|].
  rewrite !elem_of_cons, list_elem_of_filter, IH.
  destruct (decide (x = y)); naive_solver.
Qed.

Lemma NoDup_firsts l : NoDup (firsts l).
Proof.
  induction l as [|y l IH]; simpl; [constructor|].
  apply NoDup_cons. split; [|by apply NoDup_filter].
  rewrite list_elem_of_filter. by intros [? _].
Qed.

Lemma removeDuplicateStr_firsts l : removeDuplicateStr l = firsts l.
Proof.
  unfold removeDuplicateStr. rewrite removeDuplicateStr_loop_firsts. simpl.
  transitivity (filter (λ _ : string, True) (firsts l)).
  - apply list_filter_iff. intros y. set_solver.
  - induction (firsts l) as [|z zs IHz]; [done|].
    rewrite filter_cons_True by done. by rewrite IHz.
Qed.

(** X13.  [removeDuplicateStr] keeps the first occurrence of every string and
    drops the later ones: the result has no duplicates and the elements of
    the input, and the result for a list that starts with [x] is [x]
    followed by the result for the rest without [x]. *)
Theorem removeDuplicateStr_keeps_first_occurrences (strSlice : list string) :
  NoDup (removeDuplicateStr strSlice) ∧
  (∀ x, x ∈ removeDuplicateStr strSlice ↔ x ∈ strSlice) ∧
  (∀ x rest, strSlice = x :: rest →
     removeDuplicateStr strSlice = x :: filter (λ y, y ≠ x) (removeDuplicateStr rest)).
Proof.
  pose proof removeDuplicateStr_firsts as Hfirsts.
  rewrite !Hfirsts. split_and!.
  - apply NoDup_firsts.
  - apply elem_of_firsts.
  - intros x rest ->. by rewrite Hfirsts.
Qed.

Lemma removeDuplicateStr_keeps_first_occurrences_witness :
  removeDuplicateStr ["a"; "b"; "a"; "c"; "b"] = ["a"; "b"; "c"].
Proof.
  destruct (removeDuplicateStr_keeps_first_occurrences ["a"; "b"; "a"; "c"; "b"])
    as (_ & _ & Hfirst).
  rewrite (Hfirst "a" ["b"; "a"; "c"; "b"] eq_refl). vm_compute. reflexivity.
Defined.

(** *** The rendering of a flat message *)

(** A field that gets a wrapper: a member of a oneof group. *)
Definition wrapped (f : Field.t) : bool :=
  Field.IsOneOf f && bool_decide (is_Some (Field.Group f)).

(** A singular scalar field outside of any oneof group. *)
Definition flat (f : Field.t) : bool :=
  negb (Field.Repeated f) && negb (Field.Map f) &&
  negb (bool_decide (Field.Typez f = MESSAGE_TYPE)) && negb (wrapped f).

(** The line of a field in the literal of a message: nothing when the
    request does not have the field. *)
Definition fieldLine (E : Externals) (data : list (string * any)) (f : Field.t)
  : option string :=
  (λ val, toPascalCase E (Field.Name f) +:+ ": "
          +:+ formatPrimitive E val (typeStrOf f) +:+ "," +:+ nl)
  <$> fieldValue data f.

Definition flatNode (E : Externals) (data : list (string * any)) (f : Field.t)
  : option FieldNode :=
  (λ val, primitiveNode (toPascalCase E (Field.Name f))
                        (formatPrimitive E val (typeStrOf f)))
  <$> fieldValue data f.

Lemma wrapOneOf_unwrapped E h protoPkg msg f node :
  wrapped f = false → wrapOneOf E h protoPkg msg f node = node.
Proof.
  unfold wrapped, wrapOneOf. destruct (Field.IsOneOf f); [|done].
  destruct (Field.Group f); [|done]. by simpl.
Qed.

Lemma flat_inv f :
  flat f = true →
  Field.Repeated f = false ∧ Field.Map f = false ∧ Field.Typez f ≠ MESSAGE_TYPE ∧
  wrapped f = false.
Proof.
  unfold flat. intros H.
  apply andb_prop in H as [H H0]. apply andb_prop in H as [H H1].
  apply andb_prop in H as [H H2].
  repeat match goal with H : negb _ = true |- _ => apply negb_true_iff in H end.
  split_and!; [done..| |done]. by apply bool_decide_eq_false in H1.
Qed.

Lemma buildNode_flat E h protoPkg rec f val :
  flat f = true →
  buildNode E h protoPkg rec f val
  = Done (Some (primitiveNode (toPascalCase E (Field.Name f))
                              (formatPrimitive E val (typeStrOf f)))).
Proof.
  intros (Hrep & Hmap & Hty & _)%flat_inv. unfold buildNode. rewrite Hrep, Hmap.
  by destruct (Field.Typez f).
Qed.

Lemma omap_step {A B} (f : A → option B) (x : A) (l : list A) :
  omap f (x :: l) = match f x with Some y => y :: omap f l | None => omap f l end.
Proof. reflexivity. Qed.

Lemma buildChildren_flat E h protoPkg rec msg data fields :
  Forall (λ f, flat f = true) fields →
  buildChildren E h protoPkg rec msg data fields = Done (omap (flatNode E data) fields).
Proof.
  induction 1 as [|f fields Hf _ IH]; [done|].
  cbn [buildChildren]. rewrite omap_step. unfold flatNode at 1.
  destruct (fieldValue data f) as [val|]; simpl; [|done].
  rewrite (buildNode_flat _ _ _ _ _ _ Hf), IH. simpl.
  rewrite wrapOneOf_unwrapped; [done|]. by apply flat_inv in Hf as (_ & _ & _ & ?).
Qed.

Lemma flat_lines E data fields :
  List.map (λ child, Name child +:+ ": " +:+ Render E child +:+ "," +:+ nl)
           (omap (flatNode E data) fields)
  = omap (fieldLine E data) fields.
Proof.
  induction fields as [|f fields IH]; [done|].
  rewrite !omap_step. unfold flatNode at 1, fieldLine at 1.
  destruct (fieldValue data f) as [val|]; simpl; [|done]. by rewrite <- IH.
Qed.

(** X14.  The literal of a message whose fields are all singular scalars outside
    of oneof groups: the type, and one line for every field the request
    has, in the order of the schema, with the Pascal-case name of the field
    and its value formatted for the type of the field. *)
Theorem flat_message_renders_a_line_per_field (E : Externals) (h : store)
  (protoPkg : string) (msg : option ptr) (m : Message.t) (data : list (string * any))
  (fuel : nat) :
  deref h msg = Some m →
  Forall (λ f, flat f = true) (Message.Fields m) →
  ∃ root,
    buildRequestInit E (S fuel) h protoPkg msg data = Done root ∧
    Render E root
    = "&" +:+ getGoTypeName m (protoPkgNameOf protoPkg) +:+ "{" +:+ nl
      +:+ String.concat "" (omap (fieldLine E data) (Message.Fields m)) +:+ "}".
Proof.
  intros Hm Hflat. cbn [buildRequestInit]. rewrite Hm. unfold buildRequestInit_body.
  destruct data as [|kv data].
  - simpl. eexists. split; [done|]. cbn [Render IsMessage TypeName Children List.map].
    replace (omap (fieldLine E []) (Message.Fields m)) with (@nil string); [done|].
    clear. induction (Message.Fields m) as [|f fields IH]; [done|].
    rewrite omap_step. unfold fieldLine at 1, fieldValue, index. simpl.
    by case_bool_decide.
  - rewrite bool_decide_false by done.
    rewrite (buildChildren_flat _ _ _ _ _ _ _ Hflat). simpl.
    eexists. split; [done|]. cbn [Render IsMessage TypeName Children].
    by rewrite flat_lines.
Qed.

Lemma flat_message_renders_a_line_per_field_witness :
  ∃ root,
    buildRequestInit golang_tests.testEnv 1 golang_tests.testStore golang_tests.protoPkg
                     (Some 1) [("foo", Str "childBar")] = Done root ∧
    Render golang_tests.testEnv root
    = "&librarypb.ChildMsg{" +:+ nl +:+ "Foo: " +:+ dq +:+ "childBar" +:+ dq +:+ ","
      +:+ nl +:+ "}".
Proof.
  apply (flat_message_renders_a_line_per_field golang_tests.testEnv
           golang_tests.testStore golang_tests.protoPkg (Some 1) golang_tests.ChildMsg
           [("foo", Str "childBar")] 0 eq_refl).
  repeat constructor.
Defined.

(** *** The children of repeated, map and message fields *)

Section members.
Variable E : Externals.
Variable h : store.
Variable protoPkg : string.
Variable rec : option ptr → list (string * any) → outcome FieldNode.

(** When the loop over the fields returns, the node of every field the
    request has was built, and is among the children. *)
Lemma buildChildren_member msg data fields children f val :
  buildChildren E h protoPkg rec msg data fields = Done children →
  f ∈ fields → fieldValue data f = Some val →
  ∃ node, buildNode E h protoPkg rec f val = Done node ∧
          ∀ n, node = Some n → wrapOneOf E h protoPkg msg f n ∈ children.
Proof.
  revert children. induction fields as [|g fields IH]; intros children Hrun Hin Hval.
  - by apply elem_of_nil in Hin.
  - cbn [buildChildren] in Hrun.
    assert (∀ rest, buildChildren E h protoPkg rec msg data fields = Done rest →
                    (∀ x, x ∈ rest → x ∈ children) → f ∈ fields →
                    ∃ node, buildNode E h protoPkg rec f val = Done node ∧
                            ∀ n, node = Some n →
                                 wrapOneOf E h protoPkg msg f n ∈ children) as Htail.
    { intros rest Hrest Hsub Hf. destruct (IH rest Hrest Hf Hval) as (node & Hnode & Hn).
      exists node. split; [done|]. intros n Hsome. by apply Hsub, Hn. }
    destruct (fieldValue data g) as [gval|] eqn:Hg.
    + destruct (buildNode E h protoPkg rec g gval) as [gnode| |] eqn:Hgnode; [|done..].
      simpl in Hrun.
      destruct (buildChildren E h protoPkg rec msg data fields) as [rest| |] eqn:Hrest;
        [|done..].
      simpl in Hrun. injection Hrun as <-.
      apply elem_of_cons in Hin as [->|Hin].
      * rewrite Hg in Hval. injection Hval as <-. exists gnode. split; [done|].
        intros n ->. by left.
      * apply (Htail rest eq_refl); [|done]. intros x Hx. destruct gnode; [by right|done].
    + apply elem_of_cons in Hin as [->|Hin]; [congruence|].
      by apply (Htail children Hrun).
Qed.

Lemma buildEntries_scalar valueField valTypeStr entries :
  buildEntries E rec valueField valTypeStr false entries
  = Done ((λ kv, (kv.1, primitiveNode "" (formatPrimitive E kv.2 valTypeStr))) <$> entries).
Proof.
  induction entries as [|[k v] entries IH]; [done|].
  cbn [buildEntries]. by rewrite IH.
Qed.

Lemma buildItems_scalar field elemType items :
  Field.Typez field ≠ MESSAGE_TYPE →
  buildItems E rec field elemType items
  = Done ((λ item, primitiveNode "" (formatPrimitive E item elemType)) <$> items).
Proof.
  intros Hty. induction items as [|item items IH]; [done|].
  cbn [buildItems]. rewrite bool_decide_false by done. by rewrite IH.
Qed.

End members.

(** The children of the root that [buildRequestInit] returns, for a request
    that has the field [f]. *)
Lemma buildRequestInit_member E fuel h protoPkg msg m data root f val :
  deref h msg = Some m →
  buildRequestInit E fuel h protoPkg msg data = Done root →
  f ∈ Message.Fields m → fieldValue data f = Some val →
  ∃ n node, fuel = S n ∧
    buildNode E h protoPkg (buildRequestInit E n h protoPkg) f val = Done node ∧
    ∀ child, node = Some child → wrapOneOf E h protoPkg m f child ∈ Children root.
Proof.
  intros Hm Hrun Hf Hval. destruct fuel as [|n]; [done|].
  cbn [buildRequestInit] in Hrun. rewrite Hm in Hrun. unfold buildRequestInit_body in Hrun.
  destruct data as [|kv data].
  { unfold fieldValue, index in Hval. simpl in Hval. by case_bool_decide. }
  rewrite bool_decide_false in Hrun by done.
  destruct (buildChildren E h protoPkg (buildRequestInit E n h protoPkg) m (kv :: data)
              (Message.Fields m)) as [children| |] eqn:Hchildren; [|done..].
  simpl in Hrun. injection Hrun as <-. simpl.
  destruct (buildChildren_member _ _ _ _ _ _ _ _ _ _ Hchildren Hf Hval) as (node & Hnode & Hin).
  by exists n, node.
Qed.

(** X15.  A value of a map field is a quoted string unless it is a message: a map
    whose values are declared of any other type (a number, a boolean, an
    enum) is emitted as a [map[string]string], with every entry of the
    request, in the order of the iteration, and every value formatted with
    [%q]. *)
Theorem map_values_are_quoted_strings (E : Externals) (fuel : nat) (h : store)
  (protoPkg : string) (msg : option ptr) (m : Message.t) (data : list (string * any))
  (root : FieldNode) (field : Field.t) (entryType : Message.t) (valueField : Field.t)
  (entries : list (string * any)) :
  deref h msg = Some m →
  buildRequestInit E fuel h protoPkg msg data = Done root →
  field ∈ Message.Fields m →
  Field.Repeated field = false → Field.Map field = true → wrapped field = false →
  deref h (Field.MessageType field) = Some entryType →
  valueFieldOf (Message.Fields entryType) = Some valueField →
  Field.Typez valueField ≠ MESSAGE_TYPE ∨ deref h (Field.MessageType valueField) = None →
  fieldValue data field = Some (MapAny entries) →
  mkNode (toPascalCase E (Field.Name field)) "map[string]string" None
         false false true false [] []
         ((λ kv, (kv.1, primitiveNode "" (Sprintf_q E kv.2))) <$> entries)
  ∈ Children root.
Proof.
  intros Hm Hrun Hf Hrep Hmap Hwrap Hentry Hvalue Hscalar Hval.
  destruct (buildRequestInit_member _ _ _ _ _ _ _ _ _ _ Hm Hrun Hf Hval)
    as (n & node & -> & Hnode & Hin).
  rewrite <- (wrapOneOf_unwrapped E h protoPkg m field _ Hwrap). apply Hin.
  unfold buildNode in Hnode. rewrite Hrep, Hmap, Hentry, Hvalue in Hnode.
  assert (valTypeOf h valueField (protoPkgNameOf protoPkg) = ("string", false)) as Hty.
  { unfold valTypeOf. destruct Hscalar as [Hty|Hnone].
    - by destruct (Field.Typez valueField).
    - rewrite Hnone. by destruct (Field.Typez valueField). }
  rewrite Hty, buildEntries_scalar in Hnode. simpl in Hnode.
  by injection Hnode as <-.
Qed.

(** The root of the test "Map". *)
Definition labelsRoot : FieldNode :=
  Eval vm_compute in
    match buildRequestInit golang_tests.testEnv 1 golang_tests.testStore
                           golang_tests.protoPkg (Some 0)
                           [("labels", MapAny [("k1", Str "v1")])] with
    | Done root => root
    | _ => emptyNode
    end.

Lemma map_values_are_quoted_strings_witness :
  mkNode "Labels" "map[string]string" None false false true false [] []
         [("k1", primitiveNode "" (dq +:+ "v1" +:+ dq))]
  ∈ Children labelsRoot.
Proof.
  apply (map_values_are_quoted_strings golang_tests.testEnv 1 golang_tests.testStore
           golang_tests.protoPkg (Some 0) golang_tests.TestMsg
           [("labels", MapAny [("k1", Str "v1")])] labelsRoot
           (Field.mk "labels" "" "" MESSAGE_TYPE false true false None (Some 2) None [])
           golang_tests.LabelsEntry (golang_tests.scalarField "value" "" STRING_TYPE)
           [("k1", Str "v1")]);
    try reflexivity.
  - unfold golang_tests.TestMsg. simpl. set_solver.
  - left. discriminate.
Defined.

(** X16.  Every element of the array of a repeated field that is no message field
    gives an item, in the order of the array, formatted for the element
    type of the field; the type of the node is the slice of that type. *)
Theorem repeated_scalars_keep_every_element (E : Externals) (fuel : nat) (h : store)
  (protoPkg : string) (msg : option ptr) (m : Message.t) (data : list (string * any))
  (root : FieldNode) (field : Field.t) (items : list any) :
  deref h msg = Some m →
  buildRequestInit E fuel h protoPkg msg data = Done root →
  field ∈ Message.Fields m →
  Field.Repeated field = true → Field.Typez field ≠ MESSAGE_TYPE → wrapped field = false →
  fieldValue data field = Some (Slice items) →
  mkNode (toPascalCase E (Field.Name field))
         ("[]" +:+ elemTypeOf h field (protoPkgNameOf protoPkg)) None
         false true false false []
         ((λ item, primitiveNode ""
                     (formatPrimitive E item (elemTypeOf h field (protoPkgNameOf protoPkg))))
          <$> items) []
  ∈ Children root.
Proof.
  intros Hm Hrun Hf Hrep Hty Hwrap Hval.
  destruct (buildRequestInit_member _ _ _ _ _ _ _ _ _ _ Hm Hrun Hf Hval)
    as (n & node & -> & Hnode & Hin).
  rewrite <- (wrapOneOf_unwrapped E h protoPkg m field _ Hwrap). apply Hin.
  unfold buildNode in Hnode. rewrite Hrep in Hnode.
  rewrite buildItems_scalar in Hnode by done. simpl in Hnode.
  by injection Hnode as <-.
Qed.

(** The root of the test "Repeated". *)
Definition itemsRoot : FieldNode :=
  Eval vm_compute in
    match buildRequestInit golang_tests.testEnv 1 golang_tests.testStore
                           golang_tests.protoPkg (Some 0)
                           [("items", Slice [Str "a"; Str "b"])] with
    | Done root => root
    | _ => emptyNode
    end.

Lemma repeated_scalars_keep_every_element_witness :
  mkNode "Items" "[]string" None false true false false []
         [primitiveNode "" (dq +:+ "a" +:+ dq); primitiveNode "" (dq +:+ "b" +:+ dq)] []
  ∈ Children itemsRoot.
Proof.
  apply (repeated_scalars_keep_every_element golang_tests.testEnv 1 golang_tests.testStore
           golang_tests.protoPkg (Some 0) golang_tests.TestMsg
           [("items", Slice [Str "a"; Str "b"])] itemsRoot
           (Field.mk "items" "" "" STRING_TYPE true false false None None None [])
           [Str "a"; Str "b"]);
    try reflexivity.
  - unfold golang_tests.TestMsg. simpl. set_solver.
  - discriminate.
Defined.

(** X17.  The child of a message field is the node of the nested object.  For
    a known message of a store whose repeated message fields have their
    message, and a singular field of it with a known message and an object
    for its value: the call for the request and the call for the nested
    object both return (for every fuel that covers the nesting), and the
    children of the root hold the node of the field, which has the Go type
    name of the message of the field and the children of the node of the
    nested object.  For a member of a oneof group the node is the only
    child of the group wrapper, which is the child of the root. *)
Theorem message_field_nests_the_request (E : Externals) (h : store)
  (protoPkg : string) (msg : option ptr) (m : Message.t) (data : list (string * any))
  (field : Field.t) (mt : Message.t) (subData : list (string * any)) :
  deref h msg = Some m →
  builder_facts.repeatedMessagesKnown h →
  field ∈ Message.Fields m →
  Field.Repeated field = false → Field.Map field = false →
  Field.Typez field = MESSAGE_TYPE →
  deref h (Field.MessageType field) = Some mt →
  fieldValue data field = Some (MapAny subData) →
  ∃ root sub,
    (∀ fuel, depth (MapAny data) ≤ fuel →
             buildRequestInit E fuel h protoPkg msg data = Done root) ∧
    (∀ fuel, depth (MapAny subData) ≤ fuel →
             buildRequestInit E fuel h protoPkg (Field.MessageType field) subData
             = Done sub) ∧
    wrapOneOf E h protoPkg m field
      (mkNode (toPascalCase E (Field.Name field))
              (getGoTypeName mt (protoPkgNameOf protoPkg)) None
              true false false false (Children sub) [] [])
    ∈ Children root ∧
    (wrapped field = false →
     mkNode (toPascalCase E (Field.Name field))
            (getGoTypeName mt (protoPkgNameOf protoPkg)) None
            true false false false (Children sub) [] []
     ∈ Children root) ∧
    (∀ group, Field.IsOneOf field = true → Field.Group field = Some group →
     ∃ wrapper,
       wrapper ∈ Children root ∧
       Name wrapper = toPascalCase E (OneOf.Name group) ∧
       Children wrapper
       = [mkNode (toPascalCase E (Field.Name field))
                 (getGoTypeName mt (protoPkgNameOf protoPkg)) None
                 true false false false (Children sub) [] []]).
Proof.
  intros Hm Hstore Hf Hrep Hmap Hty Hmt Hval.
  destruct (builder_facts.buildRequestInit_total E h protoPkg Hstore
              (depth (MapAny data)) msg data) as (root & Hroot & _);
    [by rewrite Hm|done|].
  destruct (builder_facts.buildRequestInit_total E h protoPkg Hstore
              (depth (MapAny subData)) (Field.MessageType field) subData)
    as (sub & Hsub & Hismsg); [by rewrite Hmt|done|].
  destruct (buildRequestInit_member _ _ _ _ _ _ _ _ _ _ Hm Hroot Hf Hval)
    as (n & node & Hn & Hnode & Hin).
  assert (buildRequestInit E n h protoPkg (Field.MessageType field) subData = Done sub)
    as Hsub'.
  { apply (builder_facts.buildRequestInit_fuel_le E h protoPkg (depth (MapAny subData)));
      [|done].
    pose proof (builder_facts.fieldValue_depth _ _ _ Hval). lia. }
  unfold buildNode in Hnode. rewrite Hrep, Hmap, Hty, Hmt, Hsub' in Hnode.
  simpl in Hnode. rewrite Hismsg in Hnode. injection Hnode as <-.
  specialize (Hin _ eq_refl).
  exists root, sub. split_and!.
  - intros fuel Hle. by eapply builder_facts.buildRequestInit_fuel_le.
  - intros fuel Hle. by eapply builder_facts.buildRequestInit_fuel_le.
  - exact Hin.
  - intros Hwrap. by rewrite (wrapOneOf_unwrapped E h protoPkg m field _ Hwrap) in Hin.
  - intros group Hone Hgroup. eexists. split; [exact Hin|].
    unfold wrapOneOf. rewrite Hone, Hgroup. by split.
Qed.

(** The root of the test "Nested". *)
Definition nestedRoot : FieldNode :=
  Eval vm_compute in
    match buildRequestInit golang_tests.testEnv 2 golang_tests.testStore
                           golang_tests.protoPkg (Some 0)
                           [("child", MapAny [("foo", Str "childBar")])] with
    | Done root => root
    | _ => emptyNode
    end.

Lemma message_field_nests_the_request_witness :
  ∃ sub,
    buildRequestInit golang_tests.testEnv 1 golang_tests.testStore golang_tests.protoPkg
                     (Some 1) [("foo", Str "childBar")] = Done sub ∧
    mkNode "Child" "librarypb.ChildMsg" None true false false false (Children sub) [] []
    ∈ Children nestedRoot.
Proof.
  destruct (message_field_nests_the_request golang_tests.testEnv golang_tests.testStore
              golang_tests.protoPkg (Some 0) golang_tests.TestMsg
              [("child", MapAny [("foo", Str "childBar")])]
              (Field.mk "child" "" "" MESSAGE_TYPE false false false None (Some 1) None [])
              golang_tests.ChildMsg [("foo", Str "childBar")])
    as (root & sub & Hroot & Hsub & _ & Hchild & _); try reflexivity.
  - exact builder_facts.testStore_repeatedMessagesKnown.
  - unfold golang_tests.TestMsg. simpl. set_solver.
  - exists sub. split; [apply (Hsub 1); simpl; lia|].
    assert (Done root = Done nestedRoot) as Heq.
    { rewrite <- (Hroot 2) by (simpl; lia). vm_compute. reflexivity. }
    injection Heq as <-. by apply Hchild.
Defined.

End literal_facts.

(** ** The curl emitter: what the script is rendered from *)

Module curl_facts.
Import api gostrings goany curl.
Local Open Scope nat_scope.

(** The name a query parameter is sent under. *)
Definition sentName (param : Field.t) : string :=
  if negb (Field.NameEqualJSONName param) then Field.JSONName param
  else Field.Name param.

(** The entries of the request whose key is none of [names]. *)
Definition without (names : list string) (data : list (string * any))
  : list (string * any) :=
  List.filter (λ kv, negb (bool_decide (kv.1 ∈ names))) data.

Lemma without_nil data : without [] data = data.
Proof.
  unfold without. induction data as [|kv data IH]; [done|].
  cbn [List.filter]. rewrite bool_decide_false by apply not_elem_of_nil.
  cbn [negb]. by rewrite IH.
Qed.

Lemma without_delete name names data :
  without names (delete data name) = without (name :: names) data.
Proof.
  unfold without, delete. induction data as [|kv data IH]; [done|].
  cbn [List.filter]. destruct (decide (kv.1 = name)) as [Heq|Hne].
  - rewrite (bool_decide_true (kv.1 = name)) by done. cbn [negb].
    rewrite (bool_decide_true (kv.1 ∈ name :: names)) by (rewrite Heq; by left).
    cbn [negb]. done.
  - rewrite (bool_decide_false (kv.1 = name)) by done. cbn [negb List.filter].
    rewrite IH. destruct (decide (kv.1 ∈ names)) as [Hin|Hnotin].
    + rewrite (bool_decide_true (kv.1 ∈ names)) by done.
      rewrite (bool_decide_true (kv.1 ∈ name :: names)) by (by right). done.
    + rewrite (bool_decide_false (kv.1 ∈ names)) by done.
      rewrite (bool_decide_false (kv.1 ∈ name :: names)); [done|].
      by intros [?|?]%elem_of_cons.
Qed.

Lemma without_without names1 names2 data :
  without names2 (without names1 data) = without (names1 ++ names2) data.
Proof.
  revert data. induction names1 as [|name names1 IH]; intros data.
  - by rewrite without_nil.
  - simpl. by rewrite <- !without_delete, IH.
Qed.

Lemma deletes_without (pp : list Field.t) : ∀ data,
  foldl (λ d param, delete d (Field.Name param)) data pp
  = without (Field.Name <$> pp) data.
Proof.
  induction pp as [|param pp IH]; intros data; simpl.
  - by rewrite without_nil.
  - by rewrite IH, without_delete.
Qed.

Lemma index_delete data name key :
  key ≠ name → index (delete data name) key = index data key.
Proof.
  intros Hne. unfold index, delete. f_equal.
  induction data as [|kv data IH]; [done|]. cbn [List.filter List.find].
  destruct (decide (kv.1 = name)) as [Heq|Hkv].
  - rewrite (bool_decide_true (kv.1 = name)) by done. cbn [negb].
    rewrite (bool_decide_false (kv.1 = key)) by congruence. done.
  - rewrite (bool_decide_false (kv.1 = name)) by done. cbn [negb List.find].
    by rewrite IH.
Qed.

Lemma index_without names : ∀ data key,
  key ∉ names → index (without names data) key = index data key.
Proof.
  induction names as [|name names IH]; intros data key Hkey.
  - by rewrite without_nil.
  - rewrite <- without_delete, IH by (intros ?; apply Hkey; by right).
    apply index_delete. intros ->. apply Hkey. by left.
Qed.

(** The loop over the query parameters: what is left of the request, and
    the value each parameter is sent with. *)
Lemma takeQueryParams_spec query : ∀ data params data',
  takeQueryParams query data = (params, data') →
  data' = without (Field.Name <$> query) data ∧
  length params = length query ∧
  ∀ i param, query !! i = Some param →
             Field.Name param ∉ Field.Name <$> take i query →
             params !! i = Some (mkQueryParam (sentName param)
                                              (index data (Field.Name param))).
Proof.
  induction query as [|p query IH]; intros data params data'; simpl.
  - intros [= <- <-]. by rewrite without_nil.
  - destruct (takeQueryParams query (delete data (Field.Name p))) as [ps d] eqn:Hrest.
    intros [= <- <-]. destruct (IH _ _ _ Hrest) as (Hd & Hlen & Hparams).
    split_and!.
    + by rewrite Hd, without_delete.
    + simpl. by rewrite Hlen.
    + intros [|i] param; simpl.
      * by intros [= <-] _.
      * intros Hi Hfresh. rewrite (Hparams i param Hi).
        -- rewrite index_delete; [done|]. intros Heq. apply Hfresh. rewrite Heq. by left.
        -- intros Hin. apply Hfresh. by right.
Qed.

(** X18.  When [GenerateCurl] succeeds, the script it writes to [curl.sh] is the
    rendering of the verb of the first binding, the default host, the
    substituted path, the query parameters and a body.  The body is
    marshalled from exactly the fields of the request that are neither path
    parameters nor query parameters, and it is empty (nothing is
    marshalled) when no field is left.  A query parameter that is no path
    parameter and no earlier query parameter is sent with the value the
    request has for it. *)
Theorem GenerateCurl_writes_the_other_fields (E : Externals)
  (fs fs' : gmap string string) (inp : CurlInput) (info : PathInfo.t)
  (binding : PathBinding.t) (others : list PathBinding.t) (data : list (string * any)) :
  Method.PathInfo (Method inp) = Some info →
  PathInfo.Bindings info = binding :: others →
  Unmarshal E (ReqData inp) = Some data →
  GenerateCurl E fs inp = Returns None fs' →
  ∃ path body params s,
    substitutePath data (PathTemplate.Segments (PathBinding.PathTemplate binding)) ""
    = Some path ∧
    (let rest := without (Field.Name <$> (PathParams E (Method inp)
                                           ++ QueryParams E (Method inp) binding)%list)
                         data in
     (rest = [] ∧ body = "") ∨ (rest ≠ [] ∧ Marshal E rest = Some body)) ∧
    length params = length (QueryParams E (Method inp) binding) ∧
    (∀ i param,
       QueryParams E (Method inp) binding !! i = Some param →
       Field.Name param ∉ Field.Name <$> PathParams E (Method inp) →
       Field.Name param ∉ Field.Name <$> take i (QueryParams E (Method inp) binding) →
       params !! i = Some (mkQueryParam (sentName param)
                                        (index data (Field.Name param)))) ∧
    Render E (mkData (PathBinding.Verb binding)
                     (Service.DefaultHost (Method.Service (Method inp)))
                     path body params) = Some s ∧
    fs' = <[filepathJoin E (OutDir inp) "curl.sh" := s]> fs.
Proof.
  intros Hinfo Hbindings Hdata. unfold GenerateCurl.
  rewrite Hinfo, Hbindings, Hdata.
  destruct (substitutePath data _ "") as [path|]; [|done].
  rewrite deletes_without.
  destruct (takeQueryParams _ _) as [params rest] eqn:Hquery.
  apply takeQueryParams_spec in Hquery as (Hrest & Hlen & Hparams).
  rewrite without_without, <- fmap_app in Hrest.
  destruct (if bool_decide (0 < length rest) then Marshal E rest else Some "")
    as [body|] eqn:Hbody; [|done].
  destruct (Render E _) as [s|] eqn:Hrender; [|done].
  destruct (WriteFile E _); [|done]. intros [= <-].
  exists path, body, params, s. split_and!; [done| |done| |done|done].
  - cbv zeta. rewrite <- Hrest. case_bool_decide as Hlen0.
    + right. split; [|done]. intros ->. simpl in Hlen0. lia.
    + left. split; [|by injection Hbody]. destruct rest; [done|]. simpl in Hlen0. lia.
  - intros i param Hi Hpath Hearlier. rewrite (Hparams i param Hi Hearlier).
    by rewrite index_without.
Qed.

Lemma GenerateCurl_writes_the_other_fields_witness :
  ∃ body s,
    Marshal testEnv [("baz", Str "qux")] = Some body ∧
    Render testEnv (mkData "GET" "example.com" "/v1/bar" body []) = Some s ∧
    GenerateCurl testEnv ∅ (mkInput "WithBody" "out" testMethod)
    = Returns None {["out/curl.sh" := s]}.
Proof.
  assert (∃ fs', GenerateCurl testEnv ∅ (mkInput "WithBody" "out" testMethod)
                 = Returns None fs') as [fs' Hrun] by (vm_compute; by eexists).
  destruct (GenerateCurl_writes_the_other_fields testEnv ∅ fs'
              (mkInput "WithBody" "out" testMethod) (PathInfo.mk [testBinding])
              testBinding [] [("foo", Str "bar"); ("baz", Str "qux")]
              eq_refl eq_refl eq_refl Hrun)
    as (path & body & params & s & Hpath & Hbody & Hlen & _ & Hrender & Hfs).
  injection Hpath as <-. destruct params; [|done].
  destruct Hbody as [[Hnil _]|[_ Hbody]]; [done|].
  exists body, s. split_and!; [exact Hbody|exact Hrender|].
  rewrite Hrun, Hfs. reflexivity.
Defined.

End curl_facts.

(** ** Package [gcloudcmd]: the search for the gcloud command *)

Module findcommand.
Import gostrings.
Local Open Scope nat_scope.

(** [Suggestion]: the decision of the advisor. *)
Record Suggestion := mkSuggestion {
  Decision : string;
  NextSubcommand : string;
  FinalCommand : string
}.

(** What the search takes from outside the sources. *)
Record Externals := mkExternals {
  (** [Runner.Run]: the output of [gcloud] with these arguments; [None] is
  its error *)
  Run : list string → option string;
  (** [GenAIClient.GenerateContent] on the prompt made of the method at
  hand, the command path joined by spaces and the help handed over: the
  text of the first part of the first candidate; [None] is the error of the
  client or a response without content *)
  Generate : string → string → option string;
  (** [json.Unmarshal] into a [Suggestion]; [None] is its error *)
  UnmarshalSuggestion : string → option Suggestion;
  (** [strings.TrimSpace] *)
  TrimSpace : string → string
}.

(** [truncateHelp]: the first 50000 bytes of a longer text, and a note. *)
Definition helpLimit : Z := 50000.

Definition truncateHelp (h : string) : string :=
  if bool_decide (helpLimit < Z.of_nat (String.length h))%Z
  then String.substring 0 (Z.to_nat helpLimit) h +:+ nl +:+ "... (truncated)"
  else h.

(** [fmtCmd]. *)
Definition fmtCmd (parts : list string) : string :=
  if bool_decide (length parts = 0) then "" else Join parts " ".

Section search.
Variable E : Externals.

(** [cleanJSON] *)
Definition cleanJSON (s : string) : string :=
  let s := TrimSpace E s in
  let s := TrimPrefix s "```json" in
  let s := TrimPrefix s "```" in
  let s := TrimSuffix s "```" in
  TrimSpace E s.

(** [Explorer.GetHelp] *)
Definition GetHelp (cmdPath : list string) : option string :=
  Run E (cmdPath ++ ["--help"]).

(** [Advisor.SuggestNextStep]; [None] is any of its errors. *)
Definition SuggestNextStep (currentPath : list string) (helpOutput : string)
  : option Suggestion :=
  match Generate E (Join currentPath " ") (truncateHelp helpOutput) with
  | None => None
  | Some text =>
      if bool_decide (text = "") then None
      else UnmarshalSuggestion E (cleanJSON text)
  end.

(** The errors of the search. *)
Inductive error :=
| ErrAdvisor
| ErrNoSubcommand
| ErrUnknownDecision (decision : string)
| ErrMaxSteps.

(** How the search ends: with the command it prints, or with an error. *)
Inductive result :=
| Printed (final : string)
| Failed (e : error).

(** The command printed on [DONE]. *)
Definition finalCommand (currentCmd : list string) (suggestion : Suggestion) : string :=
  if bool_decide (FinalCommand suggestion = "")
     && bool_decide (NextSubcommand suggestion ≠ "")
  then "gcloud " +:+ fmtCmd currentCmd +:+ " " +:+ NextSubcommand suggestion
  else if bool_decide (FinalCommand suggestion = "")
  then "gcloud " +:+ fmtCmd currentCmd
  else FinalCommand suggestion.

(** The loop of [action] with [steps] iterations left.  A failure of
    [GetHelp] leaves the loop, and the search ends as it does when the steps
    are used up. *)
Fixpoint explore (steps : nat) (currentCmd : list string) : result :=
  match steps with
  | O => Failed ErrMaxSteps
  | S steps' =>
      match GetHelp currentCmd with
      | None => Failed ErrMaxSteps
      | Some helpOut =>
          match SuggestNextStep currentCmd helpOut with
          | None => Failed ErrAdvisor
          | Some suggestion =>
              if bool_decide (Decision suggestion = "DONE") then
                Printed (finalCommand currentCmd suggestion)
              else if bool_decide (Decision suggestion = "NEXT") then
                if bool_decide (NextSubcommand suggestion = "") then Failed ErrNoSubcommand
                else explore steps' (currentCmd ++ [NextSubcommand suggestion])
              else Failed (ErrUnknownDecision (Decision suggestion))
          end
      end
  end.

(** [action], from the start of the exploration on. *)
Definition maxSteps : nat := 10.

Definition exploration : result := explore maxSteps [].

(** The advisor leads along [subs] from [currentCmd]: at every command on
    the way the help is there and the advice is [NEXT] with the next
    subcommand of [subs]. *)
Definition leads (currentCmd subs : list string) : Prop :=
  ∀ i sub, subs !! i = Some sub →
    sub ≠ "" ∧
    ∃ helpOut final,
      GetHelp (currentCmd ++ take i subs) = Some helpOut ∧
      SuggestNextStep (currentCmd ++ take i subs) helpOut
      = Some (mkSuggestion "NEXT" sub final).

Lemma explore_leads subs : ∀ steps currentCmd,
  leads currentCmd subs →
  explore (length subs + steps) currentCmd = explore steps (currentCmd ++ subs).
Proof.
  induction subs as [|sub subs IH]; intros steps currentCmd Hleads.
  - by rewrite app_nil_r.
  - destruct (Hleads 0 sub eq_refl) as (Hsub & helpOut & final & Hhelp & Hadvice).
    simpl in Hhelp, Hadvice. rewrite app_nil_r in Hhelp, Hadvice.
    cbn [length Nat.add explore]. rewrite Hhelp, Hadvice. simpl.
    rewrite bool_decide_false by done.
    rewrite IH; [by rewrite <- app_assoc|].
    intros i s Hi. destruct (Hleads (S i) s Hi) as (Hs & h & f & Hh & Ha).
    simpl in Hh, Ha. rewrite <- app_assoc. simpl. by eauto 6.
Qed.

End search.

(** X19.  The search follows the advice: when the advisor leads along fewer than
    ten subcommands and then says [DONE], the search prints the final
    command of that advice (built from the subcommands when the advice
    names none). *)
Theorem exploration_follows_the_advice (E : Externals) (subs : list string)
  (helpOut : string) (suggestion : Suggestion) :
  length subs < maxSteps →
  leads E [] subs →
  GetHelp E subs = Some helpOut →
  SuggestNextStep E subs helpOut = Some suggestion →
  Decision suggestion = "DONE" →
  exploration E = Printed (finalCommand subs suggestion).
Proof.
  intros Hlen Hleads Hhelp Hadvice Hdone. unfold exploration.
  replace maxSteps with (length subs + S (maxSteps - S (length subs))) by lia.
  rewrite explore_leads by done. simpl.
  by rewrite Hhelp, Hadvice, Hdone.
Qed.

(** The advisor of the examples: [NEXT secrets] at the root, then [DONE]
    with the subcommand [create] and no final command. *)
Definition secretsEnv : Externals :=
  mkExternals
    (λ args, if bool_decide (args = ["--help"]) then Some "groups: secrets"
             else if bool_decide (args = ["secrets"; "--help"]) then Some "commands: create"
             else None)
    (λ path _, if bool_decide (path = "") then Some "next"
               else if bool_decide (path = "secrets") then Some "done"
               else None)
    (λ text, if bool_decide (text = "next") then Some (mkSuggestion "NEXT" "secrets" "")
             else if bool_decide (text = "done") then Some (mkSuggestion "DONE" "create" "")
             else None)
    (λ s, s).

Lemma exploration_follows_the_advice_witness :
  exploration secretsEnv = Printed "gcloud secrets create".
Proof.
  apply (exploration_follows_the_advice secretsEnv ["secrets"] "commands: create"
           (mkSuggestion "DONE" "create" "")).
  - unfold maxSteps. simpl. lia.
  - intros [|i] sub Hi; [|done]. injection Hi as <-. split; [done|].
    exists "groups: secrets", "". split; reflexivity.
  - reflexivity.
  - reflexivity.
  - reflexivity.
Defined.

(** X20.  The search asks at most ten times: when the advisor leads along ten
    subcommands, the search fails with the error of the steps used up,
    whatever the advice for the eleventh command would be. *)
Theorem exploration_stops_after_ten_steps (E : Externals) (subs : list string) :
  length subs = maxSteps →
  leads E [] subs →
  exploration E = Failed ErrMaxSteps.
Proof.
  intros Hlen Hleads. unfold exploration.
  replace maxSteps with (length subs + 0) by lia.
  by rewrite explore_leads.
Qed.

(** An advisor that always asks for the subcommand [x]. *)
Definition deeperEnv : Externals :=
  mkExternals (λ _, Some "help") (λ _ _, Some "next")
              (λ _, Some (mkSuggestion "NEXT" "x" "")) (λ s, s).

Lemma exploration_stops_after_ten_steps_witness :
  exploration deeperEnv = Failed ErrMaxSteps.
Proof.
  apply (exploration_stops_after_ten_steps deeperEnv (replicate 10 "x")).
  - reflexivity.
  - intros i sub [-> _]%lookup_replicate. split; [done|].
    exists "help", "". split; reflexivity.
Defined.

(** X21.  A failure of [gcloud --help] is not reported as such: when the advisor
    leads along fewer than ten subcommands to a command whose help cannot be
    had, the search ends with the error of the steps used up. *)
Theorem help_failure_ends_as_steps_used_up (E : Externals) (subs : list string) :
  length subs < maxSteps →
  leads E [] subs →
  GetHelp E subs = None →
  exploration E = Failed ErrMaxSteps.
Proof.
  intros Hlen Hleads Hhelp. unfold exploration.
  replace maxSteps with (length subs + S (maxSteps - S (length subs))) by lia.
  rewrite explore_leads by done. simpl. by rewrite Hhelp.
Qed.

(** The advisor of [secretsEnv], without the help of [secrets]. *)
Definition helplessEnv : Externals :=
  mkExternals
    (λ args, if bool_decide (args = ["--help"]) then Some "groups: secrets" else None)
    (Generate secretsEnv) (UnmarshalSuggestion secretsEnv) (λ s, s).

Lemma help_failure_ends_as_steps_used_up_witness :
  exploration helplessEnv = Failed ErrMaxSteps.
Proof.
  apply (help_failure_ends_as_steps_used_up helplessEnv ["secrets"]).
  - unfold maxSteps. simpl. lia.
  - intros [|i] sub Hi; [|done]. injection Hi as <-. split; [done|].
    exists "groups: secrets", "". split; reflexivity.
  - reflexivity.
Defined.

(** *** The help that the advisor reads *)

Lemma length_append (a b : string) :
  String.length (a +:+ b) = String.length a + String.length b.
Proof.
  induction a as [|c a IH]; [done|].
  change (String c a +:+ b) with (String c (a +:+ b)). simpl. by rewrite IH.
Qed.

Lemma length_substring_0 (n : nat) : ∀ s,
  n ≤ String.length s → String.length (String.substring 0 n s) = n.
Proof.
  induction n as [|n IH]; intros [|c s]; simpl; try done; try lia.
  intros Hn. rewrite IH; lia.
Qed.

Lemma substring_0_length (s : string) : String.substring 0 (String.length s) s = s.
Proof. induction s as [|c s IH]; simpl; [done|]. by rewrite IH. Qed.

Lemma substring_0_append (a b : string) :
  String.substring 0 (String.length a) (a +:+ b) = a.
Proof.
  induction a as [|c a IH]; [by destruct b|].
  change (String c a +:+ b) with (String c (a +:+ b)). simpl. by rewrite IH.
Qed.

Lemma substring_append (a b : string) :
  String.substring (String.length a) (String.length b) (a +:+ b) = b.
Proof.
  induction a as [|c a IH]; [apply substring_0_length|].
  change (String c a +:+ b) with (String c (a +:+ b)). by simpl.
Qed.

Lemma prefix_append (a b : string) : String.prefix a (a +:+ b) = true.
Proof.
  induction a as [|c a IH]; [by destruct b|].
  change (String c a +:+ b) with (String c (a +:+ b)). cbn [String.prefix].
  by destruct (Ascii.ascii_dec c c).
Qed.

Lemma substring_0_prefix (n : nat) : ∀ s t,
  n ≤ String.length s →
  String.substring 0 n (String.substring 0 n s +:+ t) = String.substring 0 n s.
Proof.
  intros s t Hn.
  rewrite <- (length_substring_0 n s Hn) at 1. apply substring_0_append.
Qed.

(** X22.  The text handed to the advisor is the help itself when the help has at
    most 50000 bytes; it never has more than 50016 bytes, and its first
    50000 bytes are those of the help. *)
Theorem truncateHelp_bounds (h : string) :
  (Z.of_nat (String.length (truncateHelp h)) ≤ helpLimit + 16)%Z ∧
  ((Z.of_nat (String.length h) ≤ helpLimit)%Z → truncateHelp h = h) ∧
  String.substring 0 (Z.to_nat helpLimit) (truncateHelp h)
  = String.substring 0 (Z.to_nat helpLimit) h.
Proof.
  unfold truncateHelp. case_bool_decide as Hlong.
  - assert (Z.to_nat helpLimit ≤ String.length h) as Hle by lia.
    split_and!.
    + rewrite length_append, (length_substring_0 _ _ Hle), length_append.
      change (String.length nl) with 1.
      change (String.length "... (truncated)") with 15.
      unfold helpLimit. lia.
    + lia.
    + by apply substring_0_prefix.
  - split_and!; [unfold helpLimit in *; lia|done|done].
Qed.

Lemma truncateHelp_bounds_witness :
  truncateHelp "usage: gcloud secrets create ..." = "usage: gcloud secrets create ...".
Proof.
  apply (proj1 (proj2 (truncateHelp_bounds "usage: gcloud secrets create ..."))).
  unfold helpLimit. simpl. lia.
Defined.

(** Two helps longer than the limit that agree on their first 50000 bytes
    are the same text for the advisor. *)
Lemma truncateHelp_tail (pre a b : string) :
  Z.of_nat (String.length pre) = helpLimit → a ≠ "" → b ≠ "" →
  truncateHelp (pre +:+ a) = truncateHelp (pre +:+ b).
Proof.
  intros Hpre Ha Hb. unfold truncateHelp.
  assert (Z.to_nat helpLimit = String.length pre) as -> by lia.
  rewrite !substring_0_append, !length_append.
  destruct a as [|x a]; [done|]. destruct b as [|y b]; [done|]. simpl.
  rewrite !bool_decide_true by lia. done.
Qed.

Section two_runs.
Variables E E' : Externals.
Hypothesis HGenerate : ∀ path help, Generate E path help = Generate E' path help.
Hypothesis HUnmarshal : ∀ text, UnmarshalSuggestion E text = UnmarshalSuggestion E' text.
Hypothesis HTrimSpace : ∀ s, TrimSpace E s = TrimSpace E' s.
Hypothesis HRun : ∀ args, truncateHelp <$> Run E args = truncateHelp <$> Run E' args.

Lemma SuggestNextStep_truncated currentPath help help' :
  truncateHelp help = truncateHelp help' →
  SuggestNextStep E currentPath help = SuggestNextStep E' currentPath help'.
Proof.
  intros Hhelp. unfold SuggestNextStep. rewrite Hhelp, HGenerate.
  destruct (Generate E' _ _) as [text|]; [|done].
  case_bool_decide; [done|]. unfold cleanJSON. by rewrite !HTrimSpace, HUnmarshal.
Qed.

Lemma explore_truncated steps : ∀ currentCmd,
  explore E steps currentCmd = explore E' steps currentCmd.
Proof.
  induction steps as [|steps IH]; intros currentCmd; [done|].
  cbn [explore]. unfold GetHelp. pose proof (HRun (currentCmd ++ ["--help"])) as Hhelp.
  destruct (Run E _) as [help|], (Run E' _) as [help'|]; try done.
  injection Hhelp as Hhelp.
  rewrite (SuggestNextStep_truncated currentCmd help help' Hhelp).
  destruct (SuggestNextStep E' currentCmd help') as [suggestion|]; [|done].
  by rewrite IH.
Qed.

End two_runs.

(** X23.  The search reads no more of a help text than [truncateHelp] keeps: two
    runs with the same advisor whose help texts agree after truncation (and
    fail for the same commands) end the same way. *)
Theorem exploration_reads_the_truncated_help (E E' : Externals) :
  (∀ path help, Generate E path help = Generate E' path help) →
  (∀ text, UnmarshalSuggestion E text = UnmarshalSuggestion E' text) →
  (∀ s, TrimSpace E s = TrimSpace E' s) →
  (∀ args, truncateHelp <$> Run E args = truncateHelp <$> Run E' args) →
  exploration E = exploration E'.
Proof. intros ? ? ? ?. by apply explore_truncated. Qed.

(** A help of 50000 bytes followed by [tail]. *)
Definition longHelp (tail : string) : string :=
  String.concat "" (replicate (Z.to_nat helpLimit) "h") +:+ tail.

(** An advisor that is done at once, on a help that ends in [tail]. *)
Definition longEnv (tail : string) : Externals :=
  mkExternals (λ _, Some (longHelp tail)) (λ _ _, Some "done")
              (λ _, Some (mkSuggestion "DONE" "" "gcloud secrets create")) (λ s, s).

Lemma exploration_reads_the_truncated_help_witness :
  exploration (longEnv "commands: create") = exploration (longEnv "commands: delete").
Proof.
  apply (exploration_reads_the_truncated_help (longEnv "commands: create")
           (longEnv "commands: delete")).
  - intros path help. reflexivity.
  - intros text. reflexivity.
  - intros s. reflexivity.
  - intros args.
    change (Some (truncateHelp (longHelp "commands: create"))
            = Some (truncateHelp (longHelp "commands: delete"))).
    apply (f_equal Some). unfold longHelp.
    apply truncateHelp_tail; [|discriminate|discriminate].
    vm_compute. reflexivity.
Defined.

(** *** [cleanJSON] *)

(** X24.  An answer between the fences of a [json] code block is read as what is
    between the fences, trimmed: provided the answer has no white space
    around the fences (so that the first trim changes nothing) and what is
    between them does not start with a backquote. *)
Theorem cleanJSON_unwraps_a_fence (E : Externals) (body : string) :
  TrimSpace E ("```json" +:+ body +:+ "```") = "```json" +:+ body +:+ "```" →
  String.prefix "`" body = false →
  cleanJSON E ("```json" +:+ body +:+ "```") = TrimSpace E body.
Proof.
  intros Htrim Hbody. unfold cleanJSON. cbv zeta. rewrite Htrim. f_equal.
  assert (TrimPrefix ("```json" +:+ body +:+ "```") "```json" = body +:+ "```") as ->.
  { unfold TrimPrefix. rewrite prefix_append, length_append.
    replace (String.length "```json" + String.length (body +:+ "```")
             - String.length "```json")
      with (String.length (body +:+ "```")) by lia.
    apply substring_append. }
  destruct body as [|c body]; [done|].
  assert (c ≠ "`"%char) as Hc.
  { intros ->. simpl in Hbody. by destruct body. }
  assert (TrimPrefix (String c body +:+ "```") "```" = String c body +:+ "```") as ->.
  { unfold TrimPrefix.
    change (String c body +:+ "```") with (String c (body +:+ "```")).
    cbn [String.prefix]. destruct (Ascii.ascii_dec "`" c) as [Heq|Hne]; [|done].
    by destruct Hc. }
  unfold TrimSuffix, HasSuffix. rewrite length_append.
  replace (String.length (String c body) + String.length "```" - String.length "```")
    with (String.length (String c body)) by lia.
  rewrite (substring_append (String c body) "```").
  rewrite bool_decide_true by lia. rewrite bool_decide_true by done.
  cbn [andb]. apply substring_0_append.
Qed.

Lemma cleanJSON_unwraps_a_fence_witness :
  cleanJSON secretsEnv ("```json" +:+ "{}" +:+ "```") = "{}".
Proof.
  apply (cleanJSON_unwraps_a_fence secretsEnv "{}"); reflexivity.
Defined.

End findcommand.

(** ** Package [convert]: the search for the service config *)

Module serviceconfig.
Import gostrings.
Local Open Scope nat_scope.

Definition serviceConfigValue : string := "google.api.Service".

(** What the search takes from outside the sources. *)
Record Externals := mkExternals {
  (** [os.ReadDir]: the names of the entries of a directory, in the order
  it returns them; [None] is its error *)
  ReadDir : string → option (list string);
  (** [os.ReadFile]; [None] is its error *)
  ReadFile : string → option string;
  (** [yaml.Unmarshal] into a map, and the string under the key [type]:
  [None] is the error of [yaml.Unmarshal], [Some None] a map without that
  key or with a value there that is no string *)
  yamlType : string → option (option string);
  (** [filepath.Join] *)
  filepathJoin : string → string → string
}.

Inductive error := ErrReadDir | ErrReadFile | ErrUnmarshal.

(** The name returned (empty when there is no service config), or the
    error. *)
Inductive result :=
| Found (name : string)
| Failed (e : error).

Section search.
Variable E : Externals.

(** The loop over the entries of the directory. *)
Fixpoint scanEntries (path : string) (entries : list string) : result :=
  match entries with
  | [] => Found ""
  | name :: rest =>
      if negb (HasSuffix name ".yaml") then scanEntries path rest
      else
        match ReadFile E (filepathJoin E path name) with
        | None => Failed ErrReadFile
        | Some bytes =>
            match yamlType E bytes with
            | None => Failed ErrUnmarshal
            | Some value =>
                if bool_decide (value = Some serviceConfigValue) then Found name
                else scanEntries path rest
            end
        end
  end.

Definition findServiceConfigIn (path : string) : result :=
  match ReadDir E path with
  | None => Failed ErrReadDir
  | Some entries => scanEntries path entries
  end.

(** An entry the loop passes over: no [.yaml] file, or a [.yaml] file that
    is read and parsed and is no service config. *)
Definition passedOver (path name : string) : Prop :=
  HasSuffix name ".yaml" = true →
  ∃ bytes value,
    ReadFile E (filepathJoin E path name) = Some bytes ∧
    yamlType E bytes = Some value ∧ value ≠ Some serviceConfigValue.

Lemma scanEntries_passedOver path before rest :
  Forall (passedOver path) before →
  scanEntries path (before ++ rest) = scanEntries path rest.
Proof.
  induction 1 as [|name before Hname _ IH]; [done|].
  cbn [app scanEntries]. destruct (HasSuffix name ".yaml") eqn:Hyaml; [|done].
  destruct (Hname Hyaml) as (bytes & value & -> & -> & Hvalue). simpl.
  by rewrite bool_decide_false.
Qed.

End search.

(** X25.  [findServiceConfigIn] returns the first [.yaml] entry of the directory
    that holds a service config, when every entry before it is passed over;
    when every entry of the directory is passed over, it returns the empty
    name and no error. *)
Theorem findServiceConfigIn_finds_the_first_service_config (E : Externals)
  (path : string) (entries : list string) :
  ReadDir E path = Some entries →
  (∀ before name after bytes,
     entries = (before ++ name :: after)%list →
     Forall (passedOver E path) before →
     HasSuffix name ".yaml" = true →
     ReadFile E (filepathJoin E path name) = Some bytes →
     yamlType E bytes = Some (Some serviceConfigValue) →
     findServiceConfigIn E path = Found name) ∧
  (Forall (passedOver E path) entries → findServiceConfigIn E path = Found "").
Proof.
  intros Hdir. unfold findServiceConfigIn. rewrite Hdir. split.
  - intros before name after bytes -> Hbefore Hyaml Hread Htype.
    rewrite scanEntries_passedOver by done. cbn [scanEntries].
    rewrite Hyaml, Hread, Htype. cbn [negb]. by rewrite bool_decide_true.
  - intros Hall. rewrite <- (app_nil_r entries). by rewrite scanEntries_passedOver.
Qed.

(** A directory with a README, the config of another tool and a service
    config. *)
Definition testEnv : Externals :=
  mkExternals
    (λ path, if bool_decide (path = "google/cloud/secretmanager/v1")
             then Some ["README.md"; "gapic.yaml"; "secretmanager_v1.yaml"]
             else None)
    (λ file, if bool_decide (file = "google/cloud/secretmanager/v1/gapic.yaml")
             then Some "type: com.google.api.codegen.ConfigProto"
             else if bool_decide (file = "google/cloud/secretmanager/v1/secretmanager_v1.yaml")
             then Some "type: google.api.Service"
             else None)
    (λ bytes, if bool_decide (bytes = "type: google.api.Service")
              then Some (Some "google.api.Service")
              else if bool_decide (bytes = "type: com.google.api.codegen.ConfigProto")
              then Some (Some "com.google.api.codegen.ConfigProto")
              else None)
    (λ dir file, dir +:+ "/" +:+ file).

Lemma findServiceConfigIn_finds_the_first_service_config_witness :
  findServiceConfigIn testEnv "google/cloud/secretmanager/v1"
  = Found "secretmanager_v1.yaml".
Proof.
  apply (proj1 (findServiceConfigIn_finds_the_first_service_config testEnv
                  "google/cloud/secretmanager/v1"
                  ["README.md"; "gapic.yaml"; "secretmanager_v1.yaml"] eq_refl)
           ["README.md"; "gapic.yaml"] "secretmanager_v1.yaml" []
           "type: google.api.Service");
    try reflexivity.
  repeat constructor.
  - intros Hyaml. vm_compute in Hyaml. discriminate.
  - intros _. exists "type: com.google.api.codegen.ConfigProto",
                     (Some "com.google.api.codegen.ConfigProto").
    split_and!; [reflexivity|reflexivity|discriminate].
Defined.

(** X26.  A [.yaml] file that cannot be read or parsed makes the search fail when
    the entries before it are passed over, whatever comes after it: a
    service config later in the directory is not found. *)
Theorem findServiceConfigIn_fails_on_a_broken_yaml_file (E : Externals)
  (path : string) (before after : list string) (name : string) :
  ReadDir E path = Some (before ++ name :: after)%list →
  Forall (passedOver E path) before →
  HasSuffix name ".yaml" = true →
  (ReadFile E (filepathJoin E path name) = None →
   findServiceConfigIn E path = Failed ErrReadFile) ∧
  (∀ bytes, ReadFile E (filepathJoin E path name) = Some bytes →
            yamlType E bytes = None →
            findServiceConfigIn E path = Failed ErrUnmarshal).
Proof.
  intros Hdir Hbefore Hyaml. unfold findServiceConfigIn. rewrite Hdir.
  rewrite scanEntries_passedOver by done. cbn [scanEntries]. rewrite Hyaml. simpl.
  split.
  - by intros ->.
  - by intros bytes -> ->.
Qed.

(** The directory of [testEnv] with a file of notes that is no YAML before
    the service config. *)
Definition brokenEnv : Externals :=
  mkExternals
    (λ _, Some ["notes.yaml"; "secretmanager_v1.yaml"])
    (λ file, if bool_decide (file = "v1/notes.yaml") then Some "- [ unbalanced"
             else Some "type: google.api.Service")
    (yamlType testEnv)
    (λ dir file, dir +:+ "/" +:+ file).

Lemma findServiceConfigIn_fails_on_a_broken_yaml_file_witness :
  findServiceConfigIn brokenEnv "v1" = Failed ErrUnmarshal.
Proof.
  apply (proj2 (findServiceConfigIn_fails_on_a_broken_yaml_file brokenEnv "v1" []
                  ["secretmanager_v1.yaml"] "notes.yaml" eq_refl (Forall_nil_2 _)
                  eq_refl) "- [ unbalanced");
    reflexivity.
Defined.

Section two_directories.
Variables E E' : Externals.
Hypothesis HReadDir : ∀ path, ReadDir E path = ReadDir E' path.
Hypothesis HJoin : ∀ dir file, filepathJoin E dir file = filepathJoin E' dir file.
Hypothesis HyamlType : ∀ bytes, yamlType E bytes = yamlType E' bytes.

Lemma scanEntries_yaml_only path entries :
  (∀ name, name ∈ entries → HasSuffix name ".yaml" = true →
           ReadFile E (filepathJoin E path name)
           = ReadFile E' (filepathJoin E path name)) →
  scanEntries E path entries = scanEntries E' path entries.
Proof.
  induction entries as [|name entries IH]; intros Hread; [done|].
  cbn [scanEntries]. rewrite <- HJoin.
  assert (scanEntries E path entries = scanEntries E' path entries) as Hrest.
  { apply IH. intros n Hn. apply Hread. by right. }
  destruct (HasSuffix name ".yaml") eqn:Hyaml; simpl; [|done].
  rewrite <- (Hread name) by (done || by left).
  destruct (ReadFile E _) as [bytes|]; [|done]. rewrite <- HyamlType.
  destruct (yamlType E bytes) as [value|]; [|done]. by rewrite Hrest.
Qed.

End two_directories.

(** X27.  The search reads no file but the [.yaml] entries of the directory: two
    file systems with the same directory in which these files read the same
    give the same result. *)
Theorem findServiceConfigIn_reads_yaml_files_only (E E' : Externals)
  (path : string) (entries : list string) :
  (∀ path, ReadDir E path = ReadDir E' path) →
  (∀ dir file, filepathJoin E dir file = filepathJoin E' dir file) →
  (∀ bytes, yamlType E bytes = yamlType E' bytes) →
  ReadDir E path = Some entries →
  (∀ name, name ∈ entries → HasSuffix name ".yaml" = true →
           ReadFile E (filepathJoin E path name)
           = ReadFile E' (filepathJoin E path name)) →
  findServiceConfigIn E path = findServiceConfigIn E' path.
Proof.
  intros HReadDir HJoin HyamlType Hdir Hread. unfold findServiceConfigIn.
  rewrite <- HReadDir, Hdir. by apply scanEntries_yaml_only.
Qed.

(** The directory of [testEnv] where the README cannot be read. *)
Definition unreadableEnv : Externals :=
  mkExternals (ReadDir testEnv)
    (λ file, if bool_decide (file = "google/cloud/secretmanager/v1/README.md") then None
             else if bool_decide (file = "google/cloud/secretmanager/v1/gapic.yaml")
             then Some "type: com.google.api.codegen.ConfigProto"
             else Some "type: google.api.Service")
    (yamlType testEnv) (filepathJoin testEnv).

Lemma findServiceConfigIn_reads_yaml_files_only_witness :
  findServiceConfigIn testEnv "google/cloud/secretmanager/v1"
  = findServiceConfigIn unreadableEnv "google/cloud/secretmanager/v1".
Proof.
  apply (findServiceConfigIn_reads_yaml_files_only testEnv unreadableEnv
           "google/cloud/secretmanager/v1"
           ["README.md"; "gapic.yaml"; "secretmanager_v1.yaml"]);
    try reflexivity.
  intros name Hin Hyaml.
  repeat (apply elem_of_cons in Hin as [->|Hin]);
    [discriminate Hyaml|reflexivity|reflexivity|by apply elem_of_nil in Hin].
Defined.

End serviceconfig.

(** ** Package [morph]: the Bazel configuration of a service *)

Module bazel.
Import gostrings.
Local Open Scope nat_scope.

(** [GoBazelConfig] *)
Record GoBazelConfig := mkConfig {
  grpcServiceConfig : string;
  gapicImportPath : string;
  protoImportPath : string;
  metadata : bool;
  releaseLevel : string;
  restNumericEnums : bool;
  serviceYAML : string;
  transport : string;
  diregapic : bool;
  hasGoGRPC : bool;
  hasGAPIC : bool
}.

(** [&GoBazelConfig{}] *)
Definition emptyConfig : GoBazelConfig :=
  mkConfig "" "" "" false "" false "" "" false false false.

(** What the parser takes from outside the sources: package [regexp]. *)
Record Externals := mkExternals {
  (** [regexp.MustCompile(re).FindString(content)] *)
  FindString : string → string → string;
  (** [regexp.MustCompile(re).FindStringSubmatch(content)] *)
  FindStringSubmatch : string → string → list string;
  (** [filepath.Join] *)
  filepathJoin : string → string → string
}.

(** [strconv.ParseBool]; [None] is its error. *)
Definition ParseBool (str : string) : option bool :=
  if bool_decide (str ∈ ["1"; "t"; "T"; "TRUE"; "true"; "True"]) then Some true
  else if bool_decide (str ∈ ["0"; "f"; "F"; "FALSE"; "false"; "False"]) then Some false
  else None.

(** [strings.Contains] *)
Fixpoint Contains (s substr : string) : bool :=
  String.prefix substr s ||
  match s with
  | EmptyString => false
  | String _ s' => Contains s' substr
  end.

Inductive error :=
| ErrReadFile
| ErrParseBool (name got : string)
| ErrMisconfiguration
| ErrLegacyPlugin.

Inductive result (A : Type) :=
| Ok (a : A)
| Err (e : error).
Arguments Ok {A} a.
Arguments Err {A} e.

Definition andThen {A B} (r : result A) (k : A → result B) : result B :=
  match r with
  | Ok a => k a
  | Err e => Err e
  end.

(** The patterns of the three rules. *)
Definition gapicRule : string := "go_gapic_library\((?s:.)*?\)".
Definition grpcRule : string := "go_grpc_library\((?s:.)*?\)".
Definition protoRule : string := "go_proto_library\((?s:.)*?\)".

Section parser.
Variable E : Externals.

Definition findString (content name : string) : string :=
  match FindStringSubmatch E (name +:+ "\s*=\s*" +:+ dq +:+ "([^" +:+ dq +:+ "]+)" +:+ dq)
                           content with
  | _ :: value :: _ => value
  | _ => ""
  end.

Definition findBool (content name : string) : result bool :=
  match FindStringSubmatch E (name +:+ "\s*=\s*(\w+)") content with
  | _ :: value :: _ =>
      match ParseBool value with
      | Some b => Ok b
      | None => Err (ErrParseBool name value)
      end
  | _ => Ok false
  end.

(** The part of [parseBazelConfig] on the [go_gapic_library] rule. *)
Definition gapicConfig (content : string) : result GoBazelConfig :=
  let gapicLibraryBlock := FindString E gapicRule content in
  if bool_decide (gapicLibraryBlock ≠ "") then
    andThen (findBool gapicLibraryBlock "metadata") (λ metadata,
    andThen (findBool gapicLibraryBlock "rest_numeric_enums") (λ restNumericEnums,
    andThen (findBool gapicLibraryBlock "diregapic") (λ diregapic,
    Ok (mkConfig (findString gapicLibraryBlock "grpc_service_config")
                 (findString gapicLibraryBlock "importpath")
                 ""
                 metadata
                 (findString gapicLibraryBlock "release_level")
                 restNumericEnums
                 (TrimPrefix (findString gapicLibraryBlock "service_yaml") ":")
                 (findString gapicLibraryBlock "transport")
                 diregapic false true))))
  else Ok emptyConfig.

(** The part on the [go_grpc_library] rule. *)
Definition withGrpc (content : string) (c : GoBazelConfig) : GoBazelConfig :=
  let grpcLibraryBlock := FindString E grpcRule content in
  if bool_decide (grpcLibraryBlock ≠ "") then
    mkConfig (grpcServiceConfig c) (gapicImportPath c)
             (findString grpcLibraryBlock "importpath")
             (metadata c) (releaseLevel c) (restNumericEnums c) (serviceYAML c)
             (transport c) (diregapic c) true (hasGAPIC c)
  else c.

(** [parseBazelConfig] on a file system of file contents by path. *)
Definition parseBazelConfig (fs : gmap string string) (dir : string)
  : result GoBazelConfig :=
  match fs !! filepathJoin E dir "BUILD.bazel" with
  | None => Err ErrReadFile
  | Some content =>
      andThen (gapicConfig content) (λ c,
      let c := withGrpc content c in
      let goProtoLibraryBlock := FindString E protoRule content in
      if bool_decide (goProtoLibraryBlock ≠ "") then
        if hasGoGRPC c then Err ErrMisconfiguration
        else if Contains goProtoLibraryBlock "@io_bazel_rules_go//proto:go_grpc"
        then Err ErrLegacyPlugin
        else Ok c
      else Ok c)
  end.

Lemma gapicConfig_fresh content c :
  gapicConfig content = Ok c → protoImportPath c = "" ∧ hasGoGRPC c = false.
Proof.
  unfold gapicConfig. case_bool_decide; [|by intros [= <-]].
  destruct (findBool _ "metadata"); [|done].
  destruct (findBool _ "rest_numeric_enums"); [|done].
  destruct (findBool _ "diregapic"); [|done]. by intros [= <-].
Qed.

Lemma gapicConfig_without_rule content c :
  FindString E gapicRule content = "" → gapicConfig content = Ok c → c = emptyConfig.
Proof.
  unfold gapicConfig. intros ->. rewrite bool_decide_false by (by intros []).
  by intros [= <-].
Qed.

End parser.

(** Without a [go_gapic_library] rule the GAPIC import path is empty. *)
Lemma parseBazelConfig_without_gapic_rule (E : Externals) (fs : gmap string string)
  (dir content : string) (c : GoBazelConfig) :
  fs !! filepathJoin E dir "BUILD.bazel" = Some content →
  parseBazelConfig E fs dir = Ok c →
  FindString E gapicRule content = "" → gapicImportPath c = "".
Proof.
  intros Hfile. unfold parseBazelConfig. rewrite Hfile.
  destruct (gapicConfig E content) as [c0|] eqn:Hgapic; [|done]. simpl.
  intros Hc Hrule. rewrite (gapicConfig_without_rule E content c0 Hrule) in Hc by done.
  unfold withGrpc in Hc.
  destruct (bool_decide (FindString E grpcRule content ≠ "")); simpl in Hc.
  - destruct (bool_decide _); [done|]. by injection Hc as <-.
  - destruct (bool_decide _); [|by injection Hc as <-].
    destruct (Contains _ _); [done|]. by injection Hc as <-.
Qed.

(** X28.  The proto import path comes from the [go_grpc_library] rule and from
    nowhere else.  When [parseBazelConfig] returns a configuration for a
    file without that rule, the proto import path is empty, also when the
    file has a [go_proto_library] rule with an import path; with that rule,
    the path is its [importpath] and the file has no [go_proto_library]
    rule.  And without a [go_gapic_library] rule the GAPIC import path is
    empty. *)
Theorem proto_import_path_needs_the_grpc_rule (E : Externals)
  (fs : gmap string string) (dir content : string) (c : GoBazelConfig) :
  fs !! filepathJoin E dir "BUILD.bazel" = Some content →
  parseBazelConfig E fs dir = Ok c →
  (FindString E grpcRule content = "" → protoImportPath c = "") ∧
  (FindString E grpcRule content ≠ "" →
   FindString E protoRule content = "" ∧
   protoImportPath c = findString E (FindString E grpcRule content) "importpath") ∧
  (FindString E gapicRule content = "" → gapicImportPath c = "").
Proof.
  intros Hfile. unfold parseBazelConfig. rewrite Hfile.
  destruct (gapicConfig E content) as [c0|] eqn:Hgapic; [|done]. simpl.
  destruct (gapicConfig_fresh E content c0 Hgapic) as [Hproto Hgrpc].
  unfold withGrpc.
  destruct (decide (FindString E grpcRule content = "")) as [Hnone|Hsome].
  - rewrite Hnone. rewrite (bool_decide_false ("" ≠ "")) by (by intros []).
    rewrite Hgrpc. intros Hc.
    assert (c = c0) as ->.
    { case_bool_decide; [|by injection Hc]. destruct (Contains _ _); [done|by injection Hc]. }
    split_and!; [done|done|].
    intros Hrule. by rewrite (gapicConfig_without_rule E content c0 Hrule Hgapic).
  - rewrite (bool_decide_true _ Hsome). simpl.
    case_bool_decide as Hprotorule; [done|]. intros [= <-]. simpl.
    split_and!; [done| |].
    + intros _. split; [|done]. by destruct (decide (FindString E protoRule content = "")).
    + intros Hrule. by rewrite (gapicConfig_without_rule E content c0 Hrule Hgapic).
Qed.

(** A [BUILD.bazel] with a [go_proto_library] rule only, and the package
    [regexp] on it. *)
Definition protoOnly : string :=
  "go_proto_library(name = library_go_proto, importpath = cloud.google.com/go/library/apiv1/librarypb)".

Definition protoOnlyEnv : Externals :=
  mkExternals
    (λ re content, if bool_decide (re = protoRule ∧ content = protoOnly) then protoOnly
                   else "")
    (λ re content, [])
    (λ dir file, dir +:+ "/" +:+ file).

Lemma proto_import_path_needs_the_grpc_rule_witness :
  parseBazelConfig protoOnlyEnv {["v1/BUILD.bazel" := protoOnly]} "v1" = Ok emptyConfig ∧
  protoImportPath emptyConfig = "".
Proof.
  assert (parseBazelConfig protoOnlyEnv {["v1/BUILD.bazel" := protoOnly]} "v1"
          = Ok emptyConfig) as Hparse by (vm_compute; reflexivity).
  assert (({["v1/BUILD.bazel" := protoOnly]} : gmap string string)
          !! filepathJoin protoOnlyEnv "v1" "BUILD.bazel" = Some protoOnly) as Hfile
    by (vm_compute; reflexivity).
  split; [exact Hparse|].
  apply (proj1 (proto_import_path_needs_the_grpc_rule protoOnlyEnv
                  {["v1/BUILD.bazel" := protoOnly]} "v1" protoOnly emptyConfig
                  Hfile Hparse)).
  reflexivity.
Defined.

End bazel.

(** ** Package [morph]: the Go program of a request *)

Module gogen.
Import api gostrings goany.
Local Open Scope nat_scope.

(** [generateGoInput], as far as [GenerateGo] reads it. *)
Record generateGoInput := mkInput {
  ReqData : string;
  OutDir : string;
  Method : Method.t;
  ServiceDir : string
}.

Record goData := mkGoData {
  Imports : list string;
  PackageName : string;
  ServiceName : string;
  MethodName : string;
  RequestName : string;
  RequestInit : string
}.

(** What [GenerateGo] takes from outside the sources, and [reduceServName],
    which depends on the Unicode tables: what is proved below holds for any
    service name. *)
Record Externals := mkExternals {
  (** [json.Unmarshal] into a [map[string]any]; [None] is its error *)
  Unmarshal : string → option (list (string * any));
  reduceServName : string → string → string;
  (** [mustache.ParseString] of the embedded template and [Render]; [None]
  is the error of either *)
  RenderTemplate : goData → option string;
  (** [format.Source]; [None] is its error *)
  FormatSource : string → option string;
  (** [os.WriteFile] succeeds *)
  WriteFile : string → bool;
  (** [filepath.Join] *)
  filepathJoin : string → string → string
}.

Inductive error :=
| ErrBazel (e : bazel.error)
| ErrUnmarshal
| ErrTemplate
| ErrWriteFile
| ErrFormat.

(** How a call of [GenerateGo] ends: it returns, with an error or [nil] and
    the file system it leaves, or it panics; [NoFuel] is the bound of the
    model on the nesting of the request. *)
Inductive outcome :=
| Returns (err : option error) (fs : gmap string string)
| Panics
| NoFuel.

(** [strings.Contains] for a substring of one byte. *)
Fixpoint ContainsByte (s : string) (b : ascii) : bool :=
  match s with
  | EmptyString => false
  | String c s' => bool_decide (c = b) || ContainsByte s' b
  end.

(** The import path without the package name after the semicolon. *)
Definition importHead (imp : string) : string :=
  if ContainsByte imp ";" then
    match Split imp ";" with
    | part :: _ => part
    | [] => ""
    end
  else imp.

Section generator.
Variable B : bazel.Externals.
Variable E : golang.Externals.
Variable G : Externals.

(** [GenerateGo] on the messages of the store [h] and a file system [fs].
    The imports that [buildRequestInit] returns are always empty. *)
Definition GenerateGo (fuel : nat) (h : store) (fs : gmap string string)
  (inp : generateGoInput) : outcome :=
  match bazel.parseBazelConfig B fs (ServiceDir inp) with
  | bazel.Err e => Returns (Some (ErrBazel e)) fs
  | bazel.Ok bazelConfig =>
      let gapicImportPathParts := Split (bazel.gapicImportPath bazelConfig) ";" in
      match Unmarshal G (ReqData inp) with
      | None => Returns (Some ErrUnmarshal) fs
      | Some data =>
          match golang.buildRequestInit E fuel h (bazel.protoImportPath bazelConfig)
                                        (Method.InputType (Method inp)) data with
          | golang.NoFuel => NoFuel
          | golang.Panicked => Panics
          | golang.Done reqInit =>
              let allImports := [bazel.gapicImportPath bazelConfig;
                                 bazel.protoImportPath bazelConfig] in
              let imports := importHead <$> allImports in
              match gapicImportPathParts, deref h (Method.InputType (Method inp)) with
              | _ :: packageName :: _, Some inputType =>
                  let data :=
                    mkGoData (literal_facts.removeDuplicateStr imports)
                             packageName
                             (reduceServName G (Service.Name (Method.Service (Method inp)))
                                             packageName)
                             (Method.Name (Method inp))
                             (Message.Name inputType)
                             (golang.Render E reqInit) in
                  match RenderTemplate G data with
                  | None => Returns (Some ErrTemplate) fs
                  | Some s =>
                      let file := filepathJoin G (OutDir inp) "main.go" in
                      match FormatSource G s with
                      | None =>
                          if WriteFile G file
                          then Returns (Some ErrFormat) (<[file := s]> fs)
                          else Returns (Some ErrWriteFile) fs
                      | Some formatted =>
                          if WriteFile G file
                          then Returns None (<[file := formatted]> fs)
                          else Returns (Some ErrWriteFile) fs
                      end
                  end
              | _, _ => Panics
              end
          end
      end
  end.

End generator.

Lemma Split_without (s : string) (b : ascii) : ContainsByte s b = false → Split s b = [s].
Proof.
  induction s as [|c s IH]; [done|]. simpl.
  intros [Hc Hs]%orb_false_elim. rewrite Hc. by rewrite (IH Hs).
Qed.

Lemma Split_head (s : string) (b : ascii) : ∀ part parts,
  Split s b = part :: parts → ContainsByte part b = false.
Proof.
  induction s as [|c s IH]; intros part parts; simpl.
  - by intros [= <- <-].
  - case_bool_decide as Hc; [by intros [= <- <-]|].
    destruct (Split s b) as [|p ps] eqn:Hs.
    + intros [= <- <-]. simpl. by rewrite bool_decide_false.
    + intros [= <- <-]. simpl. rewrite bool_decide_false by done. by apply (IH p ps).
Qed.

Lemma importHead_clean (imp : string) : ContainsByte (importHead imp) ";" = false.
Proof.
  unfold importHead. destruct (ContainsByte imp ";") eqn:Hc; [|done].
  destruct (Split imp ";") as [|part parts] eqn:Hs; [done|]. by eapply Split_head.
Qed.

(** X29.  [GenerateGo] panics on a service whose GAPIC import path has no
    semicolon, as soon as the configuration is read, the request decoded
    and its literal built: there is no package name to take.  This is so in
    particular when the [BUILD.bazel] has no [go_gapic_library] rule. *)
Theorem GenerateGo_panics_without_a_package_name (B : bazel.Externals)
  (E : golang.Externals) (G : Externals) (fuel : nat) (h : store)
  (fs : gmap string string) (inp : generateGoInput) (content : string)
  (c : bazel.GoBazelConfig) (data : list (string * any)) (reqInit : golang.FieldNode) :
  fs !! bazel.filepathJoin B (ServiceDir inp) "BUILD.bazel" = Some content →
  bazel.parseBazelConfig B fs (ServiceDir inp) = bazel.Ok c →
  Unmarshal G (ReqData inp) = Some data →
  golang.buildRequestInit E fuel h (bazel.protoImportPath c)
                          (Method.InputType (Method inp)) data = golang.Done reqInit →
  ContainsByte (bazel.gapicImportPath c) ";" = false
  ∨ bazel.FindString B bazel.gapicRule content = "" →
  GenerateGo B E G fuel h fs inp = Panics.
Proof.
  intros Hfile Hparse Hdata Hinit Hpath.
  assert (ContainsByte (bazel.gapicImportPath c) ";" = false) as Hnone.
  { destruct Hpath as [?|Hrule]; [done|].
    by rewrite (bazel.parseBazelConfig_without_gapic_rule B fs (ServiceDir inp) content c
                  Hfile Hparse Hrule). }
  unfold GenerateGo. rewrite Hparse, Hdata, Hinit.
  by rewrite (Split_without _ _ Hnone).
Qed.

(** The externals of the tests of [GenerateGo]: every step succeeds, the
    template lists the imports, the package and the request, and the
    formatter leaves the source as it is unless it holds a tab. *)
Definition testEnv : Externals :=
  mkExternals
    (λ bytes, if bool_decide (bytes = "Basic") then Some [("foo", Str "bar")] else None)
    (λ svc pkg, svc)
    (λ d, Some (String.concat "," (Imports d) +:+ " " +:+ PackageName d +:+ " "
                +:+ RequestInit d))
    (λ s, if ContainsByte s (ascii_of_nat 9) then None else Some s)
    (λ _, true)
    (λ dir file, dir +:+ "/" +:+ file).

Definition testMethod : Method.t :=
  Method.mk "TestMethod" (Some 0) None (Service.mk "LibraryClient" "").

Definition testInput : generateGoInput := mkInput "Basic" "out" testMethod "v1".

Lemma GenerateGo_panics_without_a_package_name_witness :
  GenerateGo bazel.protoOnlyEnv golang_tests.testEnv testEnv 1 golang_tests.testStore
             {["v1/BUILD.bazel" := bazel.protoOnly]} testInput = Panics.
Proof.
  assert (({["v1/BUILD.bazel" := bazel.protoOnly]} : gmap string string)
          !! bazel.filepathJoin bazel.protoOnlyEnv (ServiceDir testInput) "BUILD.bazel"
          = Some bazel.protoOnly) as Hfile by (vm_compute; reflexivity).
  assert (bazel.parseBazelConfig bazel.protoOnlyEnv {["v1/BUILD.bazel" := bazel.protoOnly]}
                                 (ServiceDir testInput) = bazel.Ok bazel.emptyConfig)
    as Hparse by (vm_compute; reflexivity).
  assert (∃ reqInit,
            golang.buildRequestInit golang_tests.testEnv 1 golang_tests.testStore
              (bazel.protoImportPath bazel.emptyConfig)
              (Method.InputType (Method testInput)) [("foo", Str "bar")]
            = golang.Done reqInit) as [reqInit Hinit] by (vm_compute; by eexists).
  apply (GenerateGo_panics_without_a_package_name bazel.protoOnlyEnv golang_tests.testEnv
           testEnv 1 golang_tests.testStore {["v1/BUILD.bazel" := bazel.protoOnly]}
           testInput bazel.protoOnly bazel.emptyConfig [("foo", Str "bar")] reqInit
           Hfile Hparse eq_refl Hinit).
  right. reflexivity.
Defined.

(** X30.  What [GenerateGo] writes.  When it returns [nil], or the error of the
    formatter, it has written [main.go] in the output directory: the
    formatted source in the first case, the source as rendered in the
    second.  The source is rendered from the literal of the request, the
    name of its message and of the method, the package name after the
    semicolon of the GAPIC import path, and the imports: these are the
    GAPIC and the proto import path without what follows a semicolon, and
    no import is listed twice. *)
Theorem GenerateGo_writes_the_rendered_request (B : bazel.Externals)
  (E : golang.Externals) (G : Externals) (fuel : nat) (h : store)
  (fs fs' : gmap string string) (inp : generateGoInput) (err : option error) :
  GenerateGo B E G fuel h fs inp = Returns err fs' →
  err = None ∨ err = Some ErrFormat →
  ∃ c data reqInit inputType d s,
    bazel.parseBazelConfig B fs (ServiceDir inp) = bazel.Ok c ∧
    Unmarshal G (ReqData inp) = Some data ∧
    golang.buildRequestInit E fuel h (bazel.protoImportPath c)
                            (Method.InputType (Method inp)) data = golang.Done reqInit ∧
    deref h (Method.InputType (Method inp)) = Some inputType ∧
    RenderTemplate G d = Some s ∧
    RequestInit d = golang.Render E reqInit ∧
    RequestName d = Message.Name inputType ∧
    MethodName d = Method.Name (Method inp) ∧
    Split (bazel.gapicImportPath c) ";" !! 1 = Some (PackageName d) ∧
    NoDup (Imports d) ∧
    (∀ imp, imp ∈ Imports d ↔
            imp = importHead (bazel.gapicImportPath c) ∨
            imp = importHead (bazel.protoImportPath c)) ∧
    (∀ imp, imp ∈ Imports d → ContainsByte imp ";" = false) ∧
    (err = None →
     ∃ formatted, FormatSource G s = Some formatted ∧
                  fs' = <[filepathJoin G (OutDir inp) "main.go" := formatted]> fs) ∧
    (err = Some ErrFormat →
     FormatSource G s = None ∧ fs' = <[filepathJoin G (OutDir inp) "main.go" := s]> fs).
Proof.
  unfold GenerateGo.
  destruct (bazel.parseBazelConfig B fs (ServiceDir inp)) as [c|e] eqn:Hparse;
    [|intros [= <- <-] [?|?]; done].
  destruct (Unmarshal G (ReqData inp)) as [data|] eqn:Hdata;
    [|intros [= <- <-] [?|?]; done].
  destruct (golang.buildRequestInit E fuel h _ _ data) as [reqInit| |] eqn:Hinit;
    [|done..].
  destruct (Split (bazel.gapicImportPath c) ";") as [|first [|packageName parts]] eqn:Hparts;
    [done..|].
  destruct (deref h (Method.InputType (Method inp))) as [inputType|] eqn:Hinput; [|done].
  set (d := mkGoData _ _ _ _ _ _).
  destruct (RenderTemplate G d) as [s|] eqn:Hrender; [|intros [= <- <-] [?|?]; done].
  intros Hrun Herr.
  assert (NoDup (Imports d) ∧
          ∀ imp, imp ∈ Imports d ↔
                 imp = importHead (bazel.gapicImportPath c) ∨
                 imp = importHead (bazel.protoImportPath c)) as [Hnodup Himports].
  { assert (Imports d
            = literal_facts.firsts
                (importHead <$> [bazel.gapicImportPath c; bazel.protoImportPath c])) as ->.
    { unfold d. cbn [Imports]. apply literal_facts.removeDuplicateStr_firsts. }
    split; [apply literal_facts.NoDup_firsts|].
    intros imp. rewrite literal_facts.elem_of_firsts.
    change (importHead <$> [bazel.gapicImportPath c; bazel.protoImportPath c])
      with [importHead (bazel.gapicImportPath c); importHead (bazel.protoImportPath c)].
    rewrite !elem_of_cons, elem_of_nil. tauto. }
  exists c, data, reqInit, inputType, d, s.
  split_and!; try done.
  - by rewrite Hparts.
  - intros imp [->| ->]%Himports; apply importHead_clean.
  - intros ->. destruct (FormatSource G s) as [formatted|].
    + destruct (WriteFile G _); [|done]. injection Hrun as <-. by exists formatted.
    + by destruct (WriteFile G _).
  - intros ->. destruct (FormatSource G s) as [formatted|].
    + by destruct (WriteFile G _).
    + destruct (WriteFile G _); [|done]. by injection Hrun as <-.
Qed.

(** The [BUILD.bazel] of [TestGenerateGo], as far as the parser reads it,
    and the package [regexp] on it. *)
Definition gapicBlock : string :=
  "go_gapic_library(importpath = " +:+ dq
  +:+ "cloud.google.com/go/library/apiv1;library" +:+ dq +:+ ")".

Definition grpcBlock : string :=
  "go_grpc_library(importpath = " +:+ dq
  +:+ "cloud.google.com/go/library/apiv1/librarypb" +:+ dq +:+ ")".

Definition libraryBuild : string := gapicBlock +:+ nl +:+ grpcBlock.

Definition importpathAttr : string :=
  "importpath" +:+ "\s*=\s*" +:+ dq +:+ "([^" +:+ dq +:+ "]+)" +:+ dq.

Definition libraryEnv : bazel.Externals :=
  bazel.mkExternals
    (λ re content,
       if bool_decide (re = bazel.gapicRule ∧ content = libraryBuild) then gapicBlock
       else if bool_decide (re = bazel.grpcRule ∧ content = libraryBuild) then grpcBlock
       else "")
    (λ re content,
       if bool_decide (re = importpathAttr ∧ content = gapicBlock)
       then ["importpath = " +:+ dq +:+ "cloud.google.com/go/library/apiv1;library" +:+ dq;
             "cloud.google.com/go/library/apiv1;library"]
       else if bool_decide (re = importpathAttr ∧ content = grpcBlock)
       then ["importpath = " +:+ dq +:+ "cloud.google.com/go/library/apiv1/librarypb" +:+ dq;
             "cloud.google.com/go/library/apiv1/librarypb"]
       else [])
    (λ dir file, dir +:+ "/" +:+ file).

Lemma GenerateGo_writes_the_rendered_request_witness :
  ∃ fs' d s formatted,
    GenerateGo libraryEnv golang_tests.testEnv testEnv 1 golang_tests.testStore
               {["v1/BUILD.bazel" := libraryBuild]} testInput = Returns None fs' ∧
    RenderTemplate testEnv d = Some s ∧
    PackageName d = "library" ∧
    NoDup (Imports d) ∧
    (∀ imp, imp ∈ Imports d → ContainsByte imp ";" = false) ∧
    FormatSource testEnv s = Some formatted ∧
    fs' = <["out/main.go" := formatted]> {["v1/BUILD.bazel" := libraryBuild]}.
Proof.
  assert (∃ fs', GenerateGo libraryEnv golang_tests.testEnv testEnv 1
                   golang_tests.testStore {["v1/BUILD.bazel" := libraryBuild]} testInput
                 = Returns None fs') as [fs' Hrun] by (vm_compute; by eexists).
  destruct (GenerateGo_writes_the_rendered_request libraryEnv golang_tests.testEnv testEnv
              1 golang_tests.testStore {["v1/BUILD.bazel" := libraryBuild]} fs' testInput
              None Hrun (or_introl eq_refl))
    as (c & data & reqInit & inputType & d & s & Hparse & _ & _ & _ & Hrender & _ & _ & _
        & Hpackage & Hnodup & _ & Hclean & Hwritten & _).
  destruct (Hwritten eq_refl) as (formatted & Hformat & Hfs).
  assert (bazel.parseBazelConfig libraryEnv {["v1/BUILD.bazel" := libraryBuild]}
            (ServiceDir testInput)
          = bazel.Ok (bazel.mkConfig "" "cloud.google.com/go/library/apiv1;library"
                        "cloud.google.com/go/library/apiv1/librarypb" false "" false "" ""
                        false true true)) as Hc by (vm_compute; reflexivity).
  rewrite Hc in Hparse. injection Hparse as <-.
  exists fs', d, s, formatted. split_and!; [done|done| |done|done|done|done].
  simpl in Hpackage. by injection Hpackage.
Defined.

End gogen.
